(** * A shallow embedding of the event manager kernel (event_manager.c)

    The manager is modelled sequentially: [lock_manager], [unlock_manager],
    [signal_manager] and [wait_manager] are the no-ops they are when
    [EM_ENABLE_THREADING] is 0, and every API function is a pure function
    from the object behind the handle (and, where the function allocates or
    frees, the heap) to the new object, the new heap and the returned code.
    The functions that dispatch take the behaviour of the callbacks as an
    argument: callbacks run inside the call, with the lock released, and may
    call back into the manager.

    - pointers ([void*], [em_callback_t]) are integers, [NULL] is 0;
    - [uint32_t] counters are integers kept in [0, 2^32) by [u32];
    - unsigned identifiers ([em_event_id_t], the [em_priority_t] enum,
      [size_t]) are binary naturals;
    - [int] fields (counts, ring indices) are integers;
    - fixed-size C arrays are lists read with [!!!] and written with
      [<[_:=_]>];
    - the heap is a finite map from block addresses to block contents. *)

From Stdlib Require Import ZArith NArith Lia Bool List.
From stdpp Require Import base numbers option list sorting gmap.
From Stdlib Require Strings.String.
Import String.StringSyntax.
Delimit Scope string_scope with string.

Local Open Scope Z_scope.

(** ** Configuration constants (event_manager.h) *)

Definition EM_MAX_EVENT_TYPES : N := 64.
Definition EM_MAX_SUBSCRIBERS : Z := 16.
Definition EM_ASYNC_QUEUE_SIZE : Z := 32.

(** ** Types (event_manager.h) *)

Definition EM_PRIORITY_HIGH : N := 0.
Definition EM_PRIORITY_NORMAL : N := 1.
Definition EM_PRIORITY_LOW : N := 2.
Definition EM_PRIORITY_COUNT : N := 3.

Inductive em_mode_t := EM_MODE_SYNC | EM_MODE_ASYNC.

Inductive em_error_t :=
  | EM_OK
  | EM_ERR_INVALID_PARAM
  | EM_ERR_NOT_INITIALIZED
  | EM_ERR_ALREADY_INIT
  | EM_ERR_OUT_OF_MEMORY
  | EM_ERR_QUEUE_FULL
  | EM_ERR_QUEUE_EMPTY
  | EM_ERR_MAX_SUBSCRIBERS
  | EM_ERR_NOT_FOUND
  | EM_ERR_MUTEX_FAILED.

Definition em_error_code (e : em_error_t) : Z :=
  match e with
  | EM_OK => 0
  | EM_ERR_INVALID_PARAM => -1
  | EM_ERR_NOT_INITIALIZED => -2
  | EM_ERR_ALREADY_INIT => -3
  | EM_ERR_OUT_OF_MEMORY => -4
  | EM_ERR_QUEUE_FULL => -5
  | EM_ERR_QUEUE_EMPTY => -6
  | EM_ERR_MAX_SUBSCRIBERS => -7
  | EM_ERR_NOT_FOUND => -8
  | EM_ERR_MUTEX_FAILED => -9
  end.

#[global] Instance em_error_t_eq_dec : EqDecision em_error_t.
Proof. solve_decision. Defined.

#[global] Instance em_mode_t_eq_dec : EqDecision em_mode_t.
Proof. solve_decision. Defined.

Definition NULL : Z := 0.

(** [uint32_t] arithmetic wraps around. *)
Definition u32 (z : Z) : Z := z mod 2 ^ 32.

Record em_event_t := mk_event {
  ev_id : N;
  ev_data : Z;
  ev_data_size : N;
  ev_priority : N;
  ev_mode : em_mode_t
}.

Record em_subscriber_t := mk_subscriber {
  sub_callback : Z;
  sub_user_data : Z;
  sub_priority : N;
  sub_active : bool
}.

Record em_stats_t := mk_stats {
  events_published : Z;
  events_processed : Z;
  async_queue_current : Z;
  async_queue_max : Z;
  subscribers_total : Z
}.

(** ** Internal structures (event_manager.c) *)

Record em_queue_node_t := mk_node {
  node_event : em_event_t;
  node_data_copy : Z;
  node_used : bool
}.

Record em_priority_queue_t := mk_queue {
  q_nodes : list em_queue_node_t;
  q_head : Z;
  q_tail : Z;
  q_count : Z
}.

Record em_subscriber_list_t := mk_list {
  subscribers : list em_subscriber_t;
  sl_count : Z;
  sorted : bool
}.

Record em_manager := mk_manager {
  event_subscribers : list em_subscriber_list_t;
  async_queues : list em_priority_queue_t;
  stats : em_stats_t;
  running : bool
}.

(** A handle is a pointer to a manager: [None] is the [NULL] handle. *)
Definition em_handle_t := option em_manager.

(** What [calloc] leaves in a struct: every field zero. *)
Definition zero_event : em_event_t := mk_event 0 NULL 0 0 EM_MODE_SYNC.
Definition zero_subscriber : em_subscriber_t := mk_subscriber NULL NULL 0 false.
Definition zero_node : em_queue_node_t := mk_node zero_event NULL false.
Definition zero_stats : em_stats_t := mk_stats 0 0 0 0 0.

#[global] Instance em_subscriber_t_inhabited : Inhabited em_subscriber_t :=
  populate zero_subscriber.
#[global] Instance em_queue_node_t_inhabited : Inhabited em_queue_node_t :=
  populate zero_node.
#[global] Instance em_priority_queue_t_inhabited : Inhabited em_priority_queue_t :=
  populate (mk_queue [] 0 0 0).
#[global] Instance em_subscriber_list_t_inhabited : Inhabited em_subscriber_list_t :=
  populate (mk_list [] 0 true).

#[global] Instance em_subscriber_t_eq_dec : EqDecision em_subscriber_t.
Proof. solve_decision. Defined.
#[global] Instance em_event_t_eq_dec : EqDecision em_event_t.
Proof. solve_decision. Defined.
#[global] Instance em_queue_node_t_eq_dec : EqDecision em_queue_node_t.
Proof. solve_decision. Defined.

(** ** The heap: [malloc], [memcpy], [free]

    A block is named by its address and holds its bytes. The allocator's
    choice is an input of the model: [malloc ret size] is handed the pointer
    [ret] the C library returns, [NULL] when the allocation fails. *)

Definition malloc (ret : Z) (size : N) (mem : gmap Z (list Z)) : Z * gmap Z (list Z) :=
  if ret =? NULL then (NULL, mem)
  else (ret, <[ret := replicate (N.to_nat size) 0]> mem).

Definition memcpy (dst src : Z) (n : N) (mem : gmap Z (list Z)) : gmap Z (list Z) :=
  let bytes := take (N.to_nat n) (default [] (mem !! src)) in
  <[dst := bytes ++ drop (N.to_nat n) (default [] (mem !! dst))]> mem.

Definition free (p : Z) (mem : gmap Z (list Z)) : gmap Z (list Z) := delete p mem.

(** ** Per-priority ring queue *)

(** [enqueue_event]: the queue after the call and the returned code. *)
Definition enqueue_event (queue : em_priority_queue_t) (event : em_event_t)
    (data_copy : Z) : em_error_t * em_priority_queue_t :=
  if EM_ASYNC_QUEUE_SIZE <=? q_count queue then (EM_ERR_QUEUE_FULL, queue)
  else
    let idx := q_tail queue in
    (EM_OK,
     mk_queue (<[Z.to_nat idx := mk_node event data_copy true]> (q_nodes queue))
              (q_head queue)
              ((q_tail queue + 1) mod EM_ASYNC_QUEUE_SIZE)
              (q_count queue + 1)).

(** [dequeue_event]: the out-parameters [*event] and [*data_copy] are
    written only on success, so they are returned as an option. *)
Definition dequeue_event (queue : em_priority_queue_t)
    : em_error_t * em_priority_queue_t * option (em_event_t * Z) :=
  if q_count queue =? 0 then (EM_ERR_QUEUE_EMPTY, queue, None)
  else
    let idx := q_head queue in
    let node := q_nodes queue !!! Z.to_nat idx in
    (EM_OK,
     mk_queue (<[Z.to_nat idx := mk_node (node_event node) NULL false]> (q_nodes queue))
              ((q_head queue + 1) mod EM_ASYNC_QUEUE_SIZE)
              (q_tail queue)
              (q_count queue - 1),
     Some (node_event node, node_data_copy node)).

(** ** Subscriber table *)

(** Field updates of the manager. *)
Definition set_event_subscribers (m : em_manager) (i : nat)
    (l : em_subscriber_list_t) : em_manager :=
  mk_manager (<[i := l]> (event_subscribers m)) (async_queues m) (stats m) (running m).

Definition set_async_queue (m : em_manager) (i : nat)
    (q : em_priority_queue_t) : em_manager :=
  mk_manager (event_subscribers m) (<[i := q]> (async_queues m)) (stats m) (running m).

Definition set_stats (m : em_manager) (st : em_stats_t) : em_manager :=
  mk_manager (event_subscribers m) (async_queues m) st (running m).

Definition set_running (m : em_manager) (b : bool) : em_manager :=
  mk_manager (event_subscribers m) (async_queues m) (stats m) b.

(** [for (i = lo; i < lo + n; i++) if (P(arr[i])) return i;] *)
Fixpoint scan {A} `{Inhabited A} (P : A -> bool) (arr : list A) (lo n : nat)
    : option nat :=
  match n with
  | O => None
  | S n' => if P (arr !!! lo) then Some lo else scan P arr (S lo) n'
  end.

Definition is_subscribed (callback : Z) (s : em_subscriber_t) : bool :=
  sub_active s && (sub_callback s =? callback).

Definition is_free (s : em_subscriber_t) : bool := negb (sub_active s).

Definition em_subscribe (handle : em_handle_t) (event_id : N) (callback : Z)
    (user_data : Z) (priority : N) : em_error_t * em_handle_t :=
  match handle with
  | None => (EM_ERR_INVALID_PARAM, handle)
  | Some m =>
    if callback =? NULL then (EM_ERR_INVALID_PARAM, handle)
    else if (EM_MAX_EVENT_TYPES <=? event_id)%N then (EM_ERR_INVALID_PARAM, handle)
    else if (EM_PRIORITY_COUNT <=? priority)%N then (EM_ERR_INVALID_PARAM, handle)
    else
      let list := event_subscribers m !!! N.to_nat event_id in
      if EM_MAX_SUBSCRIBERS <=? sl_count list then (EM_ERR_MAX_SUBSCRIBERS, handle)
      else
        match scan (is_subscribed callback) (subscribers list) 0
                   (Z.to_nat EM_MAX_SUBSCRIBERS) with
        | Some _ => (EM_OK, handle)
        | None =>
          match scan is_free (subscribers list) 0 (Z.to_nat EM_MAX_SUBSCRIBERS) with
          | Some i =>
            let list' :=
              mk_list (<[i := mk_subscriber callback user_data priority true]>
                         (subscribers list))
                      (sl_count list + 1) false in
            let st := stats m in
            let st' := mk_stats (events_published st) (events_processed st)
                         (async_queue_current st) (async_queue_max st)
                         (u32 (subscribers_total st + 1)) in
            (EM_OK,
             Some (set_stats (set_event_subscribers m (N.to_nat event_id) list') st'))
          | None => (EM_ERR_MAX_SUBSCRIBERS, handle)
          end
        end
  end.

Definition em_unsubscribe (handle : em_handle_t) (event_id : N) (callback : Z)
    : em_error_t * em_handle_t :=
  match handle with
  | None => (EM_ERR_INVALID_PARAM, handle)
  | Some m =>
    if callback =? NULL then (EM_ERR_INVALID_PARAM, handle)
    else if (EM_MAX_EVENT_TYPES <=? event_id)%N then (EM_ERR_INVALID_PARAM, handle)
    else
      let list := event_subscribers m !!! N.to_nat event_id in
      match scan (is_subscribed callback) (subscribers list) 0
                 (Z.to_nat EM_MAX_SUBSCRIBERS) with
      | Some i =>
        let s := subscribers list !!! i in
        let list' :=
          mk_list (<[i := mk_subscriber NULL NULL (sub_priority s) false]>
                     (subscribers list))
                  (sl_count list - 1) (sorted list) in
        let st := stats m in
        let st' := mk_stats (events_published st) (events_processed st)
                     (async_queue_current st) (async_queue_max st)
                     (u32 (subscribers_total st - 1)) in
        (EM_OK,
         Some (set_stats (set_event_subscribers m (N.to_nat event_id) list') st'))
      | None => (EM_ERR_NOT_FOUND, handle)
      end
  end.

(** The loop of [em_unsubscribe_all] over the slots [lo .. lo + n - 1]:
    every active slot is cleared and [subscribers_total] is decremented
    for it. *)
Fixpoint unsubscribe_slots (subs : list em_subscriber_t) (total : Z) (lo n : nat)
    : list em_subscriber_t * Z :=
  match n with
  | O => (subs, total)
  | S n' =>
    let s := subs !!! lo in
    if sub_active s then
      unsubscribe_slots (<[lo := mk_subscriber NULL NULL (sub_priority s) false]> subs)
                        (u32 (total - 1)) (S lo) n'
    else unsubscribe_slots subs total (S lo) n'
  end.

Definition em_unsubscribe_all (handle : em_handle_t) (event_id : N)
    : em_error_t * em_handle_t :=
  match handle with
  | None => (EM_ERR_INVALID_PARAM, handle)
  | Some m =>
    if (EM_MAX_EVENT_TYPES <=? event_id)%N then (EM_ERR_INVALID_PARAM, handle)
    else
      let list := event_subscribers m !!! N.to_nat event_id in
      let st := stats m in
      let '(subs', total') :=
        unsubscribe_slots (subscribers list) (subscribers_total st) 0
                          (Z.to_nat EM_MAX_SUBSCRIBERS) in
      let list' := mk_list subs' 0 true in
      let st' := mk_stats (events_published st) (events_processed st)
                   (async_queue_current st) (async_queue_max st) total' in
      (EM_OK,
       Some (set_stats (set_event_subscribers m (N.to_nat event_id) list') st'))
  end.

(** ** Sorting and dispatch *)

(** The inner [while] of the insertion sort, with [k = j + 1]: while
    [j >= 0], slot [j] is active and its priority is greater than [temp]'s,
    slot [j] moves to [j + 1]; finally [temp] is stored at [j + 1]. *)
Fixpoint sort_insert (temp : em_subscriber_t) (k : nat)
    (subs : list em_subscriber_t) : list em_subscriber_t :=
  match k with
  | O => <[O := temp]> subs
  | S j =>
    let sj := subs !!! j in
    if sub_active sj && (sub_priority temp <? sub_priority sj)%N
    then sort_insert temp j (<[S j := sj]> subs)
    else <[S j := temp]> subs
  end.

(** The outer [for] of the insertion sort over [i = lo .. lo + n - 1]. *)
Fixpoint sort_loop (subs : list em_subscriber_t) (lo n : nat)
    : list em_subscriber_t :=
  match n with
  | O => subs
  | S n' =>
    let si := subs !!! lo in
    if negb (sub_active si) then sort_loop subs (S lo) n'
    else sort_loop (sort_insert si lo subs) (S lo) n'
  end.

Definition sort_subscribers (list : em_subscriber_list_t) : em_subscriber_list_t :=
  if sorted list || (sl_count list <=? 1) then list
  else mk_list (sort_loop (subscribers list) 1 (Z.to_nat EM_MAX_SUBSCRIBERS - 1))
               (sl_count list) true.

(** The copy loop of [dispatch_event]: active slots [lo .. lo + n - 1] in
    index order. *)
Fixpoint copy_active (subs : list em_subscriber_t) (lo n : nat)
    : list em_subscriber_t :=
  match n with
  | O => []
  | S n' =>
    let s := subs !!! lo in
    if sub_active s then s :: copy_active subs (S lo) n'
    else copy_active subs (S lo) n'
  end.

(** One callback invocation [callback(event_id, data, user_data)]. *)
Record em_call := mk_call {
  call_callback : Z;
  call_event_id : N;
  call_data : Z;
  call_user_data : Z
}.

#[global] Instance em_call_eq_dec : EqDecision em_call.
Proof. solve_decision. Defined.

(** The locked part of [dispatch_event]: sort if needed, snapshot the
    active slots, count the event as processed. *)
Definition dispatch_snapshot (m : em_manager) (event_id : N)
    : em_manager * list em_subscriber_t :=
  let list := event_subscribers m !!! N.to_nat event_id in
  let list' := if negb (sorted list) then sort_subscribers list else list in
  let subscribers_copy :=
    copy_active (subscribers list') 0 (Z.to_nat EM_MAX_SUBSCRIBERS) in
  let st := stats m in
  let st' := mk_stats (events_published st) (u32 (events_processed st + 1))
               (async_queue_current st) (async_queue_max st)
               (subscribers_total st) in
  (set_stats (set_event_subscribers m (N.to_nat event_id) list') st',
   subscribers_copy).

(** The calls the loop over the snapshot makes, in order: one for each
    entry whose callback is not [NULL]. *)
Definition invoke (event_id : N) (data : Z) (snapshot : list em_subscriber_t)
    : list em_call :=
  map (fun s => mk_call (sub_callback s) event_id data (sub_user_data s))
      (filter (fun s => sub_callback s ≠ NULL) snapshot).

(** [dispatch_event] up to the release of the lock: the manager the
    callbacks start from, and the calls the loop is about to make. *)
Definition dispatch_prepare (m : em_manager) (event_id : N) (data : Z)
    : em_manager * list em_call :=
  if (EM_MAX_EVENT_TYPES <=? event_id)%N then (m, [])
  else
    let '(m', snapshot) := dispatch_snapshot m event_id in
    (m', invoke event_id data snapshot).

(** Callbacks are code of the embedder. They are called with the lock
    released and may call back into the manager, so a callback is given by
    what one invocation of it does to the object behind the handle and to
    the heap. The callbacks modelled return; one that destroys the manager
    leaves [None] for the handle. *)
Definition em_callbacks : Type :=
  em_call → em_handle_t * gmap Z (list Z) → em_handle_t * gmap Z (list Z).

(** [for (i = 0; i < count; i++) ... callback(event_id, data, user_data);] *)
Definition run_callbacks (cb : em_callbacks) (calls : list em_call)
    (w : em_handle_t * gmap Z (list Z)) : em_handle_t * gmap Z (list Z) :=
  fold_left (fun w c => cb c w) calls w.

(** The result is the manager and the heap as the last callback leaves
    them, with the calls made. *)
Definition dispatch_event (cb : em_callbacks) (m : em_manager) (event_id : N)
    (data : Z) (mem : gmap Z (list Z))
    : em_handle_t * gmap Z (list Z) * list em_call :=
  let '(m', calls) := dispatch_prepare m event_id data in
  (run_callbacks cb calls (Some m', mem), calls).

(** ** Publishing *)

Definition em_publish_sync (cb : em_callbacks) (handle : em_handle_t)
    (event_id : N) (data : Z) (mem : gmap Z (list Z))
    : em_error_t * em_handle_t * gmap Z (list Z) * list em_call :=
  match handle with
  | None => (EM_ERR_INVALID_PARAM, handle, mem, [])
  | Some m =>
    if (EM_MAX_EVENT_TYPES <=? event_id)%N
    then (EM_ERR_INVALID_PARAM, handle, mem, [])
    else
      let st := stats m in
      let st' := mk_stats (u32 (events_published st + 1)) (events_processed st)
                   (async_queue_current st) (async_queue_max st)
                   (subscribers_total st) in
      let '(handle', mem', calls) :=
        dispatch_event cb (set_stats m st') event_id data mem in
      (EM_OK, handle', mem', calls)
  end.

(** [for (i = lo; i < lo + n; i++) total += queues[i].count;] with
    [total] a [uint32_t]. *)
Fixpoint sum_counts (queues : list em_priority_queue_t) (total : Z) (lo n : nat) : Z :=
  match n with
  | O => total
  | S n' => sum_counts queues (u32 (total + q_count (queues !!! lo))) (S lo) n'
  end.

Definition queue_total (m : em_manager) : Z :=
  sum_counts (async_queues m) 0 0 (N.to_nat EM_PRIORITY_COUNT).

(** [em_publish_async] from the construction of the event descriptor on:
    enqueue, then either the statistics or the release of the copy. *)
Definition publish_async_enqueue (m : em_manager) (event_id : N) (data : Z)
    (data_size : N) (priority : N) (data_copy : Z) (mem : gmap Z (list Z))
    : em_error_t * em_handle_t * gmap Z (list Z) :=
  let event :=
    mk_event event_id (if negb (data_copy =? NULL) then data_copy else data)
             data_size priority EM_MODE_ASYNC in
  let '(result, queue') :=
    enqueue_event (async_queues m !!! N.to_nat priority) event data_copy in
  let m1 := set_async_queue m (N.to_nat priority) queue' in
  match result with
  | EM_OK =>
    let st := stats m1 in
    let total := queue_total m1 in
    let st' := mk_stats (u32 (events_published st + 1)) (events_processed st)
                 total
                 (if async_queue_max st <? total then total else async_queue_max st)
                 (subscribers_total st) in
    (result, Some (set_stats m1 st'), mem)
  | _ =>
    (result, Some m1, if negb (data_copy =? NULL) then free data_copy mem else mem)
  end.

(** [malloc_ret] is what [malloc] returns if it is called. *)
Definition em_publish_async (malloc_ret : Z) (handle : em_handle_t) (event_id : N)
    (data : Z) (data_size : N) (priority : N) (mem : gmap Z (list Z))
    : em_error_t * em_handle_t * gmap Z (list Z) :=
  match handle with
  | None => (EM_ERR_INVALID_PARAM, handle, mem)
  | Some m =>
    if (EM_MAX_EVENT_TYPES <=? event_id)%N then (EM_ERR_INVALID_PARAM, handle, mem)
    else if (EM_PRIORITY_COUNT <=? priority)%N then (EM_ERR_INVALID_PARAM, handle, mem)
    else if negb (data =? NULL) && (0 <? data_size)%N then
      let '(data_copy, mem1) := malloc malloc_ret data_size mem in
      if data_copy =? NULL then (EM_ERR_OUT_OF_MEMORY, handle, mem1)
      else
        publish_async_enqueue m event_id data data_size priority data_copy
          (memcpy data_copy data data_size mem1)
    else publish_async_enqueue m event_id data data_size priority NULL mem
  end.

Definition em_publish (cb : em_callbacks) (malloc_ret : Z) (handle : em_handle_t)
    (event : option em_event_t) (mem : gmap Z (list Z))
    : em_error_t * em_handle_t * gmap Z (list Z) * list em_call :=
  match handle, event with
  | Some _, Some ev =>
    match ev_mode ev with
    | EM_MODE_SYNC => em_publish_sync cb handle (ev_id ev) (ev_data ev) mem
    | EM_MODE_ASYNC =>
      let '(r, h, mem') :=
        em_publish_async malloc_ret handle (ev_id ev) (ev_data ev)
                         (ev_data_size ev) (ev_priority ev) mem in
      (r, h, mem', [])
    end
  | _, _ => (EM_ERR_INVALID_PARAM, handle, mem, [])
  end.

(** ** Processing *)

(** The locked loop of [em_process_one] over the priorities
    [lo .. lo + n - 1]: the first non-empty queue is dequeued and
    [async_queue_current] is recomputed. *)
Fixpoint process_scan (m : em_manager) (lo n : nat)
    : em_error_t * em_manager * option (em_event_t * Z) :=
  match n with
  | O => (EM_ERR_QUEUE_EMPTY, m, None)
  | S n' =>
    if 0 <? q_count (async_queues m !!! lo) then
      let '(result, queue', out) := dequeue_event (async_queues m !!! lo) in
      match result with
      | EM_OK =>
        let m1 := set_async_queue m lo queue' in
        let st := stats m1 in
        let st' := mk_stats (events_published st) (events_processed st)
                     (queue_total m1) (async_queue_max st) (subscribers_total st) in
        (EM_OK, set_stats m1 st', out)
      | _ => process_scan (set_async_queue m lo queue') (S lo) n'
      end
    else process_scan m (S lo) n'
  end.

(** The copy is released after the callbacks have returned, in the heap
    they leave. *)
Definition em_process_one (cb : em_callbacks) (handle : em_handle_t)
    (mem : gmap Z (list Z))
    : em_error_t * em_handle_t * gmap Z (list Z) * list em_call :=
  match handle with
  | None => (EM_ERR_INVALID_PARAM, handle, mem, [])
  | Some m =>
    match process_scan m 0 (N.to_nat EM_PRIORITY_COUNT) with
    | (EM_OK, m1, Some (event, data_copy)) =>
      let '(handle', mem', calls) :=
        dispatch_event cb m1 (ev_id event) (ev_data event) mem in
      (EM_OK, handle',
       if negb (data_copy =? NULL) then free data_copy mem' else mem', calls)
    | (result, m1, _) => (result, Some m1, mem, [])
    end
  end.

(** [while (em_process_one(handle) == EM_OK) count++;] The loop has no
    bound in the code and callbacks may publish, so it need not end: the
    result is [None] when it is still running after [fuel] calls of
    [em_process_one]. *)
Fixpoint process_all_loop (cb : em_callbacks) (fuel : nat) (handle : em_handle_t)
    (mem : gmap Z (list Z)) (count : Z) (calls : list em_call)
    : option (Z * em_handle_t * gmap Z (list Z) * list em_call) :=
  match fuel with
  | O => None
  | S fuel' =>
    match em_process_one cb handle mem with
    | (EM_OK, handle', mem', calls') =>
      process_all_loop cb fuel' handle' mem' (count + 1) (calls ++ calls')
    | (_, handle', mem', calls') => Some (count, handle', mem', calls ++ calls')
    end
  end.

Definition em_process_all (cb : em_callbacks) (fuel : nat) (handle : em_handle_t)
    (mem : gmap Z (list Z))
    : option (Z * em_handle_t * gmap Z (list Z) * list em_call) :=
  match handle with
  | None => Some (-1, handle, mem, [])
  | Some _ => process_all_loop cb fuel handle mem 0 []
  end.

Definition em_stop_loop (handle : em_handle_t) : em_error_t * em_handle_t :=
  match handle with
  | None => (EM_ERR_INVALID_PARAM, handle)
  | Some m => (EM_OK, Some (set_running m false))
  end.

(** ** Utilities *)

Definition em_get_stats (handle : em_handle_t) (stats_out : option em_stats_t)
    : em_error_t * option em_stats_t :=
  match handle, stats_out with
  | Some m, Some _ => (EM_OK, Some (stats m))
  | _, _ => (EM_ERR_INVALID_PARAM, stats_out)
  end.

Definition em_reset_stats (handle : em_handle_t) : em_error_t * em_handle_t :=
  match handle with
  | None => (EM_ERR_INVALID_PARAM, handle)
  | Some m =>
    let subscribers := subscribers_total (stats m) in
    let queue_current := async_queue_current (stats m) in
    let m1 := set_stats m zero_stats in
    let st := stats m1 in
    let m2 := set_stats m1
                (mk_stats (events_published st) (events_processed st)
                          (async_queue_current st) (async_queue_max st) subscribers) in
    let st := stats m2 in
    (EM_OK,
     Some (set_stats m2
             (mk_stats (events_published st) (events_processed st)
                       queue_current (async_queue_max st) (subscribers_total st))))
  end.

Definition em_get_subscriber_count (handle : em_handle_t) (event_id : N) : Z :=
  match handle with
  | None => -1
  | Some m =>
    if (EM_MAX_EVENT_TYPES <=? event_id)%N then -1
    else sl_count (event_subscribers m !!! N.to_nat event_id)
  end.

Definition em_has_subscribers (handle : em_handle_t) (event_id : N) : bool :=
  0 <? em_get_subscriber_count handle event_id.

(** [for (i = lo; i < lo + n; i++) total += queues[i].count;] with
    [total] an [int]. *)
Fixpoint sum_counts_int (queues : list em_priority_queue_t) (total : Z) (lo n : nat) : Z :=
  match n with
  | O => total
  | S n' => sum_counts_int queues (total + q_count (queues !!! lo)) (S lo) n'
  end.

Definition em_get_queue_size (handle : em_handle_t) : Z :=
  match handle with
  | None => -1
  | Some m => sum_counts_int (async_queues m) 0 0 (N.to_nat EM_PRIORITY_COUNT)
  end.

(** The inner loop of [em_clear_queue] over the nodes [lo .. lo + n - 1]:
    owned copies are freed, nodes are marked unused. *)
Fixpoint clear_nodes (nodes : list em_queue_node_t) (mem : gmap Z (list Z))
    (lo n : nat) : list em_queue_node_t * gmap Z (list Z) :=
  match n with
  | O => (nodes, mem)
  | S n' =>
    let node := nodes !!! lo in
    let mem' := if negb (node_data_copy node =? NULL)
                then free (node_data_copy node) mem else mem in
    clear_nodes (<[lo := mk_node (node_event node) NULL false]> nodes) mem' (S lo) n'
  end.

(** The outer loop of [em_clear_queue] over the priorities. *)
Fixpoint clear_queues (queues : list em_priority_queue_t) (mem : gmap Z (list Z))
    (lo n : nat) : list em_priority_queue_t * gmap Z (list Z) :=
  match n with
  | O => (queues, mem)
  | S n' =>
    let queue := queues !!! lo in
    let '(nodes', mem') :=
      clear_nodes (q_nodes queue) mem 0 (Z.to_nat EM_ASYNC_QUEUE_SIZE) in
    clear_queues (<[lo := mk_queue nodes' 0 0 0]> queues) mem' (S lo) n'
  end.

Definition em_clear_queue (handle : em_handle_t) (mem : gmap Z (list Z))
    : em_error_t * em_handle_t * gmap Z (list Z) :=
  match handle with
  | None => (EM_ERR_INVALID_PARAM, handle, mem)
  | Some m =>
    let '(queues', mem') :=
      clear_queues (async_queues m) mem 0 (N.to_nat EM_PRIORITY_COUNT) in
    let st := stats m in
    (EM_OK,
     Some (mk_manager (event_subscribers m) queues'
             (mk_stats (events_published st) (events_processed st) 0
                       (async_queue_max st) (subscribers_total st))
             (running m)),
     mem')
  end.

(** ** Creation

    [calloc_ok] tells whether [calloc] returned a block. *)
Definition em_create (calloc_ok : bool) : em_handle_t :=
  if calloc_ok then
    Some (mk_manager
            (replicate (N.to_nat EM_MAX_EVENT_TYPES)
               (mk_list (replicate (Z.to_nat EM_MAX_SUBSCRIBERS) zero_subscriber) 0 true))
            (replicate (N.to_nat EM_PRIORITY_COUNT)
               (mk_queue (replicate (Z.to_nat EM_ASYNC_QUEUE_SIZE) zero_node) 0 0 0))
            zero_stats false)
  else None.

(** ** Destruction *)

(** The inner loop of [em_destroy] over the nodes [lo .. lo + n - 1]: owned
    copies are freed and their pointers reset. *)
Fixpoint destroy_nodes (nodes : list em_queue_node_t) (mem : gmap Z (list Z))
    (lo n : nat) : list em_queue_node_t * gmap Z (list Z) :=
  match n with
  | O => (nodes, mem)
  | S n' =>
    let node := nodes !!! lo in
    if negb (node_data_copy node =? NULL) then
      destroy_nodes (<[lo := mk_node (node_event node) NULL (node_used node)]> nodes)
                    (free (node_data_copy node) mem) (S lo) n'
    else destroy_nodes nodes mem (S lo) n'
  end.

(** The outer loop of [em_destroy] over the priorities. *)
Fixpoint destroy_queues (queues : list em_priority_queue_t) (mem : gmap Z (list Z))
    (lo n : nat) : list em_priority_queue_t * gmap Z (list Z) :=
  match n with
  | O => (queues, mem)
  | S n' =>
    let queue := queues !!! lo in
    let '(nodes', mem') :=
      destroy_nodes (q_nodes queue) mem 0 (Z.to_nat EM_ASYNC_QUEUE_SIZE) in
    destroy_queues
      (<[lo := mk_queue nodes' (q_head queue) (q_tail queue) (q_count queue)]> queues)
      mem' (S lo) n'
  end.

(** [em_destroy]: the manager is freed at the end, so the handle is left
    without an object; the heap keeps what the manager did not own. *)
Definition em_destroy (handle : em_handle_t) (mem : gmap Z (list Z))
    : em_error_t * em_handle_t * gmap Z (list Z) :=
  match handle with
  | None => (EM_ERR_INVALID_PARAM, handle, mem)
  | Some m =>
    let m1 := set_running m false in
    let '(queues', mem') :=
      destroy_queues (async_queues m1) mem 0 (N.to_nat EM_PRIORITY_COUNT) in
    (EM_OK, None, mem')
  end.

(** Every [data_copy] pointer stored in a queue node. *)
Definition node_copies (m : em_manager) : list Z :=
  concat (map (fun q => map node_data_copy (q_nodes q)) (async_queues m)).

(** [free] applied to every non-[NULL] pointer of a list. *)
Definition free_all (ps : list Z) (mem : gmap Z (list Z)) : gmap Z (list Z) :=
  fold_left (fun mem p => if negb (p =? NULL) then free p mem else mem) ps mem.

(** What the loop of [em_clear_queue] does to one node. *)
Definition clear_node (node : em_queue_node_t) : em_queue_node_t :=
  mk_node (node_event node) NULL false.

(** ** Error descriptions *)

(** The [switch] of [em_error_string] over the value of the code; an
    [em_error_t] is an [int] in C, so any integer can be passed. *)
Definition em_error_string (error : Z) : String.string :=
  match error with
  | 0 => "Success"
  | -1 => "Invalid parameter"
  | -2 => "Not initialized"
  | -3 => "Already initialized"
  | -4 => "Out of memory"
  | -5 => "Queue is full"
  | -6 => "Queue is empty"
  | -7 => "Maximum subscribers reached"
  | -8 => "Not found"
  | -9 => "Mutex operation failed"
  | _ => "Unknown error"
  end%string.

(** ** Sequences of API calls *)

Inductive em_op :=
  | OpSubscribe (event_id : N) (callback user_data : Z) (priority : N)
  | OpUnsubscribe (event_id : N) (callback : Z)
  | OpUnsubscribeAll (event_id : N)
  | OpPublishSync (event_id : N) (data : Z)
  | OpPublishAsync (malloc_ret : Z) (event_id : N) (data : Z) (data_size : N)
      (priority : N)
  | OpProcessOne
  | OpProcessAll (fuel : nat)
  | OpStopLoop
  | OpResetStats
  | OpClearQueue.

#[global] Instance em_op_eq_dec : EqDecision em_op.
Proof. solve_decision. Defined.

(** One call on the object behind the handle and the heap, callbacks
    included; [None] when the call has not returned ([em_process_all] still
    looping after [fuel] events). *)
Definition em_step (cb : em_callbacks) (w : em_handle_t * gmap Z (list Z))
    (o : em_op) : option (em_handle_t * gmap Z (list Z)) :=
  let '(h, mem) := w in
  match o with
  | OpSubscribe e c u p => Some (snd (em_subscribe h e c u p), mem)
  | OpUnsubscribe e c => Some (snd (em_unsubscribe h e c), mem)
  | OpUnsubscribeAll e => Some (snd (em_unsubscribe_all h e), mem)
  | OpPublishSync e d =>
    let '(_, h', mem', _) := em_publish_sync cb h e d mem in Some (h', mem')
  | OpPublishAsync r e d n p =>
    let '(_, h', mem') := em_publish_async r h e d n p mem in Some (h', mem')
  | OpProcessOne =>
    let '(_, h', mem', _) := em_process_one cb h mem in Some (h', mem')
  | OpProcessAll fuel =>
    match em_process_all cb fuel h mem with
    | Some (_, h', mem', _) => Some (h', mem')
    | None => None
    end
  | OpStopLoop => Some (snd (em_stop_loop h), mem)
  | OpResetStats => Some (snd (em_reset_stats h), mem)
  | OpClearQueue =>
    let '(_, h', mem') := em_clear_queue h mem in Some (h', mem')
  end.

Fixpoint em_run (cb : em_callbacks) (ops : list em_op)
    (w : em_handle_t * gmap Z (list Z)) : option (em_handle_t * gmap Z (list Z)) :=
  match ops with
  | [] => Some w
  | o :: ops' =>
    match em_step cb w o with
    | Some w' => em_run cb ops' w'
    | None => None
    end
  end.

(** Callbacks that touch neither the manager nor the heap. *)
Definition quiet : em_callbacks := fun _ w => w.

(** What code of the embedder does between two points of its execution:
    nothing, something to the heap, or a call of the API (whose callbacks
    are again such code) followed by more. *)
Inductive api_reach
    : em_handle_t * gmap Z (list Z) → em_handle_t * gmap Z (list Z) → Prop :=
  | api_reach_refl w : api_reach w w
  | api_reach_heap h mem mem' w :
      api_reach (h, mem') w → api_reach (h, mem) w
  | api_reach_call cb w o w1 w2 :
      (∀ c w', api_reach w' (cb c w')) →
      em_step cb w o = Some w1 → api_reach w1 w2 → api_reach w w2.

(** Callbacks that act on the manager through its API only. *)
Definition api_callbacks (cb : em_callbacks) : Prop :=
  ∀ c w, api_reach w (cb c w).

(** An example of callbacks that call back: callback 100 publishes the
    event it is called for asynchronously, resets the statistics and
    subscribes callback 200 to event 2; every other callback is quiet. *)
Definition calling_back : em_callbacks := fun c w =>
  if call_callback c =? 100 then
    default w (em_run quiet [OpPublishAsync 0 (call_event_id c) 0 0 1;
                             OpResetStats; OpSubscribe 2 200 0 1] w)
  else w.

(** The states a freshly created manager reaches with such callbacks. *)
Definition reachable (m : em_manager) : Prop :=
  ∃ cb ops mem, api_callbacks cb ∧
    em_run cb ops (em_create true, ∅) = Some (Some m, mem).

(** ** Well-formedness: what the C types and the ring discipline fix *)

Definition wf_queue (q : em_priority_queue_t) : Prop :=
  length (q_nodes q) = Z.to_nat EM_ASYNC_QUEUE_SIZE ∧
  (0 ≤ q_head q ∧ q_head q < EM_ASYNC_QUEUE_SIZE) ∧
  (0 ≤ q_count q ∧ q_count q ≤ EM_ASYNC_QUEUE_SIZE) ∧
  q_tail q = (q_head q + q_count q) mod EM_ASYNC_QUEUE_SIZE.

#[global] Instance wf_queue_dec q : Decision (wf_queue q).
Proof. unfold wf_queue. apply _. Defined.

Definition is_u32 (z : Z) : Prop := 0 ≤ z ∧ z < 2 ^ 32.

Definition wf_stats (st : em_stats_t) : Prop :=
  is_u32 (events_published st) ∧ is_u32 (events_processed st) ∧
  is_u32 (async_queue_current st) ∧ is_u32 (async_queue_max st) ∧
  is_u32 (subscribers_total st).

#[global] Instance wf_stats_dec st : Decision (wf_stats st).
Proof. unfold wf_stats, is_u32. apply _. Defined.

Definition wf_manager (m : em_manager) : Prop :=
  length (event_subscribers m) = N.to_nat EM_MAX_EVENT_TYPES ∧
  Forall (fun l => length (subscribers l) = Z.to_nat EM_MAX_SUBSCRIBERS)
         (event_subscribers m) ∧
  length (async_queues m) = N.to_nat EM_PRIORITY_COUNT ∧
  Forall wf_queue (async_queues m) ∧
  wf_stats (stats m).

#[global] Instance wf_manager_dec m : Decision (wf_manager m).
Proof. unfold wf_manager. apply _. Defined.

(** The handle is valid and the object behind it is well-formed. *)
Definition wf_world (w : em_handle_t * gmap Z (list Z)) : Prop :=
  ∃ m, fst w = Some m ∧ wf_manager m.

(** The events a ring holds, oldest first: the nodes at
    [head, head + 1, ..., head + count - 1] modulo the capacity. *)
Definition ring_index (q : em_priority_queue_t) (k : nat) : nat :=
  Z.to_nat ((q_head q + Z.of_nat k) mod EM_ASYNC_QUEUE_SIZE).

Definition queue_contents (q : em_priority_queue_t) : list (em_event_t * Z) :=
  map (fun k => let node := q_nodes q !!! ring_index q k in
                (node_event node, node_data_copy node))
      (seq 0 (Z.to_nat (q_count q))).

(** Sum over the three priorities of the queue counts. *)
Definition count_sum (m : em_manager) : Z :=
  q_count (async_queues m !!! N.to_nat EM_PRIORITY_HIGH) +
  q_count (async_queues m !!! N.to_nat EM_PRIORITY_NORMAL) +
  q_count (async_queues m !!! N.to_nat EM_PRIORITY_LOW).

(** What the two queue statistics keep: the gauge is the number of queued
    events, and it is at most the high-water mark unless that mark is 0. *)
Definition queue_stats_inv (m : em_manager) : Prop :=
  count_sum m = async_queue_current (stats m) ∧
  (async_queue_max (stats m) = 0 ∨
   async_queue_current (stats m) ≤ async_queue_max (stats m)).

(** A callback holds an active slot of an event: some slot of the event's
    table is active and stores the callback. *)
Definition has_active_slot (m : em_manager) (event_id : N) (callback : Z) : Prop :=
  Exists (fun s => sub_active s = true ∧ sub_callback s = callback)
         (subscribers (event_subscribers m !!! N.to_nat event_id)).

#[global] Instance has_active_slot_dec m event_id callback :
  Decision (has_active_slot m event_id callback).
Proof. unfold has_active_slot. apply _. Defined.

(** [SubscriberCount] and [subscribers_total] as a client reads them. *)
Definition subscriber_view (handle : em_handle_t) (event_id : N) : Z * option Z :=
  (em_get_subscriber_count handle event_id,
   option_map (fun m => subscribers_total (stats m)) handle).

(** [em_subscribe] followed by [em_unsubscribe] of the same pair. *)
Definition subscribe_unsubscribe (handle : em_handle_t) (event_id : N)
    (callback user_data : Z) (priority : N) : em_handle_t :=
  snd (em_unsubscribe (snd (em_subscribe handle event_id callback user_data priority))
                      event_id callback).

(** Reference insertion: [x] goes behind every element whose priority is
    not greater than its own. *)
Fixpoint insert_by_priority (x : em_subscriber_t) (l : list em_subscriber_t)
    : list em_subscriber_t :=
  match l with
  | [] => [x]
  | y :: l' =>
    if (sub_priority x <? sub_priority y)%N then x :: l
    else y :: insert_by_priority x l'
  end.

(** Reference stable sort: the elements are inserted in list order. *)
Definition sort_by_priority (l : list em_subscriber_t) : list em_subscriber_t :=
  fold_left (fun acc x => insert_by_priority x acc) l [].

Definition priority_le (x y : em_subscriber_t) : Prop :=
  (sub_priority x ≤ sub_priority y)%N.

(** The active slots of a table, in slot order. *)
Definition active_slots (tbl : em_subscriber_list_t) : list em_subscriber_t :=
  filter (fun s => sub_active s = true) (subscribers tbl).

(** What a subscriber table keeps: [count] is the number of active slots,
    no callback holds two active slots, and an active slot has a callback
    and a valid priority. *)
Definition table_inv (tbl : em_subscriber_list_t) : Prop :=
  sl_count tbl = Z.of_nat (length (active_slots tbl)) ∧
  NoDup (map sub_callback (active_slots tbl)) ∧
  Forall (fun s => sub_callback s ≠ NULL ∧ (sub_priority s < EM_PRIORITY_COUNT)%N)
         (active_slots tbl).

#[global] Instance table_inv_dec tbl : Decision (table_inv tbl).
Proof. unfold table_inv. apply _. Defined.

Definition count_total (tables : list em_subscriber_list_t) : Z :=
  foldr (fun l acc => sl_count l + acc) 0 tables.

Definition subscribers_inv (m : em_manager) : Prop :=
  Forall table_inv (event_subscribers m) ∧
  subscribers_total (stats m) = count_total (event_subscribers m).

#[global] Instance subscribers_inv_dec m : Decision (subscribers_inv m).
Proof. unfold subscribers_inv. apply _. Defined.

(** What the loop of [em_unsubscribe_all] does to one slot. *)
Definition clear_slot (s : em_subscriber_t) : em_subscriber_t :=
  if sub_active s then mk_subscriber NULL NULL (sub_priority s) false else s.

(** ** The descriptors in the queues *)

(** What [em_publish_async] puts in a descriptor it queues at priority [p]:
    a valid event id, the priority of the queue, the asynchronous mode and,
    when the node owns a copy, the address of the copy as the data
    pointer and a positive length. *)
Definition queued_ok (p : nat) (x : em_event_t * Z) : Prop :=
  (ev_id x.1 < EM_MAX_EVENT_TYPES)%N ∧
  N.to_nat (ev_priority x.1) = p ∧
  ev_mode x.1 = EM_MODE_ASYNC ∧
  (x.2 ≠ NULL → ev_data x.1 = x.2 ∧ (0 < ev_data_size x.1)%N).

Definition queued_inv (m : em_manager) : Prop :=
  ∀ p, (p < N.to_nat EM_PRIORITY_COUNT)%nat →
       Forall (queued_ok p) (queue_contents (async_queues m !!! p)).

(** * Properties *)

(** ** Statistics reset *)

(** C8: [em_reset_stats] on a valid handle returns [EM_OK], zeroes
    [events_published], [events_processed] and [async_queue_max], keeps
    [subscribers_total] and [async_queue_current], and leaves the subscriber
    tables, the queues and the running flag as they were. *)
Theorem reset_stats_frame (m : em_manager) :
  ∃ m', em_reset_stats (Some m) = (EM_OK, Some m') ∧
    events_published (stats m') = 0 ∧
    events_processed (stats m') = 0 ∧
    async_queue_max (stats m') = 0 ∧
    subscribers_total (stats m') = subscribers_total (stats m) ∧
    async_queue_current (stats m') = async_queue_current (stats m) ∧
    event_subscribers m' = event_subscribers m ∧
    async_queues m' = async_queues m ∧
    running m' = running m.
Proof.
  eexists. split; [reflexivity|]. cbn. tauto.
Qed.

(** ** Subscriber count queries *)

(** C9: for a [NULL] handle or an event id of at least [EM_MAX_EVENT_TYPES],
    [em_get_subscriber_count] returns -1 and [em_has_subscribers] returns
    [false]: being the test "count > 0", it answers as it does for a valid
    event without subscribers, here event 0 of a fresh manager. *)
Theorem subscriber_count_invalid (handle : em_handle_t) (event_id : N) :
  handle = None ∨ (EM_MAX_EVENT_TYPES ≤ event_id)%N →
  em_get_subscriber_count handle event_id = -1 ∧
  em_has_subscribers handle event_id = false ∧
  em_has_subscribers handle event_id
    = bool_decide (0 < em_get_subscriber_count handle event_id) ∧
  em_has_subscribers handle event_id = em_has_subscribers (em_create true) 0.
Proof.
  intros Hbad.
  assert (Hc : em_get_subscriber_count handle event_id = -1).
  { unfold em_get_subscriber_count. destruct Hbad as [-> | Hge]; [done|].
    destruct handle; [|done].
    apply N.leb_le in Hge. by rewrite Hge. }
  unfold em_has_subscribers at 1 2 3. rewrite Hc. done.
Qed.

Lemma subscriber_count_invalid_witness :
  (em_get_subscriber_count None 3 = -1 ∧ em_has_subscribers None 3 = false) ∧
  (em_get_subscriber_count (em_create true) 64 = -1 ∧
   em_has_subscribers (em_create true) 64 = false).
Proof.
  split.
  - destruct (subscriber_count_invalid None 3) as (H1 & H2 & _).
    + left. reflexivity.
    + split; [exact H1|exact H2].
  - destruct (subscriber_count_invalid (em_create true) 64) as (H1 & H2 & _).
    + right. unfold EM_MAX_EVENT_TYPES. lia.
    + split; [exact H1|exact H2].
Defined.

(** ** The per-priority ring *)

Lemma ring_index_lt q k : wf_queue q → (ring_index q k < Z.to_nat EM_ASYNC_QUEUE_SIZE)%nat.
Proof.
  intros (_ & ? & _). unfold ring_index, EM_ASYNC_QUEUE_SIZE in *.
  pose proof (Z.mod_pos_bound (q_head q + Z.of_nat k) 32). lia.
Qed.

Lemma ring_index_inj q j k :
  wf_queue q → (j < k)%nat → (k < Z.to_nat EM_ASYNC_QUEUE_SIZE)%nat →
  ring_index q j ≠ ring_index q k.
Proof.
  intros (_ & ? & _) Hjk Hk. unfold ring_index, EM_ASYNC_QUEUE_SIZE in *.
  intros Heq. apply Z2Nat.inj in Heq; [| apply Z.mod_pos_bound; lia ..].
  revert Heq. Z.div_mod_to_equations. lia.
Qed.

Lemma enqueue_event_ok q ev dc :
  wf_queue q → q_count q ≠ EM_ASYNC_QUEUE_SIZE →
  ∃ q', enqueue_event q ev dc = (EM_OK, q') ∧ wf_queue q' ∧
        queue_contents q' = queue_contents q ++ [(ev, dc)] ∧
        (∀ k, (k < Z.to_nat (q_count q))%nat →
              q_nodes q' !!! ring_index q k = q_nodes q !!! ring_index q k).
Proof.
  intros Hwf Hne. pose proof Hwf as (Hlen & Hhd & Hcnt & Htl).
  unfold enqueue_event. destruct (Z.leb_spec EM_ASYNC_QUEUE_SIZE (q_count q)) as [Hle|Hlt]; [lia|].
  eexists. split; [reflexivity|].
  assert (Htail : Z.to_nat (q_tail q) = ring_index q (Z.to_nat (q_count q))).
  { unfold ring_index. rewrite Htl. f_equal. f_equal. lia. }
  assert (Hother : ∀ k, (k < Z.to_nat (q_count q))%nat →
            <[Z.to_nat (q_tail q) := mk_node ev dc true]> (q_nodes q) !!! ring_index q k
            = q_nodes q !!! ring_index q k).
  { intros k Hk. apply list_lookup_total_insert_ne. rewrite Htail.
    intros Heq. symmetry in Heq. revert Heq. apply ring_index_inj; [done|done|].
    unfold EM_ASYNC_QUEUE_SIZE in *. lia. }
  split; [|split].
  - unfold wf_queue; cbn. rewrite length_insert.
    split; [done|]. split; [done|]. split; [lia|].
    rewrite Htl. unfold EM_ASYNC_QUEUE_SIZE in *. Z.div_mod_to_equations. lia.
  - unfold queue_contents; cbn.
    replace (Z.to_nat (q_count q + 1)) with (Z.to_nat (q_count q) + 1)%nat by lia.
    rewrite seq_app, map_app. f_equal.
    + apply map_ext_in. intros k Hk. apply in_seq in Hk.
      unfold ring_index at 1 2; cbn. fold (ring_index q k). rewrite Hother by lia. done.
    + cbn. unfold ring_index at 1 2; cbn. fold (ring_index q (Z.to_nat (q_count q))).
      rewrite <- Htail. rewrite list_lookup_total_insert_eq; [done|].
      rewrite Hlen. unfold EM_ASYNC_QUEUE_SIZE in *.
      rewrite Htl. pose proof (Z.mod_pos_bound (q_head q + q_count q) 32). lia.
  - cbn. done.
Qed.

Lemma ring_index_0 q : wf_queue q → ring_index q 0 = Z.to_nat (q_head q).
Proof.
  intros (_ & ? & _). unfold ring_index, EM_ASYNC_QUEUE_SIZE in *.
  rewrite Z.add_0_r, Z.mod_small; lia.
Qed.

Lemma dequeue_event_ok q :
  wf_queue q → q_count q ≠ 0 →
  ∃ q' x, dequeue_event q = (EM_OK, q', Some x) ∧ wf_queue q' ∧
          queue_contents q = x :: queue_contents q'.
Proof.
  intros Hwf Hne. pose proof Hwf as (Hlen & Hhd & Hcnt & Htl).
  unfold dequeue_event. destruct (Z.eqb_spec (q_count q) 0) as [|_]; [lia|].
  eexists _, _. split; [reflexivity|]. split.
  - unfold wf_queue; cbn. rewrite length_insert.
    split; [done|]. unfold EM_ASYNC_QUEUE_SIZE in *.
    split; [apply Z.mod_pos_bound; lia|]. split; [lia|].
    rewrite Htl. Z.div_mod_to_equations. lia.
  - unfold queue_contents; cbn.
    replace (Z.to_nat (q_count q)) with (S (Z.to_nat (q_count q - 1))) by lia.
    cbn [seq map]. f_equal.
    + by rewrite ring_index_0.
    + rewrite <- seq_shift, map_map. apply map_ext_in. intros k Hk. apply in_seq in Hk.
      assert (Hix : ring_index q (S k) =
                Z.to_nat (((q_head q + 1) mod EM_ASYNC_QUEUE_SIZE + Z.of_nat k)
                          mod EM_ASYNC_QUEUE_SIZE)).
      { unfold ring_index. f_equal. unfold EM_ASYNC_QUEUE_SIZE.
        rewrite Zplus_mod_idemp_l. f_equal. lia. }
      unfold ring_index at 3 4; cbn. rewrite <- Hix.
      rewrite list_lookup_total_insert_ne; [done|].
      rewrite <- (ring_index_0 q) by done.
      apply ring_index_inj; [done|lia|]. unfold EM_ASYNC_QUEUE_SIZE in *. lia.
Qed.

Lemma enqueue_event_full q ev dc :
  q_count q = EM_ASYNC_QUEUE_SIZE → enqueue_event q ev dc = (EM_ERR_QUEUE_FULL, q).
Proof. intros Heq. unfold enqueue_event. rewrite Heq, Z.leb_refl. done. Qed.

Lemma dequeue_event_empty q :
  q_count q = 0 → dequeue_event q = (EM_ERR_QUEUE_EMPTY, q, None).
Proof. intros Heq. unfold dequeue_event. rewrite Heq. done. Qed.

(** C6: on a well-formed ring, [enqueue_event] fails, with
    [EM_ERR_QUEUE_FULL], exactly when [count] is the capacity, and then
    changes nothing; otherwise it leaves every populated node as it was and
    appends the new entry behind the queued ones. [dequeue_event] fails, with
    [EM_ERR_QUEUE_EMPTY], exactly when [count] is 0; otherwise it returns the
    oldest entry and keeps the others in order. Both keep the ring
    well-formed, so entries leave a queue in the order they entered it. *)
Theorem queue_ring_fifo (q : em_priority_queue_t) (ev : em_event_t) (dc : Z) :
  wf_queue q →
  (fst (enqueue_event q ev dc) = EM_ERR_QUEUE_FULL ↔
   q_count q = EM_ASYNC_QUEUE_SIZE) ∧
  (q_count q = EM_ASYNC_QUEUE_SIZE →
   enqueue_event q ev dc = (EM_ERR_QUEUE_FULL, q)) ∧
  (q_count q ≠ EM_ASYNC_QUEUE_SIZE →
   ∃ q', enqueue_event q ev dc = (EM_OK, q') ∧ wf_queue q' ∧
         (∀ k, (k < Z.to_nat (q_count q))%nat →
               q_nodes q' !!! ring_index q k = q_nodes q !!! ring_index q k) ∧
         queue_contents q' = queue_contents q ++ [(ev, dc)]) ∧
  (fst (fst (dequeue_event q)) = EM_ERR_QUEUE_EMPTY ↔ q_count q = 0) ∧
  (q_count q = 0 → dequeue_event q = (EM_ERR_QUEUE_EMPTY, q, None)) ∧
  (q_count q ≠ 0 →
   ∃ q' x, dequeue_event q = (EM_OK, q', Some x) ∧ wf_queue q' ∧
           queue_contents q = x :: queue_contents q').
Proof.
  intros Hwf.
  assert (Hfull : q_count q = EM_ASYNC_QUEUE_SIZE →
                  enqueue_event q ev dc = (EM_ERR_QUEUE_FULL, q)).
  { intros Heq. unfold enqueue_event. rewrite Heq, Z.leb_refl. done. }
  assert (Hempty : q_count q = 0 → dequeue_event q = (EM_ERR_QUEUE_EMPTY, q, None)).
  { intros Heq. unfold dequeue_event. rewrite Heq. done. }
  repeat split.
  - intros Hres. destruct (decide (q_count q = EM_ASYNC_QUEUE_SIZE)) as [|Hne]; [done|].
    destruct (enqueue_event_ok q ev dc Hwf Hne) as (q' & Heq & _).
    rewrite Heq in Hres. discriminate.
  - intros Heq. by rewrite Hfull.
  - done.
  - intros Hne. destruct (enqueue_event_ok q ev dc Hwf Hne) as (q' & Heq & ? & ? & ?).
    eauto 10.
  - intros Hres. destruct (decide (q_count q = 0)) as [|Hne]; [done|].
    destruct (dequeue_event_ok q Hwf Hne) as (q' & x & Heq & _).
    rewrite Heq in Hres. discriminate.
  - intros Heq. by rewrite Hempty.
  - done.
  - intros Hne. by apply dequeue_event_ok.
Qed.

Lemma queue_ring_fifo_witness :
  let q := mk_queue (replicate 32 zero_node) 0 0 0 in
  ∃ q', enqueue_event q zero_event 7 = (EM_OK, q') ∧
        queue_contents q' = [(zero_event, 7)] ∧
        dequeue_event q = (EM_ERR_QUEUE_EMPTY, q, None).
Proof.
  intros q.
  assert (Hwf : wf_queue q).
  { unfold wf_queue, q, EM_ASYNC_QUEUE_SIZE. cbn. repeat split; lia. }
  destruct (queue_ring_fifo q zero_event 7 Hwf) as (_ & _ & Henq & _ & Hdeq & _).
  destruct Henq as (q' & Heq & _ & _ & Hc); [unfold q, EM_ASYNC_QUEUE_SIZE; cbn; lia|].
  exists q'. split; [exact Heq|]. split; [exact Hc|].
  apply Hdeq. reflexivity.
Defined.

(** ** Well-formedness is kept by every call *)

Lemma list_insert_lookup_total_id {A} `{Inhabited A} (l : list A) (i : nat) :
  <[i := l !!! i]> l = l.
Proof. apply list_insert_id'. intros Hi. by apply list_lookup_lookup_total_lt. Qed.

Lemma u32_is_u32 z : is_u32 (u32 z).
Proof. unfold is_u32, u32. pose proof (Z.mod_pos_bound z (2 ^ 32)). lia. Qed.

Lemma u32_small z : is_u32 z → u32 z = z.
Proof. unfold is_u32, u32. intros. apply Z.mod_small. lia. Qed.

Lemma length_sort_insert temp k subs :
  length (sort_insert temp k subs) = length subs.
Proof.
  revert subs. induction k as [|k IH]; intros subs; cbn.
  - by rewrite length_insert.
  - case_match; [rewrite IH|]; by rewrite length_insert.
Qed.

Lemma length_sort_loop subs lo n : length (sort_loop subs lo n) = length subs.
Proof.
  revert subs lo. induction n as [|n IH]; intros subs lo; cbn; [done|].
  case_match; rewrite IH; [done|]. apply length_sort_insert.
Qed.

Lemma length_sort_subscribers l :
  length (subscribers (sort_subscribers l)) = length (subscribers l).
Proof.
  unfold sort_subscribers. case_match; [done|]. cbn. apply length_sort_loop.
Qed.

Lemma length_unsubscribe_slots subs total lo n :
  length (fst (unsubscribe_slots subs total lo n)) = length subs.
Proof.
  revert subs total lo. induction n as [|n IH]; intros subs total lo; cbn; [done|].
  case_match; rewrite IH; [|done]. by rewrite length_insert.
Qed.

Lemma is_u32_unsubscribe_slots subs total lo n :
  is_u32 total → is_u32 (snd (unsubscribe_slots subs total lo n)).
Proof.
  revert subs total lo. induction n as [|n IH]; intros subs total lo Ht; cbn; [done|].
  case_match; apply IH; [apply u32_is_u32 | done].
Qed.

Lemma wf_set_event_subscribers m i l :
  wf_manager m → length (subscribers l) = Z.to_nat EM_MAX_SUBSCRIBERS →
  wf_manager (set_event_subscribers m i l).
Proof.
  intros (? & ? & ? & ? & ?) Hl. unfold wf_manager; cbn.
  rewrite length_insert. split_and!; try done. by apply Forall_insert.
Qed.

Lemma wf_set_async_queue m i q :
  wf_manager m → wf_queue q → wf_manager (set_async_queue m i q).
Proof.
  intros (? & ? & ? & ? & ?) Hq. unfold wf_manager; cbn.
  rewrite length_insert. split_and!; try done. by apply Forall_insert.
Qed.

Lemma wf_set_stats m st : wf_manager m → wf_stats st → wf_manager (set_stats m st).
Proof. intros (? & ? & ? & ? & ?) Hst. by unfold wf_manager. Qed.

Lemma wf_lookup_subscribers m (event_id : N) :
  wf_manager m → (event_id < EM_MAX_EVENT_TYPES)%N →
  length (subscribers (event_subscribers m !!! N.to_nat event_id))
  = Z.to_nat EM_MAX_SUBSCRIBERS.
Proof.
  intros (Hlen & Hall & _) Hlt.
  apply (Forall_lookup_total_1 _ _ (N.to_nat event_id)) in Hall; [done|]. lia.
Qed.

Lemma wf_lookup_queue m (i : nat) :
  wf_manager m → (i < N.to_nat EM_PRIORITY_COUNT)%nat → wf_queue (async_queues m !!! i).
Proof.
  intros (_ & _ & Hlen & Hall & _) Hlt.
  apply (Forall_lookup_total_1 _ _ i) in Hall; [done|]. lia.
Qed.

Lemma wf_em_create : ∃ m, em_create true = Some m ∧ wf_manager m.
Proof.
  eexists. split; [reflexivity|]. unfold wf_manager; cbn [event_subscribers async_queues stats].
  rewrite !length_replicate. split_and!; try done.
  - apply Forall_replicate. cbn. by rewrite length_replicate.
  - apply Forall_replicate. unfold wf_queue; cbn -[replicate].
    rewrite length_replicate. unfold EM_ASYNC_QUEUE_SIZE. repeat split; lia.
Qed.

Lemma wf_em_subscribe m event_id callback user_data priority :
  wf_manager m →
  ∃ m', snd (em_subscribe (Some m) event_id callback user_data priority) = Some m' ∧
        wf_manager m'.
Proof.
  intros Hwf. unfold em_subscribe.
  repeat (case_match; try by (eexists; split; [reflexivity|done])).
  eexists; split; [reflexivity|]. cbn [snd].
  apply wf_set_stats.
  - apply wf_set_event_subscribers; [done|]. cbn. rewrite length_insert.
    apply wf_lookup_subscribers; [done|]. by apply N.leb_gt.
  - destruct Hwf as (_ & _ & _ & _ & (? & ? & ? & ? & ?)).
    unfold wf_stats; cbn. auto using u32_is_u32.
Qed.

Lemma wf_em_unsubscribe m event_id callback :
  wf_manager m →
  ∃ m', snd (em_unsubscribe (Some m) event_id callback) = Some m' ∧ wf_manager m'.
Proof.
  intros Hwf. unfold em_unsubscribe.
  repeat (case_match; try by (eexists; split; [reflexivity|done])).
  eexists; split; [reflexivity|]. cbn [snd].
  apply wf_set_stats.
  - apply wf_set_event_subscribers; [done|]. cbn. rewrite length_insert.
    apply wf_lookup_subscribers; [done|]. by apply N.leb_gt.
  - destruct Hwf as (_ & _ & _ & _ & (? & ? & ? & ? & ?)).
    unfold wf_stats; cbn. auto using u32_is_u32.
Qed.

Lemma wf_em_unsubscribe_all m event_id :
  wf_manager m →
  ∃ m', snd (em_unsubscribe_all (Some m) event_id) = Some m' ∧ wf_manager m'.
Proof.
  intros Hwf. unfold em_unsubscribe_all.
  case_match; [by eexists|].
  destruct (unsubscribe_slots _ _ _ _) as [subs' total'] eqn:Hloop.
  eexists; split; [reflexivity|]. cbn [snd].
  apply wf_set_stats.
  - apply wf_set_event_subscribers; [done|]. cbn.
    apply (f_equal fst) in Hloop. cbn in Hloop.
    rewrite <- Hloop, length_unsubscribe_slots.
    apply wf_lookup_subscribers; [done|]. by apply N.leb_gt.
  - destruct Hwf as (_ & _ & _ & _ & (? & ? & ? & ? & ?)).
    unfold wf_stats; cbn. split_and!; try done.
    apply (f_equal snd) in Hloop. cbn in Hloop. rewrite <- Hloop.
    by apply is_u32_unsubscribe_slots.
Qed.

Lemma run_callbacks_quiet calls w : run_callbacks quiet calls w = w.
Proof. revert w. induction calls as [|c calls IH]; intros w; [done|]. apply IH. Qed.

(** With quiet callbacks a dispatch ends in the state its locked part
    leaves. *)
Lemma dispatch_event_quiet m event_id data mem :
  dispatch_event quiet m event_id data mem
  = (Some (fst (dispatch_prepare m event_id data)), mem,
     snd (dispatch_prepare m event_id data)).
Proof.
  unfold dispatch_event. destruct (dispatch_prepare m event_id data) as [m' calls].
  by rewrite run_callbacks_quiet.
Qed.

Lemma dispatch_event_eq cb m event_id data mem :
  let m' := fst (dispatch_prepare m event_id data) in
  let calls := snd (dispatch_prepare m event_id data) in
  let w := run_callbacks cb calls (Some m', mem) in
  dispatch_event cb m event_id data mem = (fst w, snd w, calls).
Proof.
  unfold dispatch_event. destruct (dispatch_prepare m event_id data) as [m' calls].
  cbn [fst snd]. f_equal. apply surjective_pairing.
Qed.

Lemma wf_dispatch_prepare m event_id data :
  wf_manager m → wf_manager (fst (dispatch_prepare m event_id data)).
Proof.
  intros Hwf. unfold dispatch_prepare. case_match eqn:Hid; [done|]. cbn.
  apply N.leb_gt in Hid.
  apply wf_set_stats.
  - apply wf_set_event_subscribers; [done|].
    case_match; [rewrite length_sort_subscribers|]; by apply wf_lookup_subscribers.
  - destruct Hwf as (_ & _ & _ & _ & (? & ? & ? & ? & ?)).
    unfold wf_stats; cbn. auto using u32_is_u32.
Qed.

Lemma wf_em_publish_sync m event_id data mem :
  wf_manager m →
  ∃ m', (em_publish_sync quiet (Some m) event_id data mem).1.1.2 = Some m' ∧
        wf_manager m'.
Proof.
  intros Hwf. unfold em_publish_sync. case_match; [by eexists|].
  rewrite dispatch_event_quiet.
  eexists; split; [reflexivity|].
  apply wf_dispatch_prepare, wf_set_stats; [done|].
  destruct Hwf as (_ & _ & _ & _ & (? & ? & ? & ? & ?)).
  unfold wf_stats; cbn. auto using u32_is_u32.
Qed.

Lemma is_u32_sum_counts queues total lo n :
  is_u32 total → is_u32 (sum_counts queues total lo n).
Proof.
  revert total lo. induction n as [|n IH]; intros total lo Ht; cbn; [done|].
  apply IH, u32_is_u32.
Qed.

Lemma is_u32_queue_total m : is_u32 (queue_total m).
Proof. apply is_u32_sum_counts. unfold is_u32. lia. Qed.

Lemma queue_total_count_sum m : wf_manager m → queue_total m = count_sum m.
Proof.
  intros Hwf.
  pose proof (wf_lookup_queue m 0 Hwf ltac:(unfold EM_PRIORITY_COUNT; lia)) as (_ & _ & H0 & _).
  pose proof (wf_lookup_queue m 1 Hwf ltac:(unfold EM_PRIORITY_COUNT; lia)) as (_ & _ & H1 & _).
  pose proof (wf_lookup_queue m 2 Hwf ltac:(unfold EM_PRIORITY_COUNT; lia)) as (_ & _ & H2 & _).
  unfold queue_total, count_sum.
  change (N.to_nat EM_PRIORITY_COUNT) with 3%nat.
  change (N.to_nat EM_PRIORITY_HIGH) with 0%nat.
  change (N.to_nat EM_PRIORITY_NORMAL) with 1%nat.
  change (N.to_nat EM_PRIORITY_LOW) with 2%nat.
  cbn [sum_counts]. unfold EM_ASYNC_QUEUE_SIZE in *.
  set (c0 := q_count (async_queues m !!! 0%nat)) in *.
  set (c1 := q_count (async_queues m !!! 1%nat)) in *.
  set (c2 := q_count (async_queues m !!! 2%nat)) in *.
  unfold u32. rewrite (Z.mod_small (0 + c0)) by lia.
  rewrite (Z.mod_small (0 + c0 + c1)) by lia.
  rewrite Z.mod_small by lia. lia.
Qed.

Lemma wf_publish_async_enqueue m event_id data data_size priority data_copy mem :
  wf_manager m → (priority < EM_PRIORITY_COUNT)%N →
  ∃ m', snd (fst (publish_async_enqueue m event_id data data_size priority
                    data_copy mem)) = Some m' ∧ wf_manager m'.
Proof.
  intros Hwf Hp. unfold publish_async_enqueue.
  set (q := async_queues m !!! N.to_nat priority).
  set (ev := mk_event _ _ _ _ _).
  assert (Hq : wf_queue q) by (apply wf_lookup_queue; [done|lia]).
  destruct (decide (q_count q = EM_ASYNC_QUEUE_SIZE)) as [Hfull|Hne].
  - rewrite (enqueue_event_full q ev data_copy Hfull). eexists; split; [reflexivity|].
    by apply wf_set_async_queue.
  - destruct (enqueue_event_ok q ev data_copy Hq Hne) as (q' & -> & Hq' & _).
    eexists; split; [reflexivity|].
    apply wf_set_stats; [by apply wf_set_async_queue|].
    destruct Hwf as (_ & _ & _ & _ & (? & ? & ? & ? & ?)).
    unfold wf_stats; cbn -[queue_total].
    split_and!; auto using u32_is_u32, is_u32_queue_total.
    case_match; auto using is_u32_queue_total.
Qed.

Lemma wf_em_publish_async malloc_ret m event_id data data_size priority mem :
  wf_manager m →
  ∃ m', snd (fst (em_publish_async malloc_ret (Some m) event_id data data_size
                    priority mem)) = Some m' ∧ wf_manager m'.
Proof.
  intros Hwf. unfold em_publish_async.
  case_match; [by eexists|]. case_match eqn:Hp; [by eexists|].
  apply N.leb_gt in Hp.
  case_match; [|by apply wf_publish_async_enqueue].
  destruct (malloc _ _ _) as [data_copy mem1].
  case_match; [by eexists|]. by apply wf_publish_async_enqueue.
Qed.

(** What the locked scan of [em_process_one] returns. *)
Lemma process_scan_empty m lo n :
  (∀ p, (lo ≤ p < lo + n)%nat → q_count (async_queues m !!! p) ≤ 0) →
  process_scan m lo n = (EM_ERR_QUEUE_EMPTY, m, None).
Proof.
  revert lo. induction n as [|n IH]; intros lo Hall; cbn; [done|].
  destruct (Z.ltb_spec 0 (q_count (async_queues m !!! lo))) as [Hpos|_].
  - specialize (Hall lo). lia.
  - apply IH. intros p Hp. apply Hall. lia.
Qed.

Lemma process_scan_first m lo n p q' x :
  (lo ≤ p < lo + n)%nat →
  (∀ p', (lo ≤ p' < p)%nat → q_count (async_queues m !!! p') ≤ 0) →
  0 < q_count (async_queues m !!! p) →
  dequeue_event (async_queues m !!! p) = (EM_OK, q', Some x) →
  process_scan m lo n =
    (EM_OK,
     set_stats (set_async_queue m p q')
       (mk_stats (events_published (stats m)) (events_processed (stats m))
          (queue_total (set_async_queue m p q')) (async_queue_max (stats m))
          (subscribers_total (stats m))),
     Some x).
Proof.
  revert lo. induction n as [|n IH]; intros lo Hp Hbefore Hpos Hdeq; [lia|].
  cbn [process_scan].
  destruct (decide (lo = p)) as [->|Hne].
  - destruct (Z.ltb_spec 0 (q_count (async_queues m !!! p))) as [_|?]; [|lia].
    by rewrite Hdeq.
  - destruct (Z.ltb_spec 0 (q_count (async_queues m !!! lo))) as [Hlo|_].
    + specialize (Hbefore lo). lia.
    + apply IH; [lia| |done|done]. intros p' Hp'. apply Hbefore. lia.
Qed.

(** Either every queue is empty or some priority is the first non-empty one. *)
Lemma first_nonempty m (n : nat) :
  (∀ p, (p < n)%nat → q_count (async_queues m !!! p) ≤ 0) ∨
  (∃ p, (p < n)%nat ∧ 0 < q_count (async_queues m !!! p) ∧
        ∀ p', (p' < p)%nat → q_count (async_queues m !!! p') ≤ 0).
Proof.
  induction n as [|n [IH|IH]].
  - left. lia.
  - destruct (Z.ltb_spec 0 (q_count (async_queues m !!! n))) as [Hpos|Hle].
    + right. exists n. split_and!; [lia|done|done].
    + left. intros p Hp. destruct (decide (p = n)) as [->|]; [done|]. apply IH. lia.
  - right. destruct IH as (p & ? & ? & ?). exists p. split_and!; [lia|done|done].
Qed.

Lemma wf_process_scan m :
  wf_manager m →
  wf_manager (snd (fst (process_scan m 0 (N.to_nat EM_PRIORITY_COUNT)))).
Proof.
  intros Hwf.
  destruct (first_nonempty m (N.to_nat EM_PRIORITY_COUNT)) as [Hall|(p & Hp & Hpos & Hfirst)].
  - rewrite process_scan_empty; [done|]. intros p Hp. apply Hall. lia.
  - pose proof (wf_lookup_queue m p Hwf Hp) as Hq.
    destruct (dequeue_event_ok _ Hq) as (q' & x & Hdeq & Hq' & _); [lia|].
    rewrite (process_scan_first m 0 _ p q' x); [|lia|intros; apply Hfirst; lia|done|done].
    cbn [fst snd]. apply wf_set_stats; [by apply wf_set_async_queue|].
    destruct Hwf as (_ & _ & _ & _ & (? & ? & ? & ? & ?)).
    unfold wf_stats; cbn -[queue_total]. split_and!; auto using is_u32_queue_total.
Qed.

Lemma wf_em_process_one m mem :
  wf_manager m →
  ∃ m', (em_process_one quiet (Some m) mem).1.1.2 = Some m' ∧ wf_manager m'.
Proof.
  intros Hwf. unfold em_process_one.
  pose proof (wf_process_scan m Hwf) as Hscan.
  destruct (process_scan m 0 _) as [[result m1] out]. cbn in Hscan.
  destruct result, out as [[event data_copy]|]; try by (eexists; split; [reflexivity|done]).
  rewrite dispatch_event_quiet.
  pose proof (wf_dispatch_prepare m1 (ev_id event) (ev_data event) Hscan) as Hd.
  by eexists.
Qed.

Lemma length_clear_nodes nodes mem lo n :
  length (fst (clear_nodes nodes mem lo n)) = length nodes.
Proof.
  revert nodes mem lo. induction n as [|n IH]; intros nodes mem lo; cbn; [done|].
  by rewrite IH, length_insert.
Qed.

(** After the clearing loops the queues [lo', ...] below [lo] are empty and
    the others are as before. *)
Lemma clear_queues_spec queues mem lo n :
  Forall wf_queue queues →
  Forall wf_queue (fst (clear_queues queues mem lo n)) ∧
  length (fst (clear_queues queues mem lo n)) = length queues ∧
  ∀ i, q_count (fst (clear_queues queues mem lo n) !!! i) =
       if decide (lo ≤ i < lo + n ∧ i < length queues)%nat then 0
       else q_count (queues !!! i).
Proof.
  revert queues mem lo. induction n as [|n IH]; intros queues mem lo Hwf; cbn.
  - split_and!; [done..|]. intros i. case_decide; [lia|done].
  - destruct (clear_nodes _ _ _ _) as [nodes' mem'] eqn:Hcn.
    apply (f_equal fst) in Hcn. cbn in Hcn.
    set (queues' := <[lo := mk_queue nodes' 0 0 0]> queues).
    assert (Hwf' : Forall wf_queue queues').
    { destruct (decide (lo < length queues)%nat) as [Hlt|Hge].
      - apply Forall_insert; [done|].
        pose proof (Forall_lookup_total_1 _ _ lo Hwf Hlt) as (Hlen & _).
        unfold wf_queue; cbn. rewrite <- Hcn, length_clear_nodes.
        unfold EM_ASYNC_QUEUE_SIZE in *. split_and!; [done|lia..|done].
      - unfold queues'. rewrite list_insert_ge; [done|lia]. }
    destruct (IH queues' mem' (S lo) Hwf') as (IH1 & IH2 & IH3).
    split_and!; [done| by rewrite IH2; apply length_insert |].
    intros i. rewrite IH3. unfold queues'. rewrite length_insert.
    destruct (decide (i = lo)) as [->|Hne].
    + destruct (decide (lo < length queues)%nat).
      * rewrite list_lookup_total_insert_eq by done. cbn.
        repeat case_decide; lia.
      * rewrite list_insert_ge by lia. repeat case_decide; lia.
    + rewrite list_lookup_total_insert_ne by done. repeat case_decide; lia.
Qed.

Lemma wf_em_clear_queue m mem :
  wf_manager m →
  ∃ m', snd (fst (em_clear_queue (Some m) mem)) = Some m' ∧ wf_manager m'.
Proof.
  intros Hwf. unfold em_clear_queue.
  pose proof Hwf as (Hl1 & Hs & Hl2 & Hq & (? & ? & ? & ? & ?)).
  destruct (clear_queues_spec (async_queues m) mem 0 (N.to_nat EM_PRIORITY_COUNT) Hq)
    as (Hq' & Hlen & _).
  destruct (clear_queues _ _ _ _) as [queues' mem'].
  eexists; split; [reflexivity|]. cbn in Hq', Hlen.
  unfold wf_manager, wf_stats, is_u32 in *; cbn. split_and!; try done; try lia.
Qed.

Lemma wf_em_reset_stats m :
  wf_manager m → ∃ m', snd (em_reset_stats (Some m)) = Some m' ∧ wf_manager m'.
Proof.
  intros (? & ? & ? & ? & (? & ? & ? & ? & ?)).
  eexists; split; [reflexivity|].
  unfold wf_manager, wf_stats, is_u32 in *; cbn. split_and!; try done; try lia.
Qed.

Lemma wf_em_stop_loop m :
  wf_manager m → ∃ m', snd (em_stop_loop (Some m)) = Some m' ∧ wf_manager m'.
Proof. intros Hwf. by eexists. Qed.

(** ** Calls with callbacks, from calls without *)

(** The handle a dispatching call leaves is the one its quiet form leaves,
    after the callbacks; the returned code does not depend on them. *)
Lemma em_publish_sync_callbacks cb h event_id data mem :
  ∃ calls,
    (em_publish_sync cb h event_id data mem).1.1.2
    = (run_callbacks cb calls
         ((em_publish_sync quiet h event_id data mem).1.1.2, mem)).1.
Proof.
  destruct h as [m|]; [|by exists []]. unfold em_publish_sync.
  case_match; [by exists []|].
  rewrite dispatch_event_quiet. unfold dispatch_event.
  destruct (dispatch_prepare _ _ _) as [m' calls]. cbn [fst snd].
  exists calls.
  assert (∀ w : em_handle_t * gmap Z (list Z),
            (let '(h', mem') := w in (EM_OK, h', mem', calls)).1.1.2 = w.1) as Hw
    by (by intros []).
  apply Hw.
Qed.

Lemma em_process_one_callbacks cb h mem :
  (em_process_one cb h mem).1.1.1 = (em_process_one quiet h mem).1.1.1 ∧
  ∃ calls,
    (em_process_one cb h mem).1.1.2
    = (run_callbacks cb calls ((em_process_one quiet h mem).1.1.2, mem)).1.
Proof.
  destruct h as [m|]; [|split; [done|by exists []]]. unfold em_process_one.
  destruct (process_scan m 0 _) as [[result m1] out].
  destruct result, out as [[event data_copy]|]; try (split; [done|by exists []]).
  rewrite dispatch_event_quiet. unfold dispatch_event.
  destruct (dispatch_prepare _ _ _) as [m' calls]. cbn [fst snd].
  assert (∀ w : em_handle_t * gmap Z (list Z),
            (let '(h', mem') := w in
             (EM_OK, h', if negb (data_copy =? NULL) then free data_copy mem' else mem',
              calls)).1.1.2 = w.1) as Hw
    by (by intros []).
  split; [by destruct (run_callbacks cb calls _)|].
  exists calls. apply Hw.
Qed.

Lemma api_callbacks_quiet : api_callbacks quiet.
Proof. intros c w. apply api_reach_refl. Qed.

Lemma em_run_api_reach cb ops w w' :
  api_callbacks cb → em_run cb ops w = Some w' → api_reach w w'.
Proof.
  intros Hcb. revert w. induction ops as [|o ops IH]; intros w; cbn.
  - intros [= <-]. apply api_reach_refl.
  - destruct (em_step cb w o) as [w1|] eqn:Hstep; [|done].
    intros Hrun. eapply api_reach_call; [exact Hcb|exact Hstep|by apply IH].
Qed.

Lemma api_callbacks_calling_back : api_callbacks calling_back.
Proof.
  intros c w. unfold calling_back. case_match; [|apply api_reach_refl].
  destruct (em_run quiet _ w) as [w'|] eqn:Hrun; [|apply api_reach_refl].
  eapply em_run_api_reach; [apply api_callbacks_quiet|exact Hrun].
Qed.

(** ** Properties of the manager kept by every call

    A property of the object behind the handle that every call keeps when
    the callbacks are quiet is kept by every call whose callbacks keep it,
    hence by every call whose callbacks act through the API. *)
Section invariants.
Variable Inv : em_handle_t → Prop.
Hypothesis Inv_step : ∀ h mem o w',
  (∀ fuel, o ≠ OpProcessAll fuel) →
  Inv h → em_step quiet (h, mem) o = Some w' → Inv w'.1.

Lemma run_callbacks_inv cb calls w :
  (∀ c w, Inv w.1 → Inv (cb c w).1) → Inv w.1 → Inv (run_callbacks cb calls w).1.
Proof.
  intros Hcb. revert w. induction calls as [|c calls IH]; intros w Hw; [done|].
  cbn. apply IH, Hcb, Hw.
Qed.

Lemma em_publish_sync_inv cb h event_id data mem :
  (∀ c w, Inv w.1 → Inv (cb c w).1) → Inv h →
  Inv (em_publish_sync cb h event_id data mem).1.1.2.
Proof.
  intros Hcb Hh.
  destruct (em_publish_sync_callbacks cb h event_id data mem) as (calls & ->).
  apply run_callbacks_inv; [done|]. cbn [fst].
  pose proof (Inv_step h mem (OpPublishSync event_id data)) as Hs. cbn in Hs.
  destruct (em_publish_sync quiet h event_id data mem) as [[[r hq] memq] cq].
  by apply (Hs (hq, memq)).
Qed.

Lemma em_process_one_inv cb h mem :
  (∀ c w, Inv w.1 → Inv (cb c w).1) → Inv h → Inv (em_process_one cb h mem).1.1.2.
Proof.
  intros Hcb Hh.
  destruct (em_process_one_callbacks cb h mem) as (_ & calls & ->).
  apply run_callbacks_inv; [done|]. cbn [fst].
  pose proof (Inv_step h mem OpProcessOne) as Hs. cbn in Hs.
  destruct (em_process_one quiet h mem) as [[[r hq] memq] cq].
  by apply (Hs (hq, memq)).
Qed.

Lemma process_all_loop_inv cb fuel h mem count calls res :
  (∀ c w, Inv w.1 → Inv (cb c w).1) → Inv h →
  process_all_loop cb fuel h mem count calls = Some res → Inv res.1.1.2.
Proof.
  intros Hcb. revert h mem count calls.
  induction fuel as [|fuel IH]; intros h mem count calls Hh; [done|].
  cbn [process_all_loop].
  pose proof (em_process_one_inv cb h mem Hcb Hh) as Hone.
  destruct (em_process_one cb h mem) as [[[r h'] mem'] calls']. cbn in Hone.
  destruct r; try (intros [= <-]; exact Hone). by apply IH.
Qed.

Lemma em_step_inv cb w o w' :
  (∀ c w, Inv w.1 → Inv (cb c w).1) → Inv w.1 → em_step cb w o = Some w' → Inv w'.1.
Proof.
  intros Hcb. destruct w as [h mem]. cbn [fst]. intros Hh.
  destruct o;
    try (match goal with
         | |- em_step _ _ ?o = _ → _ =>
           exact (Inv_step h mem o w' ltac:(intros; discriminate) Hh)
         end).
  - cbn. pose proof (em_publish_sync_inv cb h event_id data mem Hcb Hh) as H.
    destruct (em_publish_sync cb h event_id data mem) as [[[r h'] mem'] calls].
    by intros [= <-].
  - cbn. pose proof (em_process_one_inv cb h mem Hcb Hh) as H.
    destruct (em_process_one cb h mem) as [[[r h'] mem'] calls].
    by intros [= <-].
  - cbn. destruct h as [m|]; cbn.
    + pose proof (process_all_loop_inv cb fuel (Some m) mem 0 [] ) as H.
      destruct (process_all_loop cb fuel (Some m) mem 0 [])
        as [[[[r h'] mem'] calls]|]; [|done].
      intros [= <-]. exact (H _ Hcb Hh eq_refl).
    + by intros [= <-].
Qed.

Lemma api_reach_inv w w' : api_reach w w' → Inv w.1 → Inv w'.1.
Proof.
  induction 1 as [w|h mem mem' w _ IH|cb w o w1 w2 _ IHcb Hstep _ IH]; [done|..].
  - exact IH.
  - intros Hw. apply IH. eapply em_step_inv; [|exact Hw|exact Hstep].
    intros c w0. apply IHcb.
Qed.

Lemma em_run_inv cb ops w w' :
  api_callbacks cb → Inv w.1 → em_run cb ops w = Some w' → Inv w'.1.
Proof.
  intros Hcb. revert w. induction ops as [|o ops IH]; intros w Hw; cbn.
  - by intros [= <-].
  - destruct (em_step cb w o) as [w1|] eqn:Hstep; [|done].
    apply IH. eapply em_step_inv; [|exact Hw|exact Hstep].
    intros c w0. apply api_reach_inv, Hcb.
Qed.
End invariants.

(** Well-formedness is such a property. *)
Lemma wf_em_step h mem o w' :
  (∀ fuel, o ≠ OpProcessAll fuel) →
  wf_world (h, mem) → em_step quiet (h, mem) o = Some w' → wf_world w'.
Proof.
  intros Hpa (m & Hh & Hwf) Hstep. cbn in Hh. subst h.
  unfold wf_world. unfold em_step in Hstep.
  destruct o; cbv beta iota in Hstep.
  - apply (inj Some) in Hstep as <-. apply wf_em_subscribe, Hwf.
  - apply (inj Some) in Hstep as <-. apply wf_em_unsubscribe, Hwf.
  - apply (inj Some) in Hstep as <-. apply wf_em_unsubscribe_all, Hwf.
  - destruct (wf_em_publish_sync m event_id data mem Hwf) as (m' & Heq & Hwf').
    destruct (em_publish_sync _ _ _ _ _) as [[[r h'] mem'] calls].
    apply (inj Some) in Hstep as <-. by exists m'.
  - destruct (wf_em_publish_async malloc_ret m event_id data data_size
                priority mem Hwf) as (m' & Heq & Hwf').
    destruct (em_publish_async _ _ _ _ _ _ _) as [[r h'] mem'].
    apply (inj Some) in Hstep as <-. by exists m'.
  - destruct (wf_em_process_one m mem Hwf) as (m' & Heq & Hwf').
    destruct (em_process_one _ _ _) as [[[r h'] mem'] calls].
    apply (inj Some) in Hstep as <-. by exists m'.
  - by destruct (Hpa fuel).
  - apply (inj Some) in Hstep as <-. apply wf_em_stop_loop, Hwf.
  - apply (inj Some) in Hstep as <-. apply wf_em_reset_stats, Hwf.
  - destruct (wf_em_clear_queue m mem Hwf) as (m' & Heq & Hwf').
    destruct (em_clear_queue _ _) as [[r h'] mem'].
    apply (inj Some) in Hstep as <-. by exists m'.
Qed.

Lemma wf_em_run cb ops w w' :
  api_callbacks cb → wf_world w → em_run cb ops w = Some w' → wf_world w'.
Proof.
  intros Hcb Hw Hrun.
  pose proof (em_run_inv (fun h => ∃ m, h = Some m ∧ wf_manager m)) as H.
  apply (H (fun h mem o w' Hpa Hh => wf_em_step h mem o w' Hpa Hh) cb ops w w' Hcb Hw Hrun).
Qed.

Lemma reachable_wf m : reachable m → wf_manager m.
Proof.
  intros (cb & ops & mem & Hcb & Hrun).
  assert (Hw : wf_world (Some m, mem)).
  { eapply wf_em_run; [exact Hcb| |exact Hrun].
    destruct wf_em_create as (m0 & Hm0 & Hwf0). by exists m0. }
  destruct Hw as (m' & Heq & Hwf'). cbn in Heq. by simplify_eq.
Qed.


(** ** The queue statistics *)

Lemma count_sum_set_async_queue m (p : nat) q' :
  wf_manager m → (p < N.to_nat EM_PRIORITY_COUNT)%nat →
  count_sum (set_async_queue m p q') =
  count_sum m - q_count (async_queues m !!! p) + q_count q'.
Proof.
  intros (_ & _ & Hlen & _) Hp. unfold count_sum, set_async_queue.
  cbn [async_queues].
  change (N.to_nat EM_PRIORITY_COUNT) with 3%nat in *.
  change (N.to_nat EM_PRIORITY_HIGH) with 0%nat.
  change (N.to_nat EM_PRIORITY_NORMAL) with 1%nat.
  change (N.to_nat EM_PRIORITY_LOW) with 2%nat.
  destruct p as [|[|[|p]]]; [| | |lia];
    rewrite list_lookup_total_insert_eq, !list_lookup_total_insert_ne by lia; lia.
Qed.

(** How a call relates the queue counts and the two queue statistics
    before and after it. *)
Lemma queue_stats_em_subscribe m event_id callback user_data priority m' :
  snd (em_subscribe (Some m) event_id callback user_data priority) = Some m' →
  async_queues m' = async_queues m ∧
  async_queue_current (stats m') = async_queue_current (stats m) ∧
  async_queue_max (stats m') = async_queue_max (stats m).
Proof.
  unfold em_subscribe. repeat case_match; cbn; intros; by simplify_eq.
Qed.

Lemma queue_stats_em_unsubscribe m event_id callback m' :
  snd (em_unsubscribe (Some m) event_id callback) = Some m' →
  async_queues m' = async_queues m ∧
  async_queue_current (stats m') = async_queue_current (stats m) ∧
  async_queue_max (stats m') = async_queue_max (stats m).
Proof.
  unfold em_unsubscribe. repeat case_match; cbn; intros; by simplify_eq.
Qed.

Lemma queue_stats_em_unsubscribe_all m event_id m' :
  snd (em_unsubscribe_all (Some m) event_id) = Some m' →
  async_queues m' = async_queues m ∧
  async_queue_current (stats m') = async_queue_current (stats m) ∧
  async_queue_max (stats m') = async_queue_max (stats m).
Proof.
  unfold em_unsubscribe_all. repeat case_match; cbn; intros; by simplify_eq.
Qed.

Lemma queue_stats_dispatch_prepare m event_id data :
  let m' := fst (dispatch_prepare m event_id data) in
  async_queues m' = async_queues m ∧
  async_queue_current (stats m') = async_queue_current (stats m) ∧
  async_queue_max (stats m') = async_queue_max (stats m).
Proof. unfold dispatch_prepare. by case_match. Qed.

Lemma queue_stats_em_publish_sync m event_id data mem m' :
  (em_publish_sync quiet (Some m) event_id data mem).1.1.2 = Some m' →
  async_queues m' = async_queues m ∧
  async_queue_current (stats m') = async_queue_current (stats m) ∧
  async_queue_max (stats m') = async_queue_max (stats m).
Proof.
  unfold em_publish_sync. case_match; [cbn; intros; by simplify_eq|].
  rewrite dispatch_event_quiet.
  pose proof (queue_stats_dispatch_prepare
                (set_stats m (mk_stats (u32 (events_published (stats m) + 1))
                   (events_processed (stats m)) (async_queue_current (stats m))
                   (async_queue_max (stats m)) (subscribers_total (stats m))))
                event_id data) as Hd.
  destruct (dispatch_prepare _ _ _) as [m2 calls]. cbn in *. intros; by simplify_eq.
Qed.

(** The two outcomes of the enqueue step of [em_publish_async]. *)
Lemma publish_async_enqueue_failure m event_id data data_size priority data_copy
    mem result handle' mem' :
  publish_async_enqueue m event_id data data_size priority data_copy mem
    = (result, handle', mem') →
  (result = EM_OK ∧
   q_count (async_queues m !!! N.to_nat priority) < EM_ASYNC_QUEUE_SIZE) ∨
  (result = EM_ERR_QUEUE_FULL ∧
   EM_ASYNC_QUEUE_SIZE ≤ q_count (async_queues m !!! N.to_nat priority) ∧
   handle' = Some m ∧
   mem' = if negb (data_copy =? NULL) then free data_copy mem else mem).
Proof.
  unfold publish_async_enqueue, enqueue_event.
  destruct (Z.leb_spec EM_ASYNC_QUEUE_SIZE
              (q_count (async_queues m !!! N.to_nat priority))) as [Hfull|Hroom].
  - intros [= <- <- <-]. right. split_and!; try done.
    unfold set_async_queue. rewrite list_insert_lookup_total_id. by destruct m.
  - intros [= <- <- <-]. by left.
Qed.

Lemma publish_async_enqueue_ok m event_id data data_size priority data_copy mem :
  wf_manager m → (priority < EM_PRIORITY_COUNT)%N →
  q_count (async_queues m !!! N.to_nat priority) < EM_ASYNC_QUEUE_SIZE →
  let event :=
    mk_event event_id (if negb (data_copy =? NULL) then data_copy else data)
             data_size priority EM_MODE_ASYNC in
  ∃ q', enqueue_event (async_queues m !!! N.to_nat priority) event data_copy
          = (EM_OK, q') ∧
        wf_queue q' ∧
        queue_contents q'
        = queue_contents (async_queues m !!! N.to_nat priority) ++ [(event, data_copy)] ∧
        q_count q' = q_count (async_queues m !!! N.to_nat priority) + 1 ∧
        publish_async_enqueue m event_id data data_size priority data_copy mem
        = (EM_OK,
           Some (set_stats (set_async_queue m (N.to_nat priority) q')
                   (mk_stats (u32 (events_published (stats m) + 1))
                      (events_processed (stats m)) (count_sum m + 1)
                      (Z.max (async_queue_max (stats m)) (count_sum m + 1))
                      (subscribers_total (stats m)))),
           mem).
Proof.
  intros Hwf Hp Hroom event.
  set (q := async_queues m !!! N.to_nat priority) in *.
  assert (Hq : wf_queue q) by (apply wf_lookup_queue; [done|lia]).
  destruct (enqueue_event_ok q event data_copy Hq) as (q' & Henq & Hq' & Hcont & _);
    [lia|].
  assert (Hcount : q_count q' = q_count q + 1).
  { unfold enqueue_event in Henq. case_match; by simplify_eq. }
  exists q'. split_and!; try done.
  unfold publish_async_enqueue. fold q. fold event. rewrite Henq.
  rewrite queue_total_count_sum by (by apply wf_set_async_queue).
  rewrite count_sum_set_async_queue by (done || lia). fold q. rewrite Hcount.
  replace (count_sum m - q_count q + (q_count q + 1)) with (count_sum m + 1) by lia.
  cbn [stats set_async_queue events_published events_processed async_queue_max
       subscribers_total].
  repeat f_equal.
  destruct (Z.ltb_spec (async_queue_max (stats m)) (count_sum m + 1)); lia.
Qed.

(** A successful enqueue recomputes the gauge and raises the high-water
    mark to it; a failed one changes nothing. *)
Lemma queue_stats_publish_async_enqueue m event_id data data_size priority
    data_copy mem m' :
  wf_manager m → (priority < EM_PRIORITY_COUNT)%N →
  count_sum m = async_queue_current (stats m) →
  snd (fst (publish_async_enqueue m event_id data data_size priority data_copy mem))
    = Some m' →
  count_sum m' = async_queue_current (stats m') ∧
  (m' = m ∨ async_queue_current (stats m') ≤ async_queue_max (stats m')).
Proof.
  intros Hwf Hp Hinv. unfold publish_async_enqueue.
  set (q := async_queues m !!! N.to_nat priority).
  set (ev := mk_event _ _ _ _ _).
  assert (Hq : wf_queue q) by (apply wf_lookup_queue; [done|lia]).
  destruct (decide (q_count q = EM_ASYNC_QUEUE_SIZE)) as [Hfull|Hne].
  - rewrite (enqueue_event_full q ev data_copy Hfull). cbn. intros [= <-].
    unfold set_async_queue, q. rewrite list_insert_lookup_total_id.
    split; [by destruct m|]. left. by destruct m.
  - destruct (enqueue_event_ok q ev data_copy Hq Hne) as (q' & -> & Hq' & _).
    cbn -[queue_total]. intros [= <-]. cbn -[queue_total].
    rewrite queue_total_count_sum by (by apply wf_set_async_queue).
    split; [done|]. right. case_match eqn:Hlt; [lia|]. by apply Z.ltb_ge in Hlt.
Qed.

Lemma queue_stats_em_publish_async malloc_ret m event_id data data_size priority
    mem m' :
  wf_manager m → count_sum m = async_queue_current (stats m) →
  snd (fst (em_publish_async malloc_ret (Some m) event_id data data_size priority mem))
    = Some m' →
  count_sum m' = async_queue_current (stats m') ∧
  (m' = m ∨ async_queue_current (stats m') ≤ async_queue_max (stats m')).
Proof.
  intros Hwf Hinv. unfold em_publish_async.
  case_match; [cbn; intros; by simplify_eq; auto|].
  case_match eqn:Hp; [cbn; intros; by simplify_eq; auto|].
  apply N.leb_gt in Hp.
  case_match; [|by apply queue_stats_publish_async_enqueue].
  destruct (malloc _ _ _) as [data_copy mem1].
  case_match; [cbn; intros; by simplify_eq; auto|].
  by apply queue_stats_publish_async_enqueue.
Qed.

(** [em_process_one] recomputes the gauge, which does not grow, and keeps
    the high-water mark. *)
Lemma queue_stats_em_process_one m mem m' :
  wf_manager m → count_sum m = async_queue_current (stats m) →
  (em_process_one quiet (Some m) mem).1.1.2 = Some m' →
  count_sum m' = async_queue_current (stats m') ∧
  async_queue_current (stats m') ≤ async_queue_current (stats m) ∧
  async_queue_max (stats m') = async_queue_max (stats m).
Proof.
  intros Hwf Hinv. unfold em_process_one.
  destruct (first_nonempty m (N.to_nat EM_PRIORITY_COUNT))
    as [Hall|(p & Hp & Hpos & Hfirst)].
  - rewrite process_scan_empty; [|intros p Hp; apply Hall; lia].
    cbn. intros [= <-]. split; [done|]. split; [lia|done].
  - pose proof (wf_lookup_queue m p Hwf Hp) as Hq.
    destruct (dequeue_event_ok _ Hq) as (q' & [ev dc] & Hdeq & Hq' & _); [lia|].
    rewrite (process_scan_first m 0 _ p q' (ev, dc));
      [|lia|intros; apply Hfirst; lia|done|done].
    rewrite dispatch_event_quiet.
    set (m1 := set_stats _ _).
    pose proof (queue_stats_dispatch_prepare m1 (ev_id ev) (ev_data ev)) as (Hd1 & Hd2 & Hd3).
    destruct (dispatch_prepare _ _ _) as [m2 calls]. cbn [fst snd] in *.
    intros [= <-]. unfold count_sum in *. rewrite Hd1, Hd2, Hd3.
    fold (count_sum m1). unfold m1; cbn -[queue_total].
    rewrite queue_total_count_sum by (by apply wf_set_async_queue).
    split; [done|]. fold (count_sum m) in Hinv.
    rewrite count_sum_set_async_queue by done.
    assert (q_count q' = q_count (async_queues m !!! p) - 1); [|split; [lia|done]].
    unfold dequeue_event in Hdeq. case_match; by simplify_eq.
Qed.

Lemma queue_stats_em_clear_queue m mem m' :
  wf_manager m →
  snd (fst (em_clear_queue (Some m) mem)) = Some m' →
  count_sum m' = async_queue_current (stats m') ∧
  async_queue_current (stats m') ≤ async_queue_max (stats m').
Proof.
  intros (_ & _ & Hlen & Hq & (_ & _ & _ & Hmax & _)). unfold em_clear_queue.
  destruct (clear_queues_spec (async_queues m) mem 0 (N.to_nat EM_PRIORITY_COUNT) Hq)
    as (_ & _ & Hcounts).
  destruct (clear_queues _ _ _ _) as [queues' mem']. cbn [fst snd] in *.
  intros [= <-]. unfold count_sum; cbn [async_queues stats async_queue_current async_queue_max].
  rewrite !Hcounts, Hlen. unfold is_u32 in Hmax.
  change (N.to_nat EM_PRIORITY_COUNT) with 3%nat.
  change (N.to_nat EM_PRIORITY_HIGH) with 0%nat.
  change (N.to_nat EM_PRIORITY_NORMAL) with 1%nat.
  change (N.to_nat EM_PRIORITY_LOW) with 2%nat.
  repeat case_decide; lia.
Qed.

Lemma queue_stats_inv_frame m m' :
  async_queues m' = async_queues m ∧
  async_queue_current (stats m') = async_queue_current (stats m) ∧
  async_queue_max (stats m') = async_queue_max (stats m) →
  queue_stats_inv m → queue_stats_inv m'.
Proof.
  intros (Hq & Hc & Hm). unfold queue_stats_inv, count_sum. by rewrite Hq, Hc, Hm.
Qed.

(** One call with quiet callbacks keeps the manager well-formed and the
    queue statistics as they should be. *)
Lemma queue_stats_em_step h mem o w' :
  (∀ fuel, o ≠ OpProcessAll fuel) →
  (∃ m, h = Some m ∧ wf_manager m ∧ queue_stats_inv m) →
  em_step quiet (h, mem) o = Some w' →
  ∃ m', w'.1 = Some m' ∧ wf_manager m' ∧ queue_stats_inv m'.
Proof.
  intros Hpa (m & -> & Hwf & Hinv) Hstep.
  destruct (wf_em_step (Some m) mem o w' Hpa) as (m' & Hm' & Hwf');
    [by exists m|done|].
  exists m'. split; [done|]. split; [done|].
  destruct w' as [h' mem']. cbn in Hm'. subst h'.
  unfold em_step in Hstep. destruct o; cbv beta iota in Hstep.
  - apply (inj Some) in Hstep. apply pair_equal_spec in Hstep as [Hs _].
    apply queue_stats_em_subscribe in Hs. by eapply queue_stats_inv_frame.
  - apply (inj Some) in Hstep. apply pair_equal_spec in Hstep as [Hs _].
    apply queue_stats_em_unsubscribe in Hs. by eapply queue_stats_inv_frame.
  - apply (inj Some) in Hstep. apply pair_equal_spec in Hstep as [Hs _].
    apply queue_stats_em_unsubscribe_all in Hs. by eapply queue_stats_inv_frame.
  - pose proof (queue_stats_em_publish_sync m event_id data mem m') as Hs.
    destruct (em_publish_sync _ _ _ _ _) as [[[r h'] mem1] calls].
    apply (inj Some) in Hstep. apply pair_equal_spec in Hstep as [-> _].
    eapply queue_stats_inv_frame; [exact (Hs eq_refl)|done].
  - destruct Hinv as (Hsum & Hmax).
    pose proof (queue_stats_em_publish_async malloc_ret m event_id data data_size
                  priority mem m' Hwf Hsum) as Hs.
    destruct (em_publish_async _ _ _ _ _ _ _) as [[r h'] mem1].
    apply (inj Some) in Hstep. apply pair_equal_spec in Hstep as [-> _].
    destruct (Hs eq_refl) as (Hsum' & [->|Hle]); [done|]. split; [done|by right].
  - destruct Hinv as (Hsum & Hmax).
    pose proof (queue_stats_em_process_one m mem m' Hwf Hsum) as Hs.
    destruct (em_process_one _ _ _) as [[[r h'] mem1] calls].
    apply (inj Some) in Hstep. apply pair_equal_spec in Hstep as [-> _].
    destruct (Hs eq_refl) as (Hsum' & Hle & Heq). split; [done|].
    rewrite Heq. destruct Hmax; [by left|right; lia].
  - by destruct (Hpa fuel).
  - apply (inj Some) in Hstep. apply pair_equal_spec in Hstep as [Hs _]. cbn in Hs.
    apply (inj Some) in Hs. subst m'. done.
  - apply (inj Some) in Hstep. apply pair_equal_spec in Hstep as [Hs _]. cbn in Hs.
    apply (inj Some) in Hs. subst m'. destruct Hinv as (Hsum & _).
    split; [done|]. by left.
  - pose proof (queue_stats_em_clear_queue m mem m' Hwf) as Hs.
    destruct (em_clear_queue _ _) as [[r h'] mem1].
    apply (inj Some) in Hstep. apply pair_equal_spec in Hstep as [-> _].
    destruct (Hs eq_refl) as (Hsum' & Hle). split; [done|by right].
Qed.

Lemma queue_stats_em_run cb ops m mem :
  api_callbacks cb →
  em_run cb ops (em_create true, ∅) = Some (Some m, mem) →
  wf_manager m ∧ queue_stats_inv m.
Proof.
  intros Hcb Hrun.
  set (J := fun h : em_handle_t => ∃ m, h = Some m ∧ wf_manager m ∧ queue_stats_inv m).
  assert (J (Some m)) as (m' & [= <-] & ?); [|done].
  apply (em_run_inv J queue_stats_em_step cb ops (em_create true, ∅) (Some m, mem) Hcb);
    [|done].
  destruct wf_em_create as (m0 & Hm0 & Hwf0). exists m0.
  split; [done|]. split; [done|]. injection Hm0 as <-.
  split; [reflexivity|by left].
Qed.

(** C1, as the code has it: in every state a freshly created manager
    reaches, whatever its callbacks do through the API, the sum of the
    three queue counts equals [async_queue_current], and
    [async_queue_current] is at most [async_queue_max] unless
    [async_queue_max] is 0. [em_reset_stats] is what makes it 0 with events
    pending: it zeroes [async_queue_max] and keeps [async_queue_current];
    the next successful [em_publish_async] puts [async_queue_current] at
    most [async_queue_max] again. *)
Theorem queue_statistics_invariant (cb : em_callbacks) (ops : list em_op)
    (m : em_manager) (mem : gmap Z (list Z)) :
  api_callbacks cb →
  em_run cb ops (em_create true, ∅) = Some (Some m, mem) →
  count_sum m = async_queue_current (stats m) ∧
  (async_queue_max (stats m) = 0 ∨
   async_queue_current (stats m) ≤ async_queue_max (stats m)) ∧
  (∀ m', em_reset_stats (Some m) = (EM_OK, Some m') →
     async_queue_max (stats m') = 0 ∧
     async_queue_current (stats m') = async_queue_current (stats m)) ∧
  (∀ malloc_ret event_id data data_size priority m' mem',
     em_publish_async malloc_ret (Some m) event_id data data_size priority mem
       = (EM_OK, Some m', mem') →
     count_sum m' = count_sum m + 1 ∧
     async_queue_current (stats m') ≤ async_queue_max (stats m')).
Proof.
  intros Hcb Hrun.
  destruct (queue_stats_em_run cb ops m mem Hcb Hrun) as (Hwf & Hsum & Hmax).
  split; [done|]. split; [done|]. split.
  - intros m' [= <-]. done.
  - intros malloc_ret event_id data data_size priority m' mem' Hcall.
    pose proof (queue_stats_em_publish_async malloc_ret m event_id data data_size
                  priority mem m' Hwf Hsum) as Hs.
    rewrite Hcall in Hs. destruct (Hs eq_refl) as (Hsum' & Hcase).
    revert Hcall. unfold em_publish_async.
    case_match; [done|]. case_match eqn:Hp; [done|]. apply N.leb_gt in Hp.
    assert (Henq : ∀ dc mem0,
              publish_async_enqueue m event_id data data_size priority dc mem0
                = (EM_OK, Some m', mem') →
              count_sum m' = count_sum m + 1 ∧
              async_queue_current (stats m') ≤ async_queue_max (stats m')).
    { intros dc mem0 Henq.
      destruct (publish_async_enqueue_failure _ _ _ _ _ _ _ _ _ _ Henq)
        as [(_ & Hroom)|(? & _)]; [|done].
      destruct (publish_async_enqueue_ok m event_id data data_size priority dc mem0
                  Hwf Hp Hroom) as (q' & _ & _ & _ & Hcnt & Heq).
      rewrite Heq in Henq. injection Henq as <- _.
      cbn [stats set_stats async_queue_current async_queue_max].
      split; [|lia].
      change (count_sum (set_stats ?a ?b)) with (count_sum a).
      rewrite count_sum_set_async_queue by (done || lia). lia. }
    case_match.
    + destruct (malloc _ _ _) as [dc mem1]. case_match; [done|]. apply Henq.
    + apply Henq.
Qed.

Lemma queue_statistics_invariant_witness :
  let ops := [OpSubscribe 5 100 0 1; OpPublishSync 5 0; OpPublishAsync 0 0 0 0 2;
              OpProcessOne] in
  ∃ m, em_run calling_back ops (em_create true, ∅) = Some (Some m, ∅) ∧
       count_sum m = async_queue_current (stats m) ∧
       async_queue_current (stats m) = 2 ∧ async_queue_max (stats m) = 0.
Proof.
  intros ops. eexists. split; [vm_compute; reflexivity|].
  match goal with
  | |- count_sum ?m = _ ∧ _ =>
    destruct (queue_statistics_invariant calling_back ops m ∅
                api_callbacks_calling_back) as (H1 & _)
  end.
  - vm_compute. reflexivity.
  - split; [exact H1|]. split; vm_compute; reflexivity.
Defined.

(** C1 as stated fails: after an asynchronous publish and a statistics
    reset one event is pending, [async_queue_current] is 1 and
    [async_queue_max] is 0. *)
Lemma queue_statistics_reset_counterexample :
  ¬ (∀ ops m mem,
       em_run quiet ops (em_create true, ∅) = Some (Some m, mem) →
       count_sum m = async_queue_current (stats m) ∧
       async_queue_current (stats m) ≤ async_queue_max (stats m)).
Proof.
  intros Hclaim.
  assert (Hrun : ∃ m, em_run quiet [OpPublishAsync 0 0 0 0 1; OpResetStats]
                              (em_create true, ∅) = Some (Some m, ∅) ∧
                      async_queue_current (stats m) = 1 ∧
                      async_queue_max (stats m) = 0).
  { eexists. split; [vm_compute; reflexivity|]. split; vm_compute; reflexivity. }
  destruct Hrun as (m & Hrun & Hcur & Hmax).
  destruct (Hclaim _ _ _ Hrun) as (_ & Hle). lia.
Qed.

(** ** Asynchronous publish *)

(** C4: a call of [em_publish_async] that does not return [EM_OK] leaves
    the object behind the handle and the heap as they were, the copy it may
    have allocated being freed again. When the copy is needed and [malloc]
    fails the code is [EM_ERR_OUT_OF_MEMORY]; when the queue of the priority
    is full it is [EM_ERR_QUEUE_FULL]. [malloc] is assumed to return [NULL]
    or the address of a block that was not live. *)
Theorem publish_async_failure_atomic (malloc_ret : Z) (handle : em_handle_t)
    (event_id : N) (data : Z) (data_size priority : N) (mem : gmap Z (list Z))
    (result : em_error_t) (handle' : em_handle_t) (mem' : gmap Z (list Z)) :
  (malloc_ret ≠ NULL → mem !! malloc_ret = None) →
  em_publish_async malloc_ret handle event_id data data_size priority mem
    = (result, handle', mem') →
  (result ≠ EM_OK → handle' = handle ∧ mem' = mem) ∧
  (∀ m, handle = Some m →
        (event_id < EM_MAX_EVENT_TYPES)%N → (priority < EM_PRIORITY_COUNT)%N →
        let copying := data ≠ NULL ∧ (0 < data_size)%N in
        let full :=
          EM_ASYNC_QUEUE_SIZE ≤ q_count (async_queues m !!! N.to_nat priority) in
        (copying → malloc_ret = NULL → result = EM_ERR_OUT_OF_MEMORY) ∧
        (¬ (copying ∧ malloc_ret = NULL) → full → result = EM_ERR_QUEUE_FULL) ∧
        (¬ (copying ∧ malloc_ret = NULL) → ¬ full → result = EM_OK)).
Proof.
  intros Hfresh Hcall. unfold em_publish_async in Hcall.
  destruct handle as [m|]; [|injection Hcall as <- <- <-; split; [done|intros; discriminate]].
  destruct (N.leb_spec EM_MAX_EVENT_TYPES event_id) as [Hid|Hid].
  { injection Hcall as <- <- <-. split; [done|]. intros; lia. }
  destruct (N.leb_spec EM_PRIORITY_COUNT priority) as [Hp|Hp].
  { injection Hcall as <- <- <-. split; [done|]. intros; lia. }
  destruct (Z.eqb_spec data NULL) as [Hnull|Hdata]; cbn [negb andb] in Hcall.
  { apply publish_async_enqueue_failure in Hcall
      as [(-> & Hroom)|(-> & Hfull & -> & ->)]; cbn.
    - split; [done|]. intros m' [= <-] _ _. split_and!; [tauto|lia|done].
    - split; [done|]. intros m' [= <-] _ _. split_and!; [tauto|done|lia]. }
  destruct (N.ltb_spec 0 data_size) as [Hsize|Hsize].
  2:{ apply publish_async_enqueue_failure in Hcall
        as [(-> & Hroom)|(-> & Hfull & -> & ->)]; cbn.
      - split; [done|]. intros m' [= <-] _ _. split_and!; [lia|lia|done].
      - split; [done|]. intros m' [= <-] _ _. split_and!; [lia|done|lia]. }
  unfold malloc in Hcall. destruct (Z.eqb_spec malloc_ret NULL) as [Hoom|Hok].
  { cbn in Hcall. injection Hcall as <- <- <-. split; [done|].
    intros m' [= <-] _ _. split_and!; [done|tauto|tauto]. }
  destruct (Z.eqb_spec malloc_ret NULL) as [|_]; [done|].
  apply publish_async_enqueue_failure in Hcall
    as [(-> & Hroom)|(-> & Hfull & -> & ->)].
  - split; [done|]. intros m' [= <-] _ _. split_and!; [done|lia|done].
  - split.
    + intros _. split; [done|].
      destruct (Z.eqb_spec malloc_ret NULL) as [|_]; [done|]. cbn [negb].
      unfold free, memcpy. rewrite !delete_insert_eq. apply delete_id. auto.
    + intros m' [= <-] _ _. split_and!; [done|done|lia].
Qed.

Lemma publish_async_failure_atomic_witness :
  ∃ m mem,
    em_run quiet (replicate 32 (OpPublishAsync 0 0 0 0 1))
           (em_create true, {[ 5 := [1; 2; 3; 4] ]}) = Some (Some m, mem) ∧
    em_publish_async 77 (Some m) 0 5 4 1 mem = (EM_ERR_QUEUE_FULL, Some m, mem).
Proof.
  assert (Hw : ∃ m mem,
            em_run quiet (replicate 32 (OpPublishAsync 0 0 0 0 1))
                   (em_create true, {[ 5 := [1; 2; 3; 4] ]}) = Some (Some m, mem) ∧
            mem !! (77 : Z) = None ∧
            EM_ASYNC_QUEUE_SIZE ≤ q_count (async_queues m !!! 1%nat)).
  { eexists _, _. split; [vm_compute; reflexivity|].
    split; [vm_compute; reflexivity|vm_compute; discriminate]. }
  destruct Hw as (m & mem & Hw & Hfresh & Hfull). exists m, mem.
  split; [exact Hw|].
  destruct (em_publish_async 77 (Some m) 0 5 4 1 mem)
    as [[result handle'] mem'] eqn:Hcall.
  destruct (publish_async_failure_atomic 77 (Some m) 0 5 4 1 mem
              result handle' mem' (fun _ => Hfresh) Hcall) as (Hsame & Hcodes).
  destruct (Hcodes m eq_refl) as (_ & Hres & _); [reflexivity|reflexivity|].
  assert (Hr : result = EM_ERR_QUEUE_FULL).
  { apply Hres; [intros [_ ?]; discriminate|exact Hfull]. }
  subst result. destruct Hsame as [-> ->]; [discriminate|reflexivity].
Defined.

(** C10: with a [NULL] payload and a positive length, a valid event id and
    priority and room in the queue of the priority, [em_publish_async]
    returns [EM_OK] without touching the heap ([malloc] is not called) and
    puts behind the queued events a descriptor whose data pointer is [NULL],
    with a [NULL] owned copy; the descriptor keeps the length it was given. *)
Theorem publish_async_null_payload (malloc_ret : Z) (m : em_manager)
    (event_id data_size priority : N) (mem : gmap Z (list Z)) :
  wf_manager m →
  (event_id < EM_MAX_EVENT_TYPES)%N → (priority < EM_PRIORITY_COUNT)%N →
  (0 < data_size)%N →
  q_count (async_queues m !!! N.to_nat priority) < EM_ASYNC_QUEUE_SIZE →
  ∃ m',
    em_publish_async malloc_ret (Some m) event_id NULL data_size priority mem
      = (EM_OK, Some m', mem) ∧
    let q := async_queues m !!! N.to_nat priority in
    let q' := async_queues m' !!! N.to_nat priority in
    let event := mk_event event_id NULL data_size priority EM_MODE_ASYNC in
    q_nodes q' !!! Z.to_nat (q_tail q) = mk_node event NULL true ∧
    queue_contents q' = queue_contents q ++ [(event, NULL)].
Proof.
  intros Hwf Hid Hp Hsize Hroom. unfold em_publish_async.
  destruct (N.leb_spec EM_MAX_EVENT_TYPES event_id) as [?|_]; [lia|].
  destruct (N.leb_spec EM_PRIORITY_COUNT priority) as [?|_]; [lia|].
  change (negb (NULL =? NULL) && (0 <? data_size)%N) with false.
  cbv beta iota. unfold publish_async_enqueue.
  change (if negb (NULL =? NULL) then NULL else NULL) with NULL.
  set (q := async_queues m !!! N.to_nat priority) in *.
  set (event := mk_event event_id NULL data_size priority EM_MODE_ASYNC).
  assert (Hq : wf_queue q) by (apply wf_lookup_queue; [done|lia]).
  destruct (enqueue_event_ok q event NULL Hq) as (q' & Henq & Hq' & Hcont & _); [lia|].
  rewrite Henq. eexists. split; [reflexivity|].
  cbn [set_stats set_async_queue async_queues].
  destruct Hwf as (_ & _ & Hlen & _).
  rewrite list_lookup_total_insert_eq by lia.
  split; [|done].
  unfold enqueue_event in Henq. case_match; [done|]. injection Henq as <-.
  cbn [q_nodes]. apply list_lookup_total_insert_eq.
  destruct Hq as (Hn & ? & ? & Htl). rewrite Hn, Htl.
  unfold EM_ASYNC_QUEUE_SIZE.
  pose proof (Z.mod_pos_bound (q_head q + q_count q) 32). lia.
Qed.

Lemma publish_async_null_payload_witness :
  ∃ m', em_publish_async 77 (em_create true) 3 NULL 8 2 ∅ = (EM_OK, Some m', ∅) ∧
        queue_contents (async_queues m' !!! 2%nat)
        = [(mk_event 3 NULL 8 2 EM_MODE_ASYNC, NULL)].
Proof.
  assert (Hc : ∃ m, em_create true = Some m ∧ wf_manager m ∧
                    q_count (async_queues m !!! N.to_nat 2) < EM_ASYNC_QUEUE_SIZE ∧
                    queue_contents (async_queues m !!! N.to_nat 2) = []).
  { eexists. split; [reflexivity|]. split; [|split; vm_compute; reflexivity].
    apply (bool_decide_unpack _). vm_compute. exact I. }
  destruct Hc as (m & -> & Hwf & Hroom & Hempty).
  destruct (publish_async_null_payload 77 m 3 8 2 ∅ Hwf)
    as (m' & Hcall & _ & Hcont).
  - reflexivity.
  - reflexivity.
  - reflexivity.
  - exact Hroom.
  - exists m'. split; [exact Hcall|]. rewrite Hempty in Hcont. exact Hcont.
Defined.

(** ** Processing one queued event *)

(** C5: [em_process_one] looks at the queues in the order HIGH, NORMAL,
    LOW. If all three are empty it returns [EM_ERR_QUEUE_EMPTY] and changes
    nothing. Otherwise, for the first priority [p] whose queue is not empty
    (every queue before it being empty), it returns [EM_OK], takes the
    oldest entry of that queue and no other entry, sets
    [async_queue_current] to one less than the sum of the counts,
    dispatches the event taken and frees its owned copy: the callbacks of
    the dispatch start from the manager with that entry taken, and the copy
    is freed in the heap they leave. *)
Theorem process_one_priority_order (cb : em_callbacks) (m : em_manager)
    (mem : gmap Z (list Z)) :
  wf_manager m →
  ((∀ p, (p < N.to_nat EM_PRIORITY_COUNT)%nat → q_count (async_queues m !!! p) = 0) →
   em_process_one cb (Some m) mem = (EM_ERR_QUEUE_EMPTY, Some m, mem, [])) ∧
  (∀ p, (p < N.to_nat EM_PRIORITY_COUNT)%nat →
     (∀ p', (p' < p)%nat → q_count (async_queues m !!! p') = 0) →
     q_count (async_queues m !!! p) ≠ 0 →
     ∃ q' event data_copy,
       dequeue_event (async_queues m !!! p) = (EM_OK, q', Some (event, data_copy)) ∧
       queue_contents (async_queues m !!! p) = (event, data_copy) :: queue_contents q' ∧
       let m1 :=
         set_stats (set_async_queue m p q')
           (mk_stats (events_published (stats m)) (events_processed (stats m))
              (count_sum m - 1) (async_queue_max (stats m))
              (subscribers_total (stats m))) in
       let m2 := fst (dispatch_prepare m1 (ev_id event) (ev_data event)) in
       let calls := snd (dispatch_prepare m1 (ev_id event) (ev_data event)) in
       let w := run_callbacks cb calls (Some m2, mem) in
       em_process_one cb (Some m) mem
         = (EM_OK, fst w,
            if negb (data_copy =? NULL) then free data_copy (snd w) else snd w,
            calls) ∧
       async_queues m2 = <[p := q']> (async_queues m)).
Proof.
  intros Hwf. split.
  - intros Hall. unfold em_process_one.
    rewrite process_scan_empty; [done|]. intros p Hp. rewrite Hall; lia.
  - intros p Hp Hbefore Hne.
    pose proof (wf_lookup_queue m p Hwf Hp) as Hq.
    destruct (dequeue_event_ok _ Hq Hne) as (q' & [event data_copy] & Hdeq & Hq' & Hcont).
    exists q', event, data_copy. split_and!; [done|done|].
    assert (Hpos : 0 < q_count (async_queues m !!! p)).
    { destruct Hq as (_ & _ & ? & _). lia. }
    unfold em_process_one.
    rewrite (process_scan_first m 0 _ p q' (event, data_copy));
      [|lia|intros p' Hp'; rewrite Hbefore; lia|done|done].
    rewrite queue_total_count_sum by (by apply wf_set_async_queue).
    rewrite count_sum_set_async_queue by done.
    assert (Hcount : q_count q' = q_count (async_queues m !!! p) - 1).
    { unfold dequeue_event in Hdeq. case_match; by simplify_eq. }
    replace (count_sum m - q_count (async_queues m !!! p) + q_count q')
      with (count_sum m - 1) by lia.
    set (m1 := set_stats _ _).
    rewrite dispatch_event_eq.
    pose proof (queue_stats_dispatch_prepare m1 (ev_id event) (ev_data event)) as (Hd & _).
    cbv zeta. split; [done|]. by rewrite Hd.
Qed.

Lemma process_one_priority_order_witness :
  ∃ m m2 calls event q',
    em_run quiet [OpPublishAsync 0 7 0 0 2; OpPublishAsync 0 8 0 0 1;
                  OpPublishAsync 0 9 0 0 1] (em_create true, ∅) = Some (Some m, ∅) ∧
    em_process_one quiet (Some m) ∅ = (EM_OK, Some m2, ∅, calls) ∧
    ev_id event = 8%N ∧
    async_queues m2 !! 1%nat = Some q' ∧
    map (fun x => ev_id (fst x)) (queue_contents q') = [9%N].
Proof.
  assert (Hw : ∃ m,
            em_run quiet [OpPublishAsync 0 7 0 0 2; OpPublishAsync 0 8 0 0 1;
                          OpPublishAsync 0 9 0 0 1] (em_create true, ∅)
              = Some (Some m, ∅) ∧ wf_manager m ∧
            q_count (async_queues m !!! 0%nat) = 0 ∧
            q_count (async_queues m !!! 1%nat) ≠ 0 ∧
            map (fun x => (ev_id (fst x), snd x))
                (queue_contents (async_queues m !!! 1%nat))
              = [(8%N, NULL); (9%N, NULL)]).
  { eexists. split; [vm_compute; reflexivity|].
    split; [apply (bool_decide_unpack _); vm_compute; exact I|].
    split; [vm_compute; reflexivity|].
    split; [vm_compute; discriminate|].
    vm_compute; reflexivity. }
  destruct Hw as (m & Hw & Hwf & H0 & H1 & Hids).
  destruct (process_one_priority_order quiet m ∅ Hwf) as (_ & Hfirst).
  destruct (Hfirst 1%nat) as (q' & event & data_copy & Hdeq & Hcont & Hcall & Hqueues).
  - vm_compute. lia.
  - intros p' Hp'. assert (p' = 0%nat) as -> by lia. exact H0.
  - exact H1.
  - rewrite Hcont in Hids. cbn in Hids. injection Hids as Hid -> Hrest.
    rewrite run_callbacks_quiet in Hcall. cbn [fst snd negb Z.eqb NULL] in Hcall.
    exists m.
    exists (fst (dispatch_prepare
                   (set_stats (set_async_queue m 1 q')
                      (mk_stats (events_published (stats m))
                         (events_processed (stats m)) (count_sum m - 1)
                         (async_queue_max (stats m)) (subscribers_total (stats m))))
                   (ev_id event) (ev_data event))).
    eexists _, event, q'. split; [exact Hw|]. split; [exact Hcall|].
    split; [exact Hid|]. split.
    + rewrite Hqueues. apply list_lookup_insert_eq.
      destruct Hwf as (_ & _ & -> & _). vm_compute. lia.
    + apply (f_equal (map fst)) in Hrest. rewrite map_map in Hrest. exact Hrest.
Defined.

(** ** Subscribing and unsubscribing *)

Lemma scan_None {A} `{Inhabited A} (P : A → bool) arr lo n :
  scan P arr lo n = None ↔ ∀ i, (lo ≤ i < lo + n)%nat → P (arr !!! i) = false.
Proof.
  revert lo. induction n as [|n IH]; intros lo; cbn.
  - split; [lia|done].
  - destruct (P (arr !!! lo)) eqn:HP.
    + split; [done|]. intros Hall. rewrite Hall in HP; [done|lia].
    + rewrite IH. split.
      * intros Hall i Hi. destruct (decide (i = lo)) as [->|]; [done|]. apply Hall. lia.
      * intros Hall i Hi. apply Hall. lia.
Qed.

Lemma scan_Some {A} `{Inhabited A} (P : A → bool) arr lo n i :
  scan P arr lo n = Some i ↔
  (lo ≤ i < lo + n)%nat ∧ P (arr !!! i) = true ∧
  ∀ j, (lo ≤ j < i)%nat → P (arr !!! j) = false.
Proof.
  revert lo. induction n as [|n IH]; intros lo; cbn.
  - split; [done|lia].
  - destruct (P (arr !!! lo)) eqn:HP.
    + split.
      * intros [= <-]. split_and!; try done; try lia.
      * intros (Hi & HPi & Hbefore). f_equal.
        destruct (decide (lo = i)) as [|Hne]; [done|].
        rewrite Hbefore in HP; [done|lia].
    + rewrite IH. split.
      * intros (Hi & HPi & Hbefore). split; [lia|]. split; [done|].
        intros j Hj. destruct (decide (j = lo)) as [->|]; [done|]. apply Hbefore. lia.
      * intros (Hi & HPi & Hbefore). split; [|split; [done|]].
        -- destruct (decide (i = lo)) as [->|]; [congruence|lia].
        -- intros j Hj. apply Hbefore. lia.
Qed.

Lemma is_subscribed_true callback s :
  is_subscribed callback s = true ↔ sub_active s = true ∧ sub_callback s = callback.
Proof.
  unfold is_subscribed. rewrite andb_true_iff, Z.eqb_eq. done.
Qed.

(** On a table of the right length the duplicate scan finds a slot exactly
    when the callback holds an active slot. *)
Lemma scan_is_subscribed_None m event_id callback :
  wf_manager m → (event_id < EM_MAX_EVENT_TYPES)%N →
  scan (is_subscribed callback)
       (subscribers (event_subscribers m !!! N.to_nat event_id)) 0
       (Z.to_nat EM_MAX_SUBSCRIBERS) = None ↔
  ¬ has_active_slot m event_id callback.
Proof.
  intros Hwf Hid. pose proof (wf_lookup_subscribers m event_id Hwf Hid) as Hlen.
  unfold has_active_slot. rewrite scan_None, Exists_exists. split.
  - intros Hall (s & Hin & Hs). apply list_elem_of_lookup in Hin as (i & Hi).
    pose proof (lookup_lt_Some _ _ _ Hi) as Hlt.
    apply list_lookup_total_correct in Hi. subst s.
    apply is_subscribed_true in Hs. rewrite Hall in Hs; [done|lia].
  - intros Hno i Hi. destruct (is_subscribed callback _) eqn:Hs; [|done].
    exfalso. apply Hno. eexists. split; [|by apply is_subscribed_true].
    apply list_elem_of_lookup. exists i. apply list_lookup_lookup_total_lt. lia.
Qed.

Lemma u32_succ_pred t : is_u32 t → u32 (u32 (t + 1) - 1) = t.
Proof.
  intros Ht. unfold u32. rewrite Zminus_mod_idemp_l.
  replace (t + 1 - 1) with t by lia. apply Z.mod_small. unfold is_u32 in Ht. lia.
Qed.

(** [em_unsubscribe] of a callback that holds no active slot changes nothing. *)
Lemma em_unsubscribe_absent m event_id callback :
  wf_manager m → ¬ has_active_slot m event_id callback →
  snd (em_unsubscribe (Some m) event_id callback) = Some m.
Proof.
  intros Hwf Hno. unfold em_unsubscribe.
  case_match; [done|]. case_match eqn:Hid; [done|]. apply N.leb_gt in Hid.
  apply (scan_is_subscribed_None m event_id callback Hwf Hid) in Hno. by rewrite Hno.
Qed.

(** [em_unsubscribe] of a callback that holds an active slot takes one
    subscriber away. *)
Lemma em_unsubscribe_present m event_id callback :
  wf_manager m → callback ≠ NULL → (event_id < EM_MAX_EVENT_TYPES)%N →
  has_active_slot m event_id callback →
  ∃ m', em_unsubscribe (Some m) event_id callback = (EM_OK, Some m') ∧
    sl_count (event_subscribers m' !!! N.to_nat event_id)
      = sl_count (event_subscribers m !!! N.to_nat event_id) - 1 ∧
    subscribers_total (stats m') = u32 (subscribers_total (stats m) - 1).
Proof.
  intros Hwf Hc Hid Hhas. unfold em_unsubscribe.
  destruct (Z.eqb_spec callback NULL) as [|_]; [done|].
  destruct (N.leb_spec EM_MAX_EVENT_TYPES event_id) as [|_]; [lia|].
  destruct (scan _ _ _ _) as [i|] eqn:Hscan.
  - eexists. split; [reflexivity|]. cbn.
    rewrite list_lookup_total_insert_eq; [done|].
    destruct Hwf as (-> & _). lia.
  - apply (scan_is_subscribed_None m event_id callback Hwf Hid) in Hscan. done.
Qed.

(** [em_subscribe] either leaves the manager as it was or fills the first
    free slot for a callback that held none. *)
Lemma em_subscribe_cases m event_id callback user_data priority :
  wf_manager m →
  snd (em_subscribe (Some m) event_id callback user_data priority) = Some m ∨
  (callback ≠ NULL ∧ (event_id < EM_MAX_EVENT_TYPES)%N ∧
   (priority < EM_PRIORITY_COUNT)%N ∧
   ¬ has_active_slot m event_id callback ∧
   let list := event_subscribers m !!! N.to_nat event_id in
   sl_count list < EM_MAX_SUBSCRIBERS ∧
   ∃ i, scan is_free (subscribers list) 0 (Z.to_nat EM_MAX_SUBSCRIBERS) = Some i ∧
        em_subscribe (Some m) event_id callback user_data priority =
        (EM_OK,
         Some (set_stats
                 (set_event_subscribers m (N.to_nat event_id)
                    (mk_list (<[i := mk_subscriber callback user_data priority true]>
                                (subscribers list))
                             (sl_count list + 1) false))
                 (mk_stats (events_published (stats m)) (events_processed (stats m))
                    (async_queue_current (stats m)) (async_queue_max (stats m))
                    (u32 (subscribers_total (stats m) + 1)))))).
Proof.
  intros Hwf. unfold em_subscribe.
  destruct (Z.eqb_spec callback NULL) as [|Hc]; [by left|].
  destruct (N.leb_spec EM_MAX_EVENT_TYPES event_id) as [|Hid]; [by left|].
  destruct (N.leb_spec EM_PRIORITY_COUNT priority) as [|Hp]; [by left|].
  destruct (Z.leb_spec EM_MAX_SUBSCRIBERS
              (sl_count (event_subscribers m !!! N.to_nat event_id))) as [|Hcount];
    [by left|].
  destruct (scan (is_subscribed callback) _ _ _) as [j|] eqn:Hdup; [by left|].
  destruct (scan is_free _ _ _) as [i|] eqn:Hfree; [|by left].
  right. split_and!; try done.
  - by apply (scan_is_subscribed_None m event_id callback Hwf Hid).
  - by exists i.
Qed.

(** C7, as the code has it: on a well-formed manager, when the callback
    holds no active slot of the event before the calls, [em_subscribe]
    followed by [em_unsubscribe] of the same pair restores the subscriber
    count of the event and [subscribers_total]. When the callback already
    holds an active slot (and the callback and the event id are valid), the
    subscribe adds nothing and the unsubscribe removes the subscription that
    was there: both numbers end one lower. *)
Theorem subscribe_unsubscribe_restores (m : em_manager) (event_id : N)
    (callback user_data : Z) (priority : N) :
  wf_manager m →
  (¬ has_active_slot m event_id callback →
   subscriber_view (subscribe_unsubscribe (Some m) event_id callback user_data priority)
                   event_id
   = subscriber_view (Some m) event_id) ∧
  (has_active_slot m event_id callback →
   callback ≠ NULL → (event_id < EM_MAX_EVENT_TYPES)%N →
   subscriber_view (subscribe_unsubscribe (Some m) event_id callback user_data priority)
                   event_id
   = (sl_count (event_subscribers m !!! N.to_nat event_id) - 1,
      Some (u32 (subscribers_total (stats m) - 1)))).
Proof.
  intros Hwf. unfold subscribe_unsubscribe. split.
  - intros Hno.
    destruct (em_subscribe_cases m event_id callback user_data priority Hwf)
      as [->|(Hc & Hid & Hp & _ & Hcount & i & Hfree & ->)].
    { by rewrite em_unsubscribe_absent. }
    cbn [snd]. set (list := event_subscribers m !!! N.to_nat event_id) in *.
    pose proof (wf_lookup_subscribers m event_id Hwf Hid) as Hlen. fold list in Hlen.
    apply scan_Some in Hfree as (Hi & Hfree & _).
    unfold em_unsubscribe.
    destruct (Z.eqb_spec callback NULL) as [|_]; [done|].
    destruct (N.leb_spec EM_MAX_EVENT_TYPES event_id) as [|_]; [lia|].
    cbn [set_stats set_event_subscribers event_subscribers].
    pose proof Hwf as (Hlen64 & _ & _ & _ & (_ & _ & _ & _ & Htotal)).
    rewrite list_lookup_total_insert_eq by lia. cbn [subscribers].
    assert (Hscan : scan (is_subscribed callback)
              (<[i := mk_subscriber callback user_data priority true]> (subscribers list))
              0 (Z.to_nat EM_MAX_SUBSCRIBERS) = Some i).
    { apply scan_Some. split; [done|]. split.
      - rewrite list_lookup_total_insert_eq by lia.
        apply is_subscribed_true. done.
      - intros j Hj. rewrite list_lookup_total_insert_ne by lia.
        apply (scan_is_subscribed_None m event_id callback Hwf Hid) in Hno.
        rewrite scan_None in Hno. apply Hno. lia. }
    rewrite Hscan. unfold subscriber_view, em_get_subscriber_count.
    destruct (N.leb_spec EM_MAX_EVENT_TYPES event_id) as [|_]; [lia|].
    cbn. rewrite list_lookup_total_insert_eq by (rewrite length_insert; lia).
    cbn. fold list. rewrite (u32_succ_pred _ Htotal). f_equal. lia.
  - intros Hhas Hc Hid.
    destruct (em_subscribe_cases m event_id callback user_data priority Hwf)
      as [->|(_ & _ & _ & Hno & _)]; [|done].
    destruct (em_unsubscribe_present m event_id callback Hwf Hc Hid Hhas)
      as (m' & -> & Hcount & Htotal).
    unfold subscriber_view, em_get_subscriber_count.
    destruct (N.leb_spec EM_MAX_EVENT_TYPES event_id) as [|_]; [lia|].
    cbn. by rewrite Hcount, Htotal.
Qed.

Lemma subscribe_unsubscribe_restores_witness :
  ∃ m, em_run quiet [OpSubscribe 2 100 0 1; OpSubscribe 2 200 0 0] (em_create true, ∅)
         = Some (Some m, ∅) ∧
       subscriber_view (subscribe_unsubscribe (Some m) 2 300 7 2) 2 = (2, Some 2).
Proof.
  assert (Hm : ∃ m, em_run quiet [OpSubscribe 2 100 0 1; OpSubscribe 2 200 0 0]
                            (em_create true, ∅) = Some (Some m, ∅) ∧
                    wf_manager m ∧ ¬ has_active_slot m 2 300 ∧
                    subscriber_view (Some m) 2 = (2, Some 2)).
  { eexists. split; [vm_compute; reflexivity|].
    split; [apply (bool_decide_unpack _); vm_compute; exact I|].
    split; [apply (bool_decide_unpack _); vm_compute; exact I|].
    vm_compute; reflexivity. }
  destruct Hm as (m & Hrun & Hwf & Hno & Hview).
  exists m. split; [exact Hrun|].
  destruct (subscribe_unsubscribe_restores m 2 300 7 2 Hwf) as (Hrestore & _).
  rewrite (Hrestore Hno). exact Hview.
Defined.

(** C7 as stated fails: when the callback is already subscribed, the
    subscribe is a no-op and the unsubscribe removes the subscription. *)
Lemma subscribe_unsubscribe_counterexample :
  ¬ (∀ m event_id callback user_data priority,
       reachable m →
       subscriber_view
         (subscribe_unsubscribe (Some m) event_id callback user_data priority) event_id
       = subscriber_view (Some m) event_id).
Proof.
  intros Hclaim.
  assert (Hm : ∃ m, em_run quiet [OpSubscribe 0 100 0 1] (em_create true, ∅) = Some (Some m, ∅) ∧
                    subscriber_view (subscribe_unsubscribe (Some m) 0 100 0 1) 0
                      = (0, Some 0) ∧
                    subscriber_view (Some m) 0 = (1, Some 1)).
  { eexists. split; [vm_compute; reflexivity|]. split; vm_compute; reflexivity. }
  destruct Hm as (m & Hrun & Hafter & Hbefore).
  assert (Hreach : reachable m).
  { exists quiet, [OpSubscribe 0 100 0 1], ∅.
    split; [apply api_callbacks_quiet|exact Hrun]. }
  specialize (Hclaim m 0%N 100 0 1%N Hreach).
  rewrite Hafter, Hbefore in Hclaim. discriminate.
Qed.

(** A duplicate subscription below capacity is a successful no-op. *)
Lemma em_subscribe_duplicate m event_id callback user_data priority :
  wf_manager m → callback ≠ NULL → (event_id < EM_MAX_EVENT_TYPES)%N →
  (priority < EM_PRIORITY_COUNT)%N →
  sl_count (event_subscribers m !!! N.to_nat event_id) < EM_MAX_SUBSCRIBERS →
  has_active_slot m event_id callback →
  em_subscribe (Some m) event_id callback user_data priority = (EM_OK, Some m).
Proof.
  intros Hwf Hc Hid Hp Hcount Hhas. unfold em_subscribe.
  destruct (Z.eqb_spec callback NULL) as [|_]; [done|].
  destruct (N.leb_spec EM_MAX_EVENT_TYPES event_id) as [|_]; [lia|].
  destruct (N.leb_spec EM_PRIORITY_COUNT priority) as [|_]; [lia|].
  destruct (Z.leb_spec EM_MAX_SUBSCRIBERS
              (sl_count (event_subscribers m !!! N.to_nat event_id))) as [|_]; [lia|].
  destruct (scan (is_subscribed callback) _ _ _) as [j|] eqn:Hdup; [done|].
  by apply (scan_is_subscribed_None m event_id callback Hwf Hid) in Hdup.
Qed.

(** C2 at a full table: sixteen callbacks are subscribed to event 0, so
    callback 1 holds an active slot; subscribing it again returns
    [EM_ERR_MAX_SUBSCRIBERS], not [EM_OK], because the capacity test comes
    before the duplicate scan. The manager is left as it was. *)
Theorem duplicate_subscribe_full_table :
  ∃ m, em_run quiet (map (fun c => OpSubscribe 0 (Z.of_nat c) 0 1) (seq 1 16))
              (em_create true, ∅) = Some (Some m, ∅) ∧
       has_active_slot m 0 1 ∧
       em_get_subscriber_count (Some m) 0 = 16 ∧
       em_subscribe (Some m) 0 1 0 1 = (EM_ERR_MAX_SUBSCRIBERS, Some m).
Proof.
  eexists. split; [vm_compute; reflexivity|].
  split; [apply (bool_decide_unpack _); vm_compute; exact I|].
  split; vm_compute; reflexivity.
Qed.

(** The calls a synchronous publish makes are fixed before the first
    callback runs. *)
Lemma em_publish_sync_calls cb h event_id data mem :
  snd (em_publish_sync cb h event_id data mem)
  = snd (em_publish_sync quiet h event_id data mem).
Proof.
  destruct h as [m|]; [|done]. unfold em_publish_sync. case_match; [done|].
  by rewrite !dispatch_event_eq.
Qed.

(** C3 with a gap: LOW, NORMAL and HIGH subscribers take slots 0, 1 and 2 of
    event 0 and the NORMAL one unsubscribes. The insertion sort stops at
    the inactive slot 1, so the dispatch calls the LOW subscriber before
    the HIGH one, whatever the callbacks do. *)
Theorem dispatch_order_with_gap :
  ∃ m, em_run quiet [OpSubscribe 0 100 0 EM_PRIORITY_LOW;
               OpSubscribe 0 200 0 EM_PRIORITY_NORMAL;
               OpSubscribe 0 300 0 EM_PRIORITY_HIGH;
               OpUnsubscribe 0 200] (em_create true, ∅) = Some (Some m, ∅) ∧
       map sub_priority (snd (dispatch_snapshot m 0))
         = [EM_PRIORITY_LOW; EM_PRIORITY_HIGH] ∧
       ∀ cb mem,
         map call_callback (snd (em_publish_sync cb (Some m) 0 NULL mem)) = [100; 300].
Proof.
  eexists. split; [vm_compute; reflexivity|].
  split; [vm_compute; reflexivity|].
  intros cb mem. rewrite em_publish_sync_calls. vm_compute. reflexivity.
Qed.

(** ** The insertion sort on a table without gaps *)

Lemma sort_insert_app temp front l2 z rest :
  Forall (fun y => sub_active y = true ∧
                   (sub_priority temp < sub_priority y)%N) l2 →
  (∀ y, last front = Some y →
        sub_active y = false ∨ (sub_priority y ≤ sub_priority temp)%N) →
  sort_insert temp (length (front ++ l2)) (front ++ l2 ++ z :: rest)
  = front ++ temp :: l2 ++ rest.
Proof.
  intros Hl2 Hstop. revert z rest.
  induction l2 as [|y l2 IH] using rev_ind; intros z rest.
  - rewrite app_nil_r. cbn [app].
    destruct (length front) as [|j] eqn:Hlen; cbn [sort_insert].
    + apply length_zero_iff_nil in Hlen. by rewrite Hlen.
    + assert (Hlast : ∃ y, last front = Some y ∧ front !!! j = y).
      { destruct (last front) as [y|] eqn:Hl.
        - exists y. split; [done|]. rewrite last_lookup, Hlen in Hl. cbn in Hl.
          by apply list_lookup_total_correct.
        - apply last_None in Hl. rewrite Hl in Hlen. done. }
      destruct Hlast as (y & Hy & Hj).
      rewrite lookup_total_app_l by lia. rewrite Hj.
      assert (Hcond : sub_active y && (sub_priority temp <? sub_priority y)%N = false).
      { destruct (Hstop y Hy) as [->|Hle]; [done|].
        apply andb_false_iff. right. apply N.ltb_ge. done. }
      rewrite Hcond, <- Hlen.
      rewrite insert_app_r_alt by lia. by rewrite Nat.sub_diag.
  - apply Forall_app in Hl2 as (Hl2 & Hy). apply Forall_singleton in Hy as (Hact & Hlt).
    replace (length (front ++ l2 ++ [y])) with (S (length (front ++ l2)))
      by (rewrite !length_app; cbn; lia).
    cbn [sort_insert].
    replace (front ++ (l2 ++ [y]) ++ z :: rest)
      with ((front ++ l2) ++ y :: z :: rest)
      by (by rewrite <- !app_assoc).
    rewrite lookup_total_app_r by lia. rewrite Nat.sub_diag.
    cbn [lookup_total list_lookup_total].
    rewrite Hact. apply N.ltb_lt in Hlt. rewrite Hlt. cbn [andb].
    rewrite (insert_app_r_alt _ _ (S _)) by lia.
    replace (S (length (front ++ l2)) - length (front ++ l2))%nat with 1%nat by lia.
    cbn [insert list_insert].
    rewrite <- (app_assoc front l2). rewrite (IH Hl2 y (y :: rest)).
    by rewrite <- !app_assoc.
Qed.

Lemma insert_by_priority_split x l :
  StronglySorted priority_le l →
  ∃ l1 l2, l = l1 ++ l2 ∧ insert_by_priority x l = l1 ++ x :: l2 ∧
           Forall (fun y => (sub_priority y ≤ sub_priority x)%N) l1 ∧
           Forall (fun y => (sub_priority x < sub_priority y)%N) l2.
Proof.
  induction 1 as [|y l Hsorted IH Hall].
  - exists [], []. by split_and!.
  - cbn [insert_by_priority]. destruct (N.ltb_spec (sub_priority x) (sub_priority y)) as [Hlt|Hge].
    + exists [], (y :: l). split_and!; try done. constructor; [done|].
      eapply Forall_impl; [exact Hall|]. unfold priority_le. intros z Hz. cbn in Hz. lia.
    + destruct IH as (l1 & l2 & -> & -> & H1 & H2).
      exists (y :: l1), l2. split_and!; try done. by constructor.
Qed.

Lemma insert_by_priority_sorted x l :
  StronglySorted priority_le l → StronglySorted priority_le (insert_by_priority x l).
Proof.
  intros Hs. destruct (insert_by_priority_split x l Hs) as (l1 & l2 & -> & -> & H1 & H2).
  apply StronglySorted_app in Hs as (_ & Hs1 & Hs2).
  rewrite Forall_forall in H1. rewrite Forall_forall in H2.
  apply StronglySorted_app. split_and!; [|done|].
  - intros a b Ha Hb. unfold priority_le. apply elem_of_cons in Hb as [->|Hb].
    + by apply H1.
    + specialize (H1 a Ha). specialize (H2 b Hb). cbn in *. lia.
  - constructor; [done|]. apply Forall_forall. intros z Hz.
    unfold priority_le. specialize (H2 z Hz). cbn in *. lia.
Qed.

Lemma insert_by_priority_filter x l p :
  StronglySorted priority_le l →
  filter (fun s => sub_priority s = p) (insert_by_priority x l)
  = filter (fun s => sub_priority s = p) (l ++ [x]).
Proof.
  intros Hs. destruct (insert_by_priority_split x l Hs) as (l1 & l2 & -> & -> & H1 & H2).
  rewrite <- app_assoc, !filter_app, filter_cons, (filter_cons _ x []), filter_nil.
  destruct (decide (sub_priority x = p)) as [Hp|Hp]; [|by rewrite app_nil_r].
  assert (Hl2 : filter (fun s => sub_priority s = p) l2 = []).
  { clear -H2 Hp. induction H2 as [|z l2 Hz _ IH]; [done|].
    rewrite filter_cons. destruct (decide (sub_priority z = p)); [lia|done]. }
  by rewrite Hl2.
Qed.

Lemma insert_by_priority_perm x l : insert_by_priority x l ≡ₚ x :: l.
Proof.
  induction l as [|y l IH]; cbn; [done|]. case_match; [done|].
  rewrite IH. apply Permutation_swap.
Qed.

Lemma fold_insert_sorted l acc :
  StronglySorted priority_le acc →
  StronglySorted priority_le (fold_left (fun acc x => insert_by_priority x acc) l acc).
Proof.
  revert acc. induction l as [|x l IH]; intros acc Hs; cbn; [done|].
  apply IH, insert_by_priority_sorted, Hs.
Qed.

Lemma fold_insert_filter l acc p :
  StronglySorted priority_le acc →
  filter (fun s => sub_priority s = p)
         (fold_left (fun acc x => insert_by_priority x acc) l acc)
  = filter (fun s => sub_priority s = p) (acc ++ l).
Proof.
  revert acc. induction l as [|x l IH]; intros acc Hs; cbn.
  - by rewrite app_nil_r.
  - rewrite IH by (by apply insert_by_priority_sorted).
    rewrite filter_app, insert_by_priority_filter by done.
    rewrite <- filter_app, <- app_assoc. done.
Qed.

Lemma fold_insert_perm l acc :
  fold_left (fun acc x => insert_by_priority x acc) l acc ≡ₚ acc ++ l.
Proof.
  revert acc. induction l as [|x l IH]; intros acc; cbn.
  - by rewrite app_nil_r.
  - rewrite IH, insert_by_priority_perm. cbn. apply Permutation_middle.
Qed.

(** The reference sort orders by priority, keeps equal priorities in their
    original order, and neither drops nor duplicates an element. *)
Lemma sort_by_priority_sorted l : StronglySorted priority_le (sort_by_priority l).
Proof. apply fold_insert_sorted. constructor. Qed.

Lemma sort_by_priority_stable l p :
  filter (fun s => sub_priority s = p) (sort_by_priority l)
  = filter (fun s => sub_priority s = p) l.
Proof. unfold sort_by_priority. rewrite fold_insert_filter; [done|constructor]. Qed.

Lemma sort_by_priority_perm l : sort_by_priority l ≡ₚ l.
Proof. unfold sort_by_priority. by rewrite fold_insert_perm. Qed.

Lemma insert_by_priority_last x l :
  Forall (fun y => (sub_priority y ≤ sub_priority x)%N) l →
  insert_by_priority x l = l ++ [x].
Proof.
  induction 1 as [|y l Hy _ IH]; cbn; [done|].
  destruct (N.ltb_spec (sub_priority x) (sub_priority y)); [lia|]. by rewrite IH.
Qed.

Lemma fold_insert_sorted_id l acc :
  StronglySorted priority_le (acc ++ l) →
  fold_left (fun acc x => insert_by_priority x acc) l acc = acc ++ l.
Proof.
  revert acc. induction l as [|x l IH]; intros acc Hs; cbn.
  - by rewrite app_nil_r.
  - rewrite insert_by_priority_last.
    + rewrite IH; rewrite <- app_assoc; done.
    + apply Forall_forall. intros y Hy.
      apply (StronglySorted_app_1_elem_of _ _ _ y x Hs Hy). by left.
Qed.

Lemma sort_loop_skip front mid rest n :
  Forall (fun s => sub_active s = false) mid →
  sort_loop (front ++ mid ++ rest) (length front) (length mid + n)
  = sort_loop (front ++ mid ++ rest) (length (front ++ mid)) n.
Proof.
  intros Hmid. revert front. induction Hmid as [|y mid Hy _ IH]; intros front.
  - by rewrite app_nil_r.
  - cbn [length Nat.add sort_loop].
    rewrite lookup_total_app_r by lia. rewrite Nat.sub_diag.
    cbn [app lookup_total list_lookup_total]. rewrite Hy. cbn [negb].
    replace (front ++ y :: mid ++ rest) with ((front ++ [y]) ++ mid ++ rest)
      by (by rewrite <- app_assoc).
    replace (S (length front)) with (length (front ++ [y]))
      by (rewrite length_app; cbn; lia).
    rewrite IH. f_equal. rewrite !length_app. cbn. lia.
Qed.

Lemma sort_loop_run pre done todo post :
  Forall (fun s => sub_active s = false) pre →
  Forall (fun s => sub_active s = true) done →
  StronglySorted priority_le done →
  Forall (fun s => sub_active s = true) todo →
  Forall (fun s => sub_active s = false) post →
  sort_loop (pre ++ done ++ todo ++ post) (length (pre ++ done))
            (length todo + length post)
  = pre ++ fold_left (fun acc x => insert_by_priority x acc) todo done ++ post.
Proof.
  intros Hpre Hact Hdone Htodo Hpost. revert done Hact Hdone.
  induction Htodo as [|x todo Hx _ IH]; intros done Hact Hdone.
  - cbn [length Nat.add app fold_left].
    rewrite (app_assoc pre done post).
    pose proof (sort_loop_skip (pre ++ done) post [] 0 Hpost) as Hskip.
    rewrite app_nil_r, Nat.add_0_r in Hskip. rewrite Hskip. done.
  - cbn [length Nat.add sort_loop fold_left].
    rewrite (app_assoc pre done). rewrite lookup_total_app_r by lia.
    rewrite Nat.sub_diag. cbn [app lookup_total list_lookup_total].
    rewrite Hx. cbn [negb].
    destruct (insert_by_priority_split x done Hdone) as (l1 & l2 & -> & Hins & H1 & H2).
    apply Forall_app in Hact as (Hact1 & Hact2).
    replace ((pre ++ l1 ++ l2) ++ x :: todo ++ post)
      with ((pre ++ l1) ++ l2 ++ x :: todo ++ post)
      by (by rewrite <- !app_assoc).
    replace (length (pre ++ l1 ++ l2)) with (length ((pre ++ l1) ++ l2))
      by (by rewrite <- !app_assoc).
    rewrite sort_insert_app.
    + replace (S (length ((pre ++ l1) ++ l2)))
        with (length (pre ++ insert_by_priority x (l1 ++ l2)))
        by (rewrite Hins, !length_app; cbn; lia).
      rewrite <- IH.
      * rewrite Hins. by rewrite <- !app_assoc.
      * rewrite Hins. apply Forall_app. split; [done|]. by constructor.
      * by apply insert_by_priority_sorted.
    + rewrite Forall_forall in Hact2. rewrite Forall_forall in H2.
      apply Forall_forall. intros y Hy. split; [by apply Hact2|by apply H2].
    + intros y Hy. rewrite last_app in Hy.
      destruct (last l1) as [z|] eqn:Hl1.
      * injection Hy as ->. right. rewrite Forall_forall in H1. apply H1.
        rewrite last_lookup in Hl1. by eapply list_elem_of_lookup_2.
      * left. rewrite Forall_forall in Hpre. apply Hpre.
        rewrite last_lookup in Hy. by eapply list_elem_of_lookup_2.
Qed.

Lemma copy_active_filter front l :
  copy_active (front ++ l) (length front) (length l)
  = filter (fun s => sub_active s = true) l.
Proof.
  revert front. induction l as [|x l IH]; intros front; cbn [length copy_active]; [done|].
  rewrite lookup_total_app_r by lia. rewrite Nat.sub_diag.
  cbn [lookup_total list_lookup_total]. rewrite filter_cons.
  replace (front ++ x :: l) with ((front ++ [x]) ++ l) by (by rewrite <- app_assoc).
  replace (S (length front)) with (length (front ++ [x]))
    by (rewrite length_app; cbn; lia).
  rewrite IH. destruct (sub_active x); by case_decide.
Qed.

Lemma filter_active_all l :
  Forall (fun s => sub_active s = true) l → filter (fun s => sub_active s = true) l = l.
Proof.
  induction 1 as [|x l Hx _ IH]; [done|]. rewrite filter_cons, IH. by case_decide.
Qed.

Lemma filter_active_none l :
  Forall (fun s => sub_active s = false) l → filter (fun s => sub_active s = true) l = [].
Proof.
  induction 1 as [|x l Hx _ IH]; [done|]. rewrite filter_cons, IH.
  case_decide; [congruence|done].
Qed.

(** The sort, on a table whose active slots are adjacent: the run of active
    slots is replaced by its stable sort, everything else stays. *)
Lemma sort_subscribers_contiguous list pre run post :
  subscribers list = pre ++ run ++ post →
  length (subscribers list) = Z.to_nat EM_MAX_SUBSCRIBERS →
  Forall (fun s => sub_active s = false) pre →
  Forall (fun s => sub_active s = true) run →
  Forall (fun s => sub_active s = false) post →
  sorted list = false → sl_count list = Z.of_nat (length run) →
  subscribers (sort_subscribers list) = pre ++ sort_by_priority run ++ post.
Proof.
  intros Hsubs Hlen Hpre Hrun Hpost Hflag Hcount. unfold sort_subscribers.
  rewrite Hflag. cbn [orb]. destruct (Z.leb_spec (sl_count list) 1) as [Hle|Hgt].
  - rewrite Hsubs. destruct run as [|x [|y run]]; [done|done|cbn in Hcount; lia].
  - cbn [subscribers]. rewrite Hsubs in Hlen |- *.
    change (Z.to_nat EM_MAX_SUBSCRIBERS) with 16%nat in *.
    destruct pre as [|p0 pre].
    + destruct run as [|x run]; [cbn in Hcount; lia|].
      cbn [app] in *. apply Forall_cons in Hrun as (Hx & Hrun).
      pose proof (sort_loop_run [] [x] run post) as Hloop.
      cbn [app length] in Hloop. cbn [app length] in Hlen.
      rewrite !length_app in Hlen.
      replace (16 - 1)%nat with (length run + length post)%nat by lia.
      rewrite Hloop; try done.
      * by repeat constructor.
      * by repeat constructor.
    + apply Forall_cons in Hpre as (Hp0 & Hpre).
      pose proof (sort_loop_skip [p0] pre (run ++ post)
                    (length run + length post) Hpre) as Hskip.
      cbn [app length] in Hskip. cbn [app length] in Hlen.
      rewrite !length_app in Hlen.
      replace (16 - 1)%nat with (length pre + (length run + length post))%nat by lia.
      cbn [app]. rewrite Hskip.
      pose proof (sort_loop_run (p0 :: pre) [] run post) as Hloop.
      rewrite app_nil_r in Hloop. cbn [app length] in Hloop.
      rewrite Hloop; try done; by constructor.
Qed.

(** X1: when the active slots of an event are adjacent (no inactive slot
    between two active ones), the count is the number of active slots and a
    table flagged as sorted is sorted, the dispatch snapshot is the stable
    sort of the active slots: priorities never decrease, and subscribers of
    one priority keep their slot order. *)
Theorem dispatch_order_without_gaps (m : em_manager) (event_id : N)
    (pre run post : list em_subscriber_t) :
  (event_id < EM_MAX_EVENT_TYPES)%N →
  subscribers (event_subscribers m !!! N.to_nat event_id) = pre ++ run ++ post →
  length (pre ++ run ++ post) = Z.to_nat EM_MAX_SUBSCRIBERS →
  Forall (fun s => sub_active s = false) pre →
  Forall (fun s => sub_active s = true) run →
  Forall (fun s => sub_active s = false) post →
  sl_count (event_subscribers m !!! N.to_nat event_id) = Z.of_nat (length run) →
  (sorted (event_subscribers m !!! N.to_nat event_id) = true →
   StronglySorted priority_le run) →
  let snapshot := snd (dispatch_snapshot m event_id) in
  snapshot = sort_by_priority run ∧
  StronglySorted priority_le snapshot ∧
  (∀ p, filter (fun s => sub_priority s = p) snapshot
        = filter (fun s => sub_priority s = p) run) ∧
  snapshot ≡ₚ run.
Proof.
  intros Hid Hsubs Hlen Hpre Hrun Hpost Hcount Hflag snapshot.
  assert (Hsnap : snapshot = sort_by_priority run).
  { unfold snapshot, dispatch_snapshot. cbn [snd].
    set (list := event_subscribers m !!! N.to_nat event_id) in *.
    assert (Hcopy : ∀ l, l ≡ₚ run →
              copy_active (pre ++ l ++ post) 0 (Z.to_nat EM_MAX_SUBSCRIBERS) = l).
    { intros l Hl. rewrite <- Hlen.
      replace (length (pre ++ run ++ post)) with (length (pre ++ l ++ post))
        by (by rewrite !length_app, Hl).
      pose proof (copy_active_filter [] (pre ++ l ++ post)) as Hc.
      cbn [app length] in Hc. rewrite Hc.
      rewrite !filter_app, (filter_active_none pre), (filter_active_none post) by done.
      rewrite app_nil_r. cbn [app]. apply filter_active_all. by rewrite Hl. }
    destruct (sorted list) eqn:Hs; cbn [negb].
    - rewrite Hsubs, Hcopy by done. unfold sort_by_priority.
      symmetry. apply (fold_insert_sorted_id run []). by apply Hflag.
    - rewrite (sort_subscribers_contiguous list pre run post); try done.
      + apply Hcopy, sort_by_priority_perm.
      + by rewrite Hsubs. }
  rewrite Hsnap. split_and!; [done| | |].
  - apply sort_by_priority_sorted.
  - apply sort_by_priority_stable.
  - apply sort_by_priority_perm.
Qed.

Lemma dispatch_order_without_gaps_witness :
  ∃ m, em_run quiet [OpSubscribe 0 100 0 EM_PRIORITY_LOW;
               OpSubscribe 0 200 0 EM_PRIORITY_HIGH;
               OpSubscribe 0 300 0 EM_PRIORITY_NORMAL;
               OpSubscribe 0 400 0 EM_PRIORITY_HIGH] (em_create true, ∅)
         = Some (Some m, ∅) ∧
       map sub_callback (snd (dispatch_snapshot m 0)) = [200; 400; 300; 100].
Proof.
  assert (Hm : ∃ m run,
    em_run quiet [OpSubscribe 0 100 0 EM_PRIORITY_LOW;
            OpSubscribe 0 200 0 EM_PRIORITY_HIGH;
            OpSubscribe 0 300 0 EM_PRIORITY_NORMAL;
            OpSubscribe 0 400 0 EM_PRIORITY_HIGH] (em_create true, ∅) = Some (Some m, ∅) ∧
    subscribers (event_subscribers m !!! N.to_nat 0)
      = [] ++ run ++ replicate 12 zero_subscriber ∧
    length ([] ++ run ++ replicate 12 zero_subscriber) = Z.to_nat EM_MAX_SUBSCRIBERS ∧
    Forall (fun s => sub_active s = true) run ∧
    sl_count (event_subscribers m !!! N.to_nat 0) = Z.of_nat (length run) ∧
    sorted (event_subscribers m !!! N.to_nat 0) = false ∧
    map sub_callback (sort_by_priority run) = [200; 400; 300; 100]).
  { eexists _, [_; _; _; _]. split; [vm_compute; reflexivity|].
    split; [vm_compute; reflexivity|]. split; [reflexivity|].
    split; [by repeat constructor|]. split; [reflexivity|].
    split; vm_compute; reflexivity. }
  destruct Hm as (m & run & Hrun & Hsubs & Hlen & Hact & Hcount & Hflag & Hsorted).
  exists m. split; [exact Hrun|].
  assert (Hpre : Forall (fun s => sub_active s = false) []) by constructor.
  assert (Hpost : Forall (fun s => sub_active s = false) (replicate 12 zero_subscriber)).
  { by apply Forall_replicate. }
  assert (Hsorted' : sorted (event_subscribers m !!! N.to_nat 0) = true →
                     StronglySorted priority_le run).
  { intros Htrue. rewrite Hflag in Htrue. discriminate. }
  destruct (dispatch_order_without_gaps m 0 [] run (replicate 12 zero_subscriber)
              eq_refl Hsubs Hlen Hpre Hact Hpost Hcount Hsorted') as (Heq & _).
  rewrite Heq. exact Hsorted.
Defined.

(** ** Dispatch calls every active subscriber once *)

Lemma insert_swap_perm {A} `{Inhabited A} (l : list A) (j : nat) (t : A) :
  (S j < length l)%nat →
  <[j := t]> (<[S j := l !!! j]> l) ≡ₚ <[S j := t]> l.
Proof.
  revert j. induction l as [|a l IH]; intros j Hj; [cbn in Hj; lia|].
  destruct j as [|j].
  - destruct l as [|b l]; [cbn in Hj; lia|]. cbn. apply Permutation_swap.
  - cbn. apply Permutation_skip. apply IH. cbn in Hj. lia.
Qed.

Lemma sort_insert_perm temp k subs :
  (k < length subs)%nat → sort_insert temp k subs ≡ₚ <[k := temp]> subs.
Proof.
  revert subs. induction k as [|j IH]; intros subs Hk; cbn [sort_insert]; [done|].
  case_match; [|done].
  rewrite IH by (rewrite length_insert; lia). by apply insert_swap_perm.
Qed.

Lemma sort_loop_perm subs lo n :
  (lo + n ≤ length subs)%nat → sort_loop subs lo n ≡ₚ subs.
Proof.
  revert subs lo. induction n as [|n IH]; intros subs lo Hn; cbn [sort_loop]; [done|].
  case_match.
  - apply IH. lia.
  - rewrite IH by (rewrite length_sort_insert; lia).
    rewrite sort_insert_perm by lia. by rewrite list_insert_lookup_total_id.
Qed.

Lemma sort_subscribers_perm list :
  length (subscribers list) = Z.to_nat EM_MAX_SUBSCRIBERS →
  subscribers (sort_subscribers list) ≡ₚ subscribers list.
Proof.
  intros Hlen. unfold sort_subscribers. case_match; [done|]. cbn [subscribers].
  apply sort_loop_perm. rewrite Hlen. change (Z.to_nat EM_MAX_SUBSCRIBERS) with 16%nat. lia.
Qed.

Lemma copy_active_all subs :
  copy_active subs 0 (length subs) = filter (fun s => sub_active s = true) subs.
Proof. apply (copy_active_filter [] subs). Qed.

(** X2: whatever the gaps and the flags, the dispatch snapshot holds the
    active slots of the event, each once (a permutation of them), and the
    calls made are those of the snapshot entries with a non-[NULL]
    callback, in snapshot order, with the event id and payload of the
    dispatch and the user data of the slot, whatever the callbacks do. *)
Theorem dispatch_calls_active_once (cb : em_callbacks) (m : em_manager)
    (event_id : N) (data : Z) (mem : gmap Z (list Z)) :
  wf_manager m → (event_id < EM_MAX_EVENT_TYPES)%N →
  snd (dispatch_snapshot m event_id)
    ≡ₚ filter (fun s => sub_active s = true)
              (subscribers (event_subscribers m !!! N.to_nat event_id)) ∧
  snd (dispatch_event cb m event_id data mem)
    = map (fun s => mk_call (sub_callback s) event_id data (sub_user_data s))
          (filter (fun s => sub_callback s ≠ NULL) (snd (dispatch_snapshot m event_id))).
Proof.
  intros Hwf Hid. pose proof (wf_lookup_subscribers m event_id Hwf Hid) as Hlen.
  split.
  - unfold dispatch_snapshot. cbn [snd].
    set (list := event_subscribers m !!! N.to_nat event_id) in *.
    destruct (sorted list); cbn [negb].
    + rewrite <- Hlen. by rewrite copy_active_all.
    + rewrite <- Hlen, <- (length_sort_subscribers list), copy_active_all.
      by rewrite sort_subscribers_perm.
  - rewrite dispatch_event_eq. cbn [snd]. unfold dispatch_prepare.
    destruct (N.leb_spec EM_MAX_EVENT_TYPES event_id); [lia|].
    by destruct (dispatch_snapshot m event_id).
Qed.

Lemma dispatch_calls_active_once_witness :
  ∃ m, em_run quiet [OpSubscribe 0 100 5 EM_PRIORITY_LOW;
               OpSubscribe 0 200 6 EM_PRIORITY_NORMAL;
               OpSubscribe 0 300 7 EM_PRIORITY_HIGH;
               OpUnsubscribe 0 200] (em_create true, ∅) = Some (Some m, ∅) ∧
       map sub_callback (snd (dispatch_snapshot m 0)) ≡ₚ [100; 300].
Proof.
  assert (Hm : ∃ m, em_run quiet [OpSubscribe 0 100 5 EM_PRIORITY_LOW;
                            OpSubscribe 0 200 6 EM_PRIORITY_NORMAL;
                            OpSubscribe 0 300 7 EM_PRIORITY_HIGH;
                            OpUnsubscribe 0 200] (em_create true, ∅) = Some (Some m, ∅) ∧
                    wf_manager m ∧
                    map sub_callback
                        (filter (fun s => sub_active s = true)
                           (subscribers (event_subscribers m !!! N.to_nat 0)))
                    = [100; 300]).
  { eexists. split; [vm_compute; reflexivity|].
    split; [apply (bool_decide_unpack _); vm_compute; exact I|].
    vm_compute; reflexivity. }
  destruct Hm as (m & Hrun & Hwf & Hact).
  exists m. split; [exact Hrun|].
  destruct (dispatch_calls_active_once quiet m 0 0 ∅ Hwf eq_refl) as (Hperm & _).
  rewrite Hperm, Hact. reflexivity.
Defined.

(** ** What the subscriber tables keep *)

Lemma filter_insert_active (l : list em_subscriber_t) i x :
  (i < length l)%nat → sub_active (l !!! i) = false → sub_active x = true →
  filter (fun s => sub_active s = true) (<[i := x]> l)
    ≡ₚ x :: filter (fun s => sub_active s = true) l.
Proof.
  revert i. induction l as [|a l IH]; intros i Hi Hfree Hx; [cbn in Hi; lia|].
  destruct i as [|i]; cbn [insert list_insert length lookup_total list_lookup_total] in *.
  - rewrite !filter_cons. do 2 case_decide; try congruence. done.
  - rewrite !filter_cons. case_decide.
    + rewrite IH by (done || lia). apply Permutation_swap.
    + apply IH; [lia|done|done].
Qed.

Lemma filter_insert_inactive (l : list em_subscriber_t) i x :
  (i < length l)%nat → sub_active (l !!! i) = true → sub_active x = false →
  filter (fun s => sub_active s = true) l
    ≡ₚ l !!! i :: filter (fun s => sub_active s = true) (<[i := x]> l).
Proof.
  revert i. induction l as [|a l IH]; intros i Hi Hact Hx; [cbn in Hi; lia|].
  destruct i as [|i]; cbn [insert list_insert length lookup_total list_lookup_total] in *.
  - rewrite !filter_cons. do 2 case_decide; try congruence. done.
  - rewrite !filter_cons. case_decide.
    + rewrite (IH i) at 1 by (done || lia). apply Permutation_swap.
    + apply IH; [lia|done|done].
Qed.

Lemma table_inv_perm tbl tbl' :
  subscribers tbl' ≡ₚ subscribers tbl → sl_count tbl' = sl_count tbl →
  table_inv tbl → table_inv tbl'.
Proof.
  intros Hperm Hcount (Hc & Hnd & Hall). unfold table_inv, active_slots in *.
  rewrite Hperm, Hcount. done.
Qed.

Lemma table_inv_sort tbl :
  length (subscribers tbl) = Z.to_nat EM_MAX_SUBSCRIBERS →
  table_inv tbl → table_inv (sort_subscribers tbl).
Proof.
  intros Hlen. apply table_inv_perm; [by apply sort_subscribers_perm|].
  unfold sort_subscribers. by case_match.
Qed.

Lemma count_total_insert (lists : list em_subscriber_list_t) i l :
  (i < length lists)%nat →
  count_total (<[i := l]> lists)
  = count_total lists - sl_count (lists !!! i) + sl_count l.
Proof.
  unfold count_total.
  revert i. induction lists as [|a lists IH]; intros i Hi; [cbn in Hi; lia|].
  destruct i as [|i].
  - change ((a :: lists) !!! 0%nat) with a. cbn [foldr insert list_insert]. lia.
  - change ((a :: lists) !!! S i) with (lists !!! i).
    cbn [foldr insert list_insert length] in *. rewrite IH by lia. lia.
Qed.

Lemma count_total_bounds lists :
  Forall (fun l => 0 ≤ sl_count l ≤ EM_MAX_SUBSCRIBERS) lists →
  0 ≤ count_total lists ≤ EM_MAX_SUBSCRIBERS * Z.of_nat (length lists) ∧
  ∀ i, (i < length lists)%nat → sl_count (lists !!! i) ≤ count_total lists.
Proof.
  unfold count_total.
  induction 1 as [|a lists Ha _ IH]; cbn [foldr length].
  - split; [lia|]. intros; lia.
  - destruct IH as (IH1 & IH2). unfold EM_MAX_SUBSCRIBERS in *. split; [lia|].
    intros [|i] Hi.
    + change ((a :: lists) !!! 0%nat) with a. lia.
    + change ((a :: lists) !!! S i) with (lists !!! i). specialize (IH2 i). lia.
Qed.

Lemma table_inv_count_bounds m :
  wf_manager m → Forall table_inv (event_subscribers m) →
  Forall (fun l => 0 ≤ sl_count l ≤ EM_MAX_SUBSCRIBERS) (event_subscribers m).
Proof.
  intros (_ & Hlens & _) Hinv. rewrite Forall_forall in Hlens, Hinv.
  apply Forall_forall. intros l Hl. destruct (Hinv l Hl) as (Hc & _).
  specialize (Hlens l Hl). cbn in Hlens. rewrite Hc. unfold active_slots.
  pose proof (length_filter (fun s => sub_active s = true) (subscribers l)).
  unfold EM_MAX_SUBSCRIBERS in *. lia.
Qed.

Lemma subscribers_inv_update m (event_id : N) tbl' m' :
  wf_manager m → subscribers_inv m → (event_id < EM_MAX_EVENT_TYPES)%N →
  table_inv tbl' →
  event_subscribers m' = <[N.to_nat event_id := tbl']> (event_subscribers m) →
  subscribers_total (stats m')
  = subscribers_total (stats m)
    - sl_count (event_subscribers m !!! N.to_nat event_id) + sl_count tbl' →
  subscribers_inv m'.
Proof.
  intros Hwf (Htabs & Htotal) Hid Htbl Hsubs Hst. split.
  - rewrite Hsubs. by apply Forall_insert.
  - rewrite Hst, Hsubs, count_total_insert, Htotal; [done|].
    destruct Hwf as (-> & _). lia.
Qed.

Lemma subscribers_inv_frame m m' :
  event_subscribers m' = event_subscribers m →
  subscribers_total (stats m') = subscribers_total (stats m) →
  subscribers_inv m → subscribers_inv m'.
Proof. intros Hs Ht (? & ?). split; by rewrite ?Hs, ?Ht. Qed.

Lemma subscribers_inv_total_bounds m (event_id : N) :
  wf_manager m → subscribers_inv m → (event_id < EM_MAX_EVENT_TYPES)%N →
  0 ≤ sl_count (event_subscribers m !!! N.to_nat event_id)
    ≤ subscribers_total (stats m) ∧
  subscribers_total (stats m) ≤ 1024.
Proof.
  intros Hwf (Htabs & ->) Hid.
  pose proof (table_inv_count_bounds m Hwf Htabs) as Hb.
  destruct (count_total_bounds _ Hb) as ((_ & Hmax) & Hle).
  pose proof Hwf as (Hlen & _). rewrite Hlen in Hmax, Hle.
  specialize (Hle (N.to_nat event_id) ltac:(lia)).
  apply (Forall_lookup_total_1 _ _ (N.to_nat event_id)) in Hb; [|lia].
  unfold EM_MAX_SUBSCRIBERS, EM_MAX_EVENT_TYPES in *. lia.
Qed.

Lemma table_inv_lookup m (event_id : N) :
  wf_manager m → subscribers_inv m → (event_id < EM_MAX_EVENT_TYPES)%N →
  table_inv (event_subscribers m !!! N.to_nat event_id).
Proof.
  intros (Hlen & _) (Htabs & _) Hid.
  apply (Forall_lookup_total_1 _ _ (N.to_nat event_id)) in Htabs; [done|lia].
Qed.

Lemma has_active_slot_callbacks m event_id callback :
  has_active_slot m event_id callback ↔
  callback ∈ map sub_callback (active_slots (event_subscribers m !!! N.to_nat event_id)).
Proof.
  unfold has_active_slot, active_slots. rewrite Exists_exists, list_elem_of_In, in_map_iff.
  split.
  - intros (s & Hin & Hact & Hc). exists s. split; [done|].
    apply list_elem_of_In, list_elem_of_filter. done.
  - intros (s & Hc & Hin). apply list_elem_of_In, list_elem_of_filter in Hin as (Hact & Hin).
    by exists s.
Qed.

Lemma subscribers_inv_em_subscribe m event_id callback user_data priority m' :
  wf_manager m → subscribers_inv m →
  snd (em_subscribe (Some m) event_id callback user_data priority) = Some m' →
  subscribers_inv m'.
Proof.
  intros Hwf Hinv.
  destruct (em_subscribe_cases m event_id callback user_data priority Hwf)
    as [->|(Hc & Hid & Hp & Hno & Hcount & i & Hfree & ->)].
  { intros [= <-]. done. }
  cbn [snd]. intros Hm'. apply (inj Some) in Hm'. subst m'.
  set (tbl := event_subscribers m !!! N.to_nat event_id) in *.
  pose proof (wf_lookup_subscribers m event_id Hwf Hid) as Hlen. fold tbl in Hlen.
  pose proof (table_inv_lookup m event_id Hwf Hinv Hid) as (Hcnt & Hnd & Hall).
  fold tbl in Hcnt, Hnd, Hall.
  pose proof (subscribers_inv_total_bounds m event_id Hwf Hinv Hid) as Hb.
  apply scan_Some in Hfree as (Hi & Hfree & _).
  unfold is_free in Hfree. apply negb_true_iff in Hfree.
  eapply (subscribers_inv_update m event_id); [done|done|done| |reflexivity|].
  - unfold table_inv, active_slots in *. cbn [subscribers sl_count].
    rewrite filter_insert_active by (done || lia). cbn [length map].
    split_and!.
    + lia.
    + constructor; [|done]. cbn. intros Hin. apply Hno.
      by apply has_active_slot_callbacks.
    + constructor; [|done]. done.
  - cbn. fold tbl. rewrite u32_small; [lia|]. unfold is_u32. lia.
Qed.

Lemma em_unsubscribe_cases m event_id callback :
  wf_manager m →
  snd (em_unsubscribe (Some m) event_id callback) = Some m ∨
  (callback ≠ NULL ∧ (event_id < EM_MAX_EVENT_TYPES)%N ∧
   let tbl := event_subscribers m !!! N.to_nat event_id in
   ∃ i, scan (is_subscribed callback) (subscribers tbl) 0
             (Z.to_nat EM_MAX_SUBSCRIBERS) = Some i ∧
        em_unsubscribe (Some m) event_id callback =
        (EM_OK,
         Some (set_stats
                 (set_event_subscribers m (N.to_nat event_id)
                    (mk_list (<[i := mk_subscriber NULL NULL
                                       (sub_priority (subscribers tbl !!! i)) false]>
                                (subscribers tbl))
                             (sl_count tbl - 1) (sorted tbl)))
                 (mk_stats (events_published (stats m)) (events_processed (stats m))
                    (async_queue_current (stats m)) (async_queue_max (stats m))
                    (u32 (subscribers_total (stats m) - 1)))))).
Proof.
  intros Hwf. unfold em_unsubscribe.
  destruct (Z.eqb_spec callback NULL) as [|Hc]; [by left|].
  destruct (N.leb_spec EM_MAX_EVENT_TYPES event_id) as [|Hid]; [by left|].
  destruct (scan (is_subscribed callback) _ _ _) as [i|] eqn:Hscan; [|by left].
  right. split_and!; try done. by exists i.
Qed.

Lemma subscribers_inv_em_unsubscribe m event_id callback m' :
  wf_manager m → subscribers_inv m →
  snd (em_unsubscribe (Some m) event_id callback) = Some m' →
  subscribers_inv m'.
Proof.
  intros Hwf Hinv.
  destruct (em_unsubscribe_cases m event_id callback Hwf)
    as [->|(Hc & Hid & i & Hscan & ->)].
  { intros [= <-]. done. }
  cbn [snd]. intros Hm'. apply (inj Some) in Hm'. subst m'.
  set (tbl := event_subscribers m !!! N.to_nat event_id) in *.
  pose proof (wf_lookup_subscribers m event_id Hwf Hid) as Hlen. fold tbl in Hlen.
  pose proof (table_inv_lookup m event_id Hwf Hinv Hid) as (Hcnt & Hnd & Hall).
  fold tbl in Hcnt, Hnd, Hall.
  pose proof (subscribers_inv_total_bounds m event_id Hwf Hinv Hid) as Hb.
  fold tbl in Hb.
  apply scan_Some in Hscan as (Hi & Hsub & _).
  apply is_subscribed_true in Hsub as (Hact & Hcb).
  assert (Hperm : active_slots tbl ≡ₚ
            subscribers tbl !!! i ::
            filter (fun s => sub_active s = true)
              (<[i := mk_subscriber NULL NULL (sub_priority (subscribers tbl !!! i)) false]>
                 (subscribers tbl))).
  { apply filter_insert_inactive; [lia|done|done]. }
  eapply (subscribers_inv_update m event_id); [done|done|done| |reflexivity|].
  - unfold table_inv. unfold active_slots at 1 2 3. cbn [subscribers sl_count].
    rewrite Hperm in Hcnt, Hnd, Hall. cbn [length map] in *.
    apply NoDup_cons in Hnd as (_ & Hnd). apply Forall_cons in Hall as (_ & Hall).
    split_and!; [lia|done|done].
  - cbn. fold tbl. rewrite Hperm in Hcnt. cbn [length] in Hcnt.
    rewrite u32_small; [lia|]. unfold is_u32. lia.
Qed.

Lemma unsubscribe_slots_app front l total :
  unsubscribe_slots (front ++ l) total (length front) (length l)
  = (front ++ map clear_slot l,
     Nat.iter (length (filter (fun s => sub_active s = true) l))
              (fun t => u32 (t - 1)) total).
Proof.
  revert front total. induction l as [|x l IH]; intros front total.
  - cbn. by rewrite app_nil_r.
  - cbn [length unsubscribe_slots map].
    rewrite lookup_total_app_r by lia. rewrite Nat.sub_diag.
    change ((x :: l) !!! 0%nat) with x. rewrite filter_cons.
    rewrite insert_app_r_alt by lia. rewrite Nat.sub_diag. cbn [insert list_insert].
    unfold clear_slot at 1.
    destruct (sub_active x) eqn:Hx.
    + replace (front ++ mk_subscriber NULL NULL (sub_priority x) false :: l)
        with ((front ++ [mk_subscriber NULL NULL (sub_priority x) false]) ++ l)
        by (by rewrite <- app_assoc).
      replace (S (length front))
        with (length (front ++ [mk_subscriber NULL NULL (sub_priority x) false]))
        by (rewrite length_app; cbn; lia).
      rewrite IH. rewrite <- app_assoc. cbn [app]. f_equal.
      case_decide; [|done]. cbn [length]. by rewrite Nat.iter_succ_r.
    + replace (front ++ x :: l) with ((front ++ [x]) ++ l) by (by rewrite <- app_assoc).
      replace (S (length front)) with (length (front ++ [x]))
        by (rewrite length_app; cbn; lia).
      rewrite IH. rewrite <- app_assoc. cbn [app]. by f_equal.
Qed.

Lemma iter_u32_pred (k : nat) t :
  is_u32 t → Z.of_nat k ≤ t → Nat.iter k (fun t => u32 (t - 1)) t = t - Z.of_nat k.
Proof.
  intros Ht Hk. induction k as [|k IH]; [cbn; lia|].
  rewrite Nat.iter_succ, IH by lia. rewrite u32_small; [lia|].
  unfold is_u32 in *. lia.
Qed.

Lemma filter_active_clear l :
  filter (fun s => sub_active s = true) (map clear_slot l) = [].
Proof.
  induction l as [|x l IH]; [done|]. cbn [map]. rewrite filter_cons, IH.
  unfold clear_slot. destruct (sub_active x) eqn:Hx; cbn; case_decide; congruence.
Qed.

(** What [em_unsubscribe_all] leaves behind. *)
Lemma em_unsubscribe_all_ok m event_id :
  wf_manager m → (event_id < EM_MAX_EVENT_TYPES)%N →
  let tbl := event_subscribers m !!! N.to_nat event_id in
  em_unsubscribe_all (Some m) event_id =
  (EM_OK,
   Some (set_stats
           (set_event_subscribers m (N.to_nat event_id)
              (mk_list (map clear_slot (subscribers tbl)) 0 true))
           (mk_stats (events_published (stats m)) (events_processed (stats m))
              (async_queue_current (stats m)) (async_queue_max (stats m))
              (Nat.iter (length (active_slots tbl)) (fun t => u32 (t - 1))
                        (subscribers_total (stats m)))))).
Proof.
  intros Hwf Hid tbl. unfold em_unsubscribe_all.
  destruct (N.leb_spec EM_MAX_EVENT_TYPES event_id) as [|_]; [lia|].
  pose proof (wf_lookup_subscribers m event_id Hwf Hid) as Hlen. fold tbl in Hlen.
  pose proof (unsubscribe_slots_app [] (subscribers tbl)
                (subscribers_total (stats m))) as Hloop.
  cbn [app length] in Hloop. rewrite Hlen in Hloop. fold tbl. rewrite Hloop. done.
Qed.

Lemma subscribers_inv_em_unsubscribe_all m event_id m' :
  wf_manager m → subscribers_inv m →
  snd (em_unsubscribe_all (Some m) event_id) = Some m' →
  subscribers_inv m'.
Proof.
  intros Hwf Hinv.
  destruct (N.leb_spec EM_MAX_EVENT_TYPES event_id) as [Hid|Hid].
  { unfold em_unsubscribe_all. apply N.leb_le in Hid. rewrite Hid.
    intros [= <-]. done. }
  rewrite em_unsubscribe_all_ok by done. cbn [snd].
  intros Hm'. apply (inj Some) in Hm'. subst m'.
  set (tbl := event_subscribers m !!! N.to_nat event_id) in *.
  pose proof (table_inv_lookup m event_id Hwf Hinv Hid) as (Hcnt & _).
  fold tbl in Hcnt.
  pose proof (subscribers_inv_total_bounds m event_id Hwf Hinv Hid) as Hb.
  fold tbl in Hb.
  eapply (subscribers_inv_update m event_id); [done|done|done| |reflexivity|].
  - unfold table_inv, active_slots. cbn [subscribers sl_count].
    rewrite filter_active_clear. cbn. split_and!; [done|constructor|constructor].
  - cbn. fold tbl. rewrite iter_u32_pred; [lia| |lia]. unfold is_u32. lia.
Qed.

Lemma subscribers_inv_dispatch_prepare m event_id data :
  wf_manager m → subscribers_inv m →
  subscribers_inv (fst (dispatch_prepare m event_id data)).
Proof.
  intros Hwf Hinv. unfold dispatch_prepare.
  destruct (N.leb_spec EM_MAX_EVENT_TYPES event_id) as [|Hid]; [done|].
  cbn [dispatch_snapshot fst].
  set (tbl := event_subscribers m !!! N.to_nat event_id).
  pose proof (wf_lookup_subscribers m event_id Hwf Hid) as Hlen. fold tbl in Hlen.
  pose proof (table_inv_lookup m event_id Hwf Hinv Hid) as Htbl. fold tbl in Htbl.
  eapply (subscribers_inv_update m event_id); [done|done|done| |reflexivity|].
  - destruct (sorted tbl); cbn [negb]; [done|]. by apply table_inv_sort.
  - cbn. fold tbl. destruct (sorted tbl); cbn [negb]; [lia|].
    unfold sort_subscribers. case_match; cbn; lia.
Qed.

Lemma subscribers_frame_publish_async_enqueue m event_id data data_size priority
    data_copy mem m' :
  snd (fst (publish_async_enqueue m event_id data data_size priority data_copy mem))
    = Some m' →
  event_subscribers m' = event_subscribers m ∧
  subscribers_total (stats m') = subscribers_total (stats m).
Proof.
  unfold publish_async_enqueue. destruct (enqueue_event _ _ _) as [result queue'].
  destruct result; cbn; intros Hm'; apply (inj Some) in Hm'; by subst m'.
Qed.

Lemma subscribers_frame_em_publish_async malloc_ret m event_id data data_size
    priority mem m' :
  snd (fst (em_publish_async malloc_ret (Some m) event_id data data_size priority mem))
    = Some m' →
  event_subscribers m' = event_subscribers m ∧
  subscribers_total (stats m') = subscribers_total (stats m).
Proof.
  unfold em_publish_async.
  case_match; [cbn; intros Hm'; apply (inj Some) in Hm'; by subst m'|].
  case_match; [cbn; intros Hm'; apply (inj Some) in Hm'; by subst m'|].
  case_match; [|apply subscribers_frame_publish_async_enqueue].
  destruct (malloc _ _ _) as [data_copy mem1].
  case_match; [cbn; intros Hm'; apply (inj Some) in Hm'; by subst m'|].
  apply subscribers_frame_publish_async_enqueue.
Qed.

Lemma subscribers_frame_process_scan m lo n :
  let m' := snd (fst (process_scan m lo n)) in
  event_subscribers m' = event_subscribers m ∧
  subscribers_total (stats m') = subscribers_total (stats m).
Proof.
  revert m lo. induction n as [|n IH]; intros m lo; cbn [process_scan]; [done|].
  case_match; [|apply IH].
  destruct (dequeue_event _) as [[result queue'] out].
  destruct result; try done;
    destruct (IH (set_async_queue m lo queue') (S lo)) as (-> & ->); done.
Qed.

Lemma subscribers_inv_em_process_one m mem m' :
  wf_manager m → subscribers_inv m →
  (em_process_one quiet (Some m) mem).1.1.2 = Some m' →
  subscribers_inv m'.
Proof.
  intros Hwf Hinv. unfold em_process_one.
  pose proof (wf_process_scan m Hwf) as Hwf1.
  pose proof (subscribers_frame_process_scan m 0 (N.to_nat EM_PRIORITY_COUNT))
    as (Hs & Ht).
  destruct (process_scan m 0 _) as [[result m1] out]. cbn [fst snd] in *.
  assert (Hinv1 : subscribers_inv m1) by (by apply (subscribers_inv_frame m)).
  destruct result, out as [[event data_copy]|]; cbn;
    try (intros Hm'; apply (inj Some) in Hm'; by subst m').
  rewrite dispatch_event_quiet.
  pose proof (subscribers_inv_dispatch_prepare m1 (ev_id event) (ev_data event)
                Hwf1 Hinv1) as Hd.
  cbn. intros Hm'; apply (inj Some) in Hm'; by subst m'.
Qed.

Lemma subscribers_frame_em_clear_queue m mem m' :
  snd (fst (em_clear_queue (Some m) mem)) = Some m' →
  event_subscribers m' = event_subscribers m ∧
  subscribers_total (stats m') = subscribers_total (stats m).
Proof.
  unfold em_clear_queue.
  destruct (clear_queues (async_queues m) mem 0 (N.to_nat EM_PRIORITY_COUNT))
    as [queues' mem'].
  cbn [fst snd]. intros Hm'. apply (inj Some) in Hm'. by subst m'.
Qed.

Lemma subscribers_inv_em_publish_sync m event_id data mem m' :
  wf_manager m → subscribers_inv m →
  (em_publish_sync quiet (Some m) event_id data mem).1.1.2 = Some m' →
  subscribers_inv m'.
Proof.
  intros Hwf Hinv. unfold em_publish_sync.
  destruct (N.leb_spec EM_MAX_EVENT_TYPES event_id) as [|Hid].
  { cbn. intros Hs. apply (inj Some) in Hs. by subst m'. }
  rewrite dispatch_event_quiet. cbn [fst snd].
  intros Hs. apply (inj Some) in Hs. subst m'.
  apply subscribers_inv_dispatch_prepare.
  - apply wf_set_stats; [done|].
    destruct Hwf as (_ & _ & _ & _ & (? & ? & ? & ? & ?)).
    unfold wf_stats; cbn. split_and!; auto using u32_is_u32.
  - by apply (subscribers_inv_frame m).
Qed.

Lemma subscribers_inv_em_step h mem o w' :
  (∀ fuel, o ≠ OpProcessAll fuel) →
  (∃ m, h = Some m ∧ wf_manager m ∧ subscribers_inv m) →
  em_step quiet (h, mem) o = Some w' →
  ∃ m', w'.1 = Some m' ∧ wf_manager m' ∧ subscribers_inv m'.
Proof.
  intros Hpa (m & -> & Hwf & Hinv) Hstep.
  destruct (wf_em_step (Some m) mem o w' Hpa) as (m' & Hm' & Hwf');
    [by exists m|done|].
  exists m'. split; [done|]. split; [done|].
  destruct w' as [h' mem']. cbn in Hm'. subst h'.
  unfold em_step in Hstep. destruct o; cbv beta iota in Hstep.
  - apply (inj Some) in Hstep. apply pair_equal_spec in Hstep as [Hs _].
    by apply subscribers_inv_em_subscribe in Hs.
  - apply (inj Some) in Hstep. apply pair_equal_spec in Hstep as [Hs _].
    by apply subscribers_inv_em_unsubscribe in Hs.
  - apply (inj Some) in Hstep. apply pair_equal_spec in Hstep as [Hs _].
    by apply subscribers_inv_em_unsubscribe_all in Hs.
  - pose proof (subscribers_inv_em_publish_sync m event_id data mem m' Hwf Hinv) as Hs.
    destruct (em_publish_sync _ _ _ _ _) as [[[r h'] mem1] calls].
    apply (inj Some) in Hstep. apply pair_equal_spec in Hstep as [-> _]. by apply Hs.
  - pose proof (subscribers_frame_em_publish_async malloc_ret m event_id data
                  data_size priority mem m') as Hs.
    destruct (em_publish_async _ _ _ _ _ _ _) as [[r h'] mem1].
    apply (inj Some) in Hstep. apply pair_equal_spec in Hstep as [-> _].
    destruct (Hs eq_refl). by apply (subscribers_inv_frame m).
  - pose proof (subscribers_inv_em_process_one m mem m' Hwf Hinv) as Hs.
    destruct (em_process_one _ _ _) as [[[r h'] mem1] calls].
    apply (inj Some) in Hstep. apply pair_equal_spec in Hstep as [-> _]. by apply Hs.
  - by destruct (Hpa fuel).
  - apply (inj Some) in Hstep. apply pair_equal_spec in Hstep as [Hs _]. cbn in Hs.
    apply (inj Some) in Hs. subst m'. done.
  - apply (inj Some) in Hstep. apply pair_equal_spec in Hstep as [Hs _]. cbn in Hs.
    apply (inj Some) in Hs. subst m'. done.
  - pose proof (subscribers_frame_em_clear_queue m mem m') as Hs.
    destruct (em_clear_queue _ _) as [[r h'] mem1].
    apply (inj Some) in Hstep. apply pair_equal_spec in Hstep as [-> _].
    destruct (Hs eq_refl). by apply (subscribers_inv_frame m).
Qed.

Lemma subscribers_inv_em_create :
  ∃ m, em_create true = Some m ∧ wf_manager m ∧ subscribers_inv m.
Proof.
  destruct wf_em_create as (m0 & Hm0 & Hwf0). exists m0.
  split; [done|]. split; [done|]. cbn in Hm0. apply (inj Some) in Hm0. subst m0.
  split.
  - cbn. apply Forall_replicate. unfold table_inv, active_slots. cbn [subscribers sl_count].
    rewrite filter_active_none by (by apply Forall_replicate).
    cbn. split_and!; [done|constructor|constructor].
  - cbn. reflexivity.
Qed.

Lemma subscribers_inv_em_run cb ops m mem :
  api_callbacks cb →
  em_run cb ops (em_create true, ∅) = Some (Some m, mem) →
  wf_manager m ∧ subscribers_inv m.
Proof.
  intros Hcb Hrun.
  set (J := fun h : em_handle_t => ∃ m, h = Some m ∧ wf_manager m ∧ subscribers_inv m).
  assert (J (Some m)) as (m' & [= <-] & ?); [|done].
  apply (em_run_inv J subscribers_inv_em_step cb ops (em_create true, ∅) (Some m, mem) Hcb);
    [|done].
  exact subscribers_inv_em_create.
Qed.

(** X3: in every state a freshly created manager reaches, whatever its
    callbacks do through the API, the count of an event is the number of
    its active slots, no callback holds two active slots of one event,
    every active slot has a non-[NULL] callback and a valid priority, and
    [subscribers_total] is the sum of the counts of all events. *)
Theorem subscriber_tables_invariant (cb : em_callbacks) (ops : list em_op)
    (m : em_manager) (mem : gmap Z (list Z)) :
  api_callbacks cb →
  em_run cb ops (em_create true, ∅) = Some (Some m, mem) →
  (∀ event_id, (event_id < EM_MAX_EVENT_TYPES)%N →
     let tbl := event_subscribers m !!! N.to_nat event_id in
     em_get_subscriber_count (Some m) event_id = Z.of_nat (length (active_slots tbl)) ∧
     NoDup (map sub_callback (active_slots tbl)) ∧
     Forall (fun s => sub_callback s ≠ NULL ∧
                      (sub_priority s < EM_PRIORITY_COUNT)%N) (active_slots tbl)) ∧
  subscribers_total (stats m) = count_total (event_subscribers m).
Proof.
  intros Hcb Hrun.
  destruct (subscribers_inv_em_run cb ops m mem Hcb Hrun) as (Hwf & Hinv).
  split; [|by destruct Hinv].
  intros event_id Hid tbl.
  pose proof (table_inv_lookup m event_id Hwf Hinv Hid) as (Hc & Hnd & Hall).
  unfold em_get_subscriber_count.
  destruct (N.leb_spec EM_MAX_EVENT_TYPES event_id) as [|_]; [lia|]. done.
Qed.

Lemma subscriber_tables_invariant_witness :
  ∃ m, em_run calling_back
              [OpSubscribe 1 100 0 1; OpSubscribe 1 200 0 0; OpSubscribe 2 100 0 2;
               OpSubscribe 1 100 9 0; OpPublishSync 1 0; OpUnsubscribe 1 100]
              (em_create true, ∅) = Some (Some m, ∅) ∧
       em_get_subscriber_count (Some m) 1 = 1 ∧
       em_get_subscriber_count (Some m) 2 = 2 ∧
       em_get_subscriber_count (Some m) 2
         = Z.of_nat (length (active_slots (event_subscribers m !!! 2%nat))) ∧
       subscribers_total (stats m) = count_total (event_subscribers m).
Proof.
  eexists. split; [vm_compute; reflexivity|].
  split; [vm_compute; reflexivity|]. split; [vm_compute; reflexivity|].
  match goal with
  | |- em_get_subscriber_count (Some ?m) _ = _ ∧ _ =>
    destruct (subscriber_tables_invariant calling_back
                [OpSubscribe 1 100 0 1; OpSubscribe 1 200 0 0; OpSubscribe 2 100 0 2;
                 OpSubscribe 1 100 9 0; OpPublishSync 1 0; OpUnsubscribe 1 100]
                m ∅ api_callbacks_calling_back) as (Htabs & Htotal)
  end.
  - vm_compute. reflexivity.
  - destruct (Htabs 2%N eq_refl) as (Hc & _). split; [exact Hc|exact Htotal].
Defined.

(** ** Capacity and removal *)

Lemma exists_free_slot (subs : list em_subscriber_t) :
  (length (filter (fun s => sub_active s = true) subs) < length subs)%nat →
  ∃ i, (i < length subs)%nat ∧ sub_active (subs !!! i) = false.
Proof.
  induction subs as [|a subs IH]; [cbn; lia|].
  rewrite filter_cons. destruct (sub_active a) eqn:Ha.
  - case_decide; [|done]. cbn [length]. intros Hlt.
    destruct IH as (i & Hi & Hfree); [lia|]. exists (S i). split; [lia|done].
  - intros _. exists 0%nat. split; [cbn; lia|done].
Qed.

Lemma has_active_slot_other m event_id tbl' m' c' :
  wf_manager m → (event_id < EM_MAX_EVENT_TYPES)%N →
  event_subscribers m' = <[N.to_nat event_id := tbl']> (event_subscribers m) →
  active_slots tbl' ≡ₚ active_slots (event_subscribers m !!! N.to_nat event_id) →
  has_active_slot m' event_id c' ↔ has_active_slot m event_id c'.
Proof.
  intros (Hlen & _) Hid Hsubs Hperm. rewrite !has_active_slot_callbacks, Hsubs.
  rewrite list_lookup_total_insert_eq by lia. by rewrite Hperm.
Qed.

(** X4: on a well-formed manager whose tables keep their invariant, a
    subscribe with valid arguments of a callback that holds no active slot
    of the event succeeds exactly when fewer than [EM_MAX_SUBSCRIBERS] are
    subscribed. On success the callback holds an active slot with the given
    priority and user data, the count and [subscribers_total] grow by one,
    the sorted flag is cleared and the other events are untouched; at
    capacity the call returns [EM_ERR_MAX_SUBSCRIBERS] and changes nothing. *)
Theorem subscribe_new_callback (m : em_manager) (event_id : N)
    (callback user_data : Z) (priority : N) :
  wf_manager m → subscribers_inv m →
  callback ≠ NULL → (event_id < EM_MAX_EVENT_TYPES)%N →
  (priority < EM_PRIORITY_COUNT)%N →
  ¬ has_active_slot m event_id callback →
  let tbl := event_subscribers m !!! N.to_nat event_id in
  (EM_MAX_SUBSCRIBERS ≤ sl_count tbl →
   em_subscribe (Some m) event_id callback user_data priority
   = (EM_ERR_MAX_SUBSCRIBERS, Some m)) ∧
  (sl_count tbl < EM_MAX_SUBSCRIBERS →
   ∃ m', em_subscribe (Some m) event_id callback user_data priority
           = (EM_OK, Some m') ∧
         let tbl' := event_subscribers m' !!! N.to_nat event_id in
         mk_subscriber callback user_data priority true ∈ active_slots tbl' ∧
         sl_count tbl' = sl_count tbl + 1 ∧ sorted tbl' = false ∧
         subscribers_total (stats m') = subscribers_total (stats m) + 1 ∧
         (∀ e, e ≠ N.to_nat event_id →
               event_subscribers m' !!! e = event_subscribers m !!! e) ∧
         async_queues m' = async_queues m).
Proof.
  intros Hwf Hinv Hc Hid Hp Hno tbl. split.
  - intros Hfull. unfold em_subscribe.
    destruct (Z.eqb_spec callback NULL) as [|_]; [done|].
    destruct (N.leb_spec EM_MAX_EVENT_TYPES event_id) as [|_]; [lia|].
    destruct (N.leb_spec EM_PRIORITY_COUNT priority) as [|_]; [lia|].
    fold tbl. destruct (Z.leb_spec EM_MAX_SUBSCRIBERS (sl_count tbl)); [done|lia].
  - intros Hroom.
    pose proof (wf_lookup_subscribers m event_id Hwf Hid) as Hlen. fold tbl in Hlen.
    pose proof (table_inv_lookup m event_id Hwf Hinv Hid) as (Hcnt & _).
    fold tbl in Hcnt.
    pose proof (subscribers_inv_total_bounds m event_id Hwf Hinv Hid) as Hb.
    destruct (em_subscribe_cases m event_id callback user_data priority Hwf)
      as [Hsame|(_ & _ & _ & _ & _ & i & Hfree & Hcall)].
    + exfalso. unfold em_subscribe in Hsame.
      destruct (Z.eqb_spec callback NULL) as [|_]; [done|].
      destruct (N.leb_spec EM_MAX_EVENT_TYPES event_id) as [|_]; [lia|].
      destruct (N.leb_spec EM_PRIORITY_COUNT priority) as [|_]; [lia|].
      fold tbl in Hsame.
      destruct (Z.leb_spec EM_MAX_SUBSCRIBERS (sl_count tbl)) as [|_]; [lia|].
      apply (scan_is_subscribed_None m event_id callback Hwf Hid) in Hno.
      fold tbl in Hno. rewrite Hno in Hsame.
      destruct (scan is_free _ _ _) as [j|] eqn:Hscan.
      * cbn in Hsame. apply (inj Some) in Hsame.
        apply (f_equal (fun x => subscribers_total (stats x))) in Hsame.
        cbn in Hsame. rewrite u32_small in Hsame; [lia|]. unfold is_u32. lia.
      * rewrite scan_None in Hscan.
        destruct (exists_free_slot (subscribers tbl)) as (j & Hj & Hfreej).
        { unfold active_slots in Hcnt. unfold EM_MAX_SUBSCRIBERS in *. lia. }
        specialize (Hscan j ltac:(lia)). unfold is_free in Hscan.
        rewrite Hfreej in Hscan. done.
    + rewrite Hcall. eexists. split; [reflexivity|].
      fold tbl in Hfree. apply scan_Some in Hfree as (Hi & Hfreei & _).
      unfold is_free in Hfreei. apply negb_true_iff in Hfreei.
      pose proof Hwf as (Hlen64 & _).
      cbn [set_stats set_event_subscribers event_subscribers stats async_queues
           subscribers_total].
      rewrite list_lookup_total_insert_eq by lia. fold tbl.
      cbn [sl_count sorted]. split_and!; try done.
      * unfold active_slots. cbn [subscribers]. apply list_elem_of_filter.
        split; [done|]. apply list_elem_of_lookup. exists i.
        apply list_lookup_insert_eq. lia.
      * rewrite u32_small; [done|]. unfold is_u32. lia.
      * intros e He. by rewrite list_lookup_total_insert_ne.
Qed.

Lemma subscribe_new_callback_witness :
  ∃ m m', em_run quiet (map (fun c => OpSubscribe 0 (Z.of_nat c) 0 1) (seq 1 15))
                 (em_create true, ∅) = Some (Some m, ∅) ∧
          em_subscribe (Some m) 0 99 7 2 = (EM_OK, Some m') ∧
          em_get_subscriber_count (Some m') 0 = 16.
Proof.
  assert (Hm : ∃ m, em_run quiet (map (fun c => OpSubscribe 0 (Z.of_nat c) 0 1) (seq 1 15))
                           (em_create true, ∅) = Some (Some m, ∅) ∧
                    wf_manager m ∧ subscribers_inv m ∧
                    ¬ has_active_slot m 0 99 ∧
                    sl_count (event_subscribers m !!! N.to_nat 0) = 15).
  { eexists. split; [vm_compute; reflexivity|].
    split; [apply (bool_decide_unpack _); vm_compute; exact I|].
    split; [apply (bool_decide_unpack _); vm_compute; exact I|].
    split; [apply (bool_decide_unpack _); vm_compute; exact I|vm_compute; reflexivity]. }
  destruct Hm as (m & Hrun & Hwf & Hinv & Hno & Hcount).
  destruct (subscribe_new_callback m 0 99 7 2 Hwf Hinv) as (_ & Hok);
    [discriminate|reflexivity|reflexivity|exact Hno|].
  destruct Hok as (m' & Hcall & _ & Hcount' & _).
  { rewrite Hcount. reflexivity. }
  exists m, m'. split; [exact Hrun|]. split; [exact Hcall|].
  unfold em_get_subscriber_count. cbn [N.leb]. rewrite Hcount', Hcount. reflexivity.
Defined.

(** X5: on a well-formed manager whose tables keep their invariant,
    [em_unsubscribe] with a valid callback and event id returns
    [EM_ERR_NOT_FOUND] and changes nothing when the callback holds no active
    slot; otherwise it returns [EM_OK], the callback holds no active slot
    afterwards, every other callback keeps its subscription, the count and
    [subscribers_total] drop by one, and the sorted flag, the other events
    and the queues are untouched. *)
Theorem unsubscribe_removes (m : em_manager) (event_id : N) (callback : Z) :
  wf_manager m → subscribers_inv m →
  callback ≠ NULL → (event_id < EM_MAX_EVENT_TYPES)%N →
  let tbl := event_subscribers m !!! N.to_nat event_id in
  (¬ has_active_slot m event_id callback →
   em_unsubscribe (Some m) event_id callback = (EM_ERR_NOT_FOUND, Some m)) ∧
  (has_active_slot m event_id callback →
   ∃ m', em_unsubscribe (Some m) event_id callback = (EM_OK, Some m') ∧
         let tbl' := event_subscribers m' !!! N.to_nat event_id in
         ¬ has_active_slot m' event_id callback ∧
         (∀ c', c' ≠ callback →
                has_active_slot m' event_id c' ↔ has_active_slot m event_id c') ∧
         sl_count tbl' = sl_count tbl - 1 ∧ sorted tbl' = sorted tbl ∧
         subscribers_total (stats m') = subscribers_total (stats m) - 1 ∧
         (∀ e, e ≠ N.to_nat event_id →
               event_subscribers m' !!! e = event_subscribers m !!! e) ∧
         async_queues m' = async_queues m).
Proof.
  intros Hwf Hinv Hc Hid tbl. split.
  - intros Hno. unfold em_unsubscribe.
    destruct (Z.eqb_spec callback NULL) as [|_]; [done|].
    destruct (N.leb_spec EM_MAX_EVENT_TYPES event_id) as [|_]; [lia|].
    apply (scan_is_subscribed_None m event_id callback Hwf Hid) in Hno.
    by rewrite Hno.
  - intros Hhas.
    pose proof (wf_lookup_subscribers m event_id Hwf Hid) as Hlen. fold tbl in Hlen.
    pose proof (table_inv_lookup m event_id Hwf Hinv Hid) as (Hcnt & Hnd & _).
    fold tbl in Hcnt, Hnd.
    pose proof (subscribers_inv_total_bounds m event_id Hwf Hinv Hid) as Hb.
    fold tbl in Hb.
    destruct (em_unsubscribe_cases m event_id callback Hwf)
      as [Hsame|(_ & _ & i & Hscan & Hcall)].
    { exfalso. unfold em_unsubscribe in Hsame.
      destruct (Z.eqb_spec callback NULL) as [|_]; [done|].
      destruct (N.leb_spec EM_MAX_EVENT_TYPES event_id) as [|_]; [lia|].
      fold tbl in Hsame.
      destruct (scan (is_subscribed callback) _ _ _) as [j|] eqn:Hscan.
      - cbn in Hsame. apply (inj Some) in Hsame.
        apply (f_equal (fun x => sl_count (event_subscribers x !!! N.to_nat event_id)))
          in Hsame.
        cbn in Hsame. destruct Hwf as (Hlen64 & _).
        rewrite list_lookup_total_insert_eq in Hsame by lia. cbn in Hsame.
        fold tbl in Hsame. lia.
      - by apply (scan_is_subscribed_None m event_id callback Hwf Hid) in Hscan. }
    fold tbl in Hscan. apply scan_Some in Hscan as (Hi & Hsub & _).
    apply is_subscribed_true in Hsub as (Hact & Hcb).
    pose proof Hwf as (Hlen64 & _).
    set (slot := mk_subscriber NULL NULL (sub_priority (subscribers tbl !!! i)) false).
    set (tbl' := mk_list (<[i := slot]> (subscribers tbl)) (sl_count tbl - 1)
                         (sorted tbl)).
    set (m' := set_stats (set_event_subscribers m (N.to_nat event_id) tbl')
                 (mk_stats (events_published (stats m)) (events_processed (stats m))
                    (async_queue_current (stats m)) (async_queue_max (stats m))
                    (u32 (subscribers_total (stats m) - 1)))).
    assert (Htbl' : event_subscribers m' !!! N.to_nat event_id = tbl').
    { cbn. apply list_lookup_total_insert_eq. lia. }
    assert (Hperm : active_slots tbl ≡ₚ subscribers tbl !!! i :: active_slots tbl').
    { unfold active_slots at 2. cbn [subscribers tbl'].
      apply filter_insert_inactive; [lia|done|done]. }
    exists m'. split; [exact Hcall|]. cbv zeta. rewrite Htbl'.
    rewrite Hperm in Hnd, Hcnt. cbn [map length] in Hnd, Hcnt. rewrite Hcb in Hnd.
    apply NoDup_cons in Hnd as (Hnotin & _).
    split_and!; try done.
    + by rewrite has_active_slot_callbacks, Htbl'.
    + intros c' Hc'. rewrite !has_active_slot_callbacks, Htbl'. fold tbl.
      rewrite Hperm. cbn [map]. rewrite Hcb. rewrite elem_of_cons.
      split; [by right|intros [?|?]; done].
    + cbn. rewrite u32_small; [done|]. unfold is_u32. lia.
    + intros e He. cbn. by rewrite list_lookup_total_insert_ne.
Qed.

Lemma unsubscribe_removes_witness :
  ∃ m m', em_run quiet [OpSubscribe 3 100 0 1; OpSubscribe 3 200 0 0] (em_create true, ∅)
            = Some (Some m, ∅) ∧
          em_unsubscribe (Some m) 3 100 = (EM_OK, Some m') ∧
          em_get_subscriber_count (Some m') 3 = 1 ∧
          has_active_slot m' 3 200.
Proof.
  assert (Hm : ∃ m, em_run quiet [OpSubscribe 3 100 0 1; OpSubscribe 3 200 0 0]
                           (em_create true, ∅) = Some (Some m, ∅) ∧
                    wf_manager m ∧ subscribers_inv m ∧
                    has_active_slot m 3 100 ∧ has_active_slot m 3 200 ∧
                    sl_count (event_subscribers m !!! N.to_nat 3) = 2).
  { eexists. split; [vm_compute; reflexivity|].
    split; [apply (bool_decide_unpack _); vm_compute; exact I|].
    split; [apply (bool_decide_unpack _); vm_compute; exact I|].
    split; [apply (bool_decide_unpack _); vm_compute; exact I|].
    split; [apply (bool_decide_unpack _); vm_compute; exact I|vm_compute; reflexivity]. }
  destruct Hm as (m & Hrun & Hwf & Hinv & Hhas & Hother & Hcount).
  destruct (unsubscribe_removes m 3 100 Hwf Hinv) as (_ & Hok);
    [discriminate|reflexivity|].
  destruct (Hok Hhas) as (m' & Hcall & _ & Hkeep & Hcount' & _).
  exists m, m'. split; [exact Hrun|]. split; [exact Hcall|]. split.
  - unfold em_get_subscriber_count. cbn [N.leb]. rewrite Hcount', Hcount. reflexivity.
  - apply Hkeep; [discriminate|exact Hother].
Defined.

(** X6: [em_unsubscribe_all] rejects an event id out of range without
    changing anything. For a valid one, on a well-formed manager whose
    tables keep their invariant, it returns [EM_OK]; afterwards the event has
    count 0, no callback holds an active slot, the table is flagged sorted,
    [subscribers_total] has dropped by the former count, a dispatch of the
    event calls nothing, and the other events and the queues are
    untouched. *)
Theorem unsubscribe_all_clears (m : em_manager) (event_id : N) :
  wf_manager m → subscribers_inv m →
  ((EM_MAX_EVENT_TYPES ≤ event_id)%N →
   em_unsubscribe_all (Some m) event_id = (EM_ERR_INVALID_PARAM, Some m)) ∧
  ((event_id < EM_MAX_EVENT_TYPES)%N →
   ∃ m', em_unsubscribe_all (Some m) event_id = (EM_OK, Some m') ∧
         em_get_subscriber_count (Some m') event_id = 0 ∧
         em_has_subscribers (Some m') event_id = false ∧
         (∀ c, ¬ has_active_slot m' event_id c) ∧
         sorted (event_subscribers m' !!! N.to_nat event_id) = true ∧
         subscribers_total (stats m')
         = subscribers_total (stats m)
           - sl_count (event_subscribers m !!! N.to_nat event_id) ∧
         (∀ cb data mem, snd (dispatch_event cb m' event_id data mem) = []) ∧
         (∀ e, e ≠ N.to_nat event_id →
               event_subscribers m' !!! e = event_subscribers m !!! e) ∧
         async_queues m' = async_queues m).
Proof.
  intros Hwf Hinv. split.
  - intros Hid. unfold em_unsubscribe_all. apply N.leb_le in Hid. by rewrite Hid.
  - intros Hid. rewrite em_unsubscribe_all_ok by done. eexists. split; [reflexivity|].
    set (tbl := event_subscribers m !!! N.to_nat event_id) in *.
    pose proof (wf_lookup_subscribers m event_id Hwf Hid) as Hlen. fold tbl in Hlen.
    pose proof (table_inv_lookup m event_id Hwf Hinv Hid) as (Hcnt & _).
    fold tbl in Hcnt.
    pose proof (subscribers_inv_total_bounds m event_id Hwf Hinv Hid) as Hb.
    fold tbl in Hb. pose proof Hwf as (Hlen64 & _).
    assert (Hcount0 : em_get_subscriber_count
              (Some (set_stats
                 (set_event_subscribers m (N.to_nat event_id)
                    (mk_list (map clear_slot (subscribers tbl)) 0 true))
                 (mk_stats (events_published (stats m)) (events_processed (stats m))
                    (async_queue_current (stats m)) (async_queue_max (stats m))
                    (Nat.iter (length (active_slots tbl)) (fun t => u32 (t - 1))
                       (subscribers_total (stats m)))))) event_id = 0).
    { unfold em_get_subscriber_count.
      destruct (N.leb_spec EM_MAX_EVENT_TYPES event_id) as [|_]; [lia|].
      cbn [set_stats set_event_subscribers event_subscribers].
      by rewrite list_lookup_total_insert_eq by lia. }
    split; [done|]. split; [unfold em_has_subscribers; by rewrite Hcount0|].
    split_and!.
    + intros c. rewrite has_active_slot_callbacks.
      cbn [set_stats set_event_subscribers event_subscribers].
      rewrite list_lookup_total_insert_eq by lia.
      unfold active_slots. cbn [subscribers]. rewrite filter_active_clear.
      cbn. apply not_elem_of_nil.
    + cbn [set_stats set_event_subscribers event_subscribers].
      by rewrite list_lookup_total_insert_eq by lia.
    + cbn. rewrite iter_u32_pred; [lia| |lia]. unfold is_u32. lia.
    + intros cb data mem. rewrite dispatch_event_eq. cbn [snd]. unfold dispatch_prepare.
      destruct (N.leb_spec EM_MAX_EVENT_TYPES event_id) as [|_]; [lia|].
      cbn [dispatch_snapshot snd set_stats set_event_subscribers event_subscribers].
      rewrite list_lookup_total_insert_eq by lia. cbn [sorted negb subscribers].
      rewrite <- Hlen, <- (length_map clear_slot), copy_active_all, filter_active_clear.
      done.
    + intros e He. cbn. by rewrite list_lookup_total_insert_ne.
    + done.
Qed.

Lemma unsubscribe_all_clears_witness :
  ∃ m m', em_run quiet [OpSubscribe 3 100 0 1; OpSubscribe 3 200 0 0; OpSubscribe 4 100 0 2]
                 (em_create true, ∅) = Some (Some m, ∅) ∧
          em_unsubscribe_all (Some m) 3 = (EM_OK, Some m') ∧
          em_get_subscriber_count (Some m') 3 = 0 ∧
          subscribers_total (stats m') = 1.
Proof.
  assert (Hm : ∃ m, em_run quiet [OpSubscribe 3 100 0 1; OpSubscribe 3 200 0 0;
                            OpSubscribe 4 100 0 2] (em_create true, ∅) = Some (Some m, ∅) ∧
                    wf_manager m ∧ subscribers_inv m ∧
                    subscribers_total (stats m) = 3 ∧
                    sl_count (event_subscribers m !!! N.to_nat 3) = 2).
  { eexists. split; [vm_compute; reflexivity|].
    split; [apply (bool_decide_unpack _); vm_compute; exact I|].
    split; [apply (bool_decide_unpack _); vm_compute; exact I|].
    split; vm_compute; reflexivity. }
  destruct Hm as (m & Hrun & Hwf & Hinv & Htotal & Hcount).
  destruct (unsubscribe_all_clears m 3 Hwf Hinv) as (_ & Hok).
  destruct (Hok eq_refl) as (m' & Hcall & Hzero & _ & _ & _ & Htotal' & _).
  exists m, m'. split; [exact Hrun|]. split; [exact Hcall|]. split; [exact Hzero|].
  rewrite Htotal', Htotal, Hcount. reflexivity.
Defined.

(** ** Clearing and destroying *)

Lemma lookup_free_all ps mem (p : Z) :
  free_all ps mem !! p = if decide (p ≠ NULL ∧ p ∈ ps) then None else mem !! p.
Proof.
  unfold free_all. revert mem. induction ps as [|a ps IH]; intros mem; cbn [fold_left].
  - case_decide as H; [|done]. destruct H as (_ & H). by apply elem_of_nil in H.
  - rewrite IH. destruct (Z.eqb_spec a NULL) as [Ha|Ha]; cbn [negb].
    + repeat case_decide; try done.
      * exfalso. destruct H as (Hp & Hin). apply H0. split; [done|]. by right.
      * exfalso. destruct H0 as (Hp & Hin). apply elem_of_cons in Hin as [->|Hin]; [done|].
        by apply H.
    + unfold free. repeat case_decide; try done.
      * exfalso. destruct H as (Hp & Hin). apply H0. split; [done|]. by right.
      * destruct H0 as (Hp & Hin). apply elem_of_cons in Hin as [->|Hin].
        -- apply lookup_delete_eq.
        -- exfalso. by apply H.
      * rewrite lookup_delete_ne; [done|]. intros ->. apply H0.
        split; [|by left]. intros ->. by apply H0.
Qed.

Lemma clear_nodes_app front l mem :
  clear_nodes (front ++ l) mem (length front) (length l)
  = (front ++ map clear_node l, free_all (map node_data_copy l) mem).
Proof.
  revert front mem. induction l as [|x l IH]; intros front mem.
  - cbn. by rewrite app_nil_r.
  - cbn [length clear_nodes map].
    rewrite lookup_total_app_r by lia. rewrite Nat.sub_diag.
    change ((x :: l) !!! 0%nat) with x.
    rewrite insert_app_r_alt by lia. rewrite Nat.sub_diag. cbn [insert list_insert].
    replace (front ++ mk_node (node_event x) NULL false :: l)
      with ((front ++ [clear_node x]) ++ l) by (by rewrite <- app_assoc).
    replace (S (length front)) with (length (front ++ [clear_node x]))
      by (rewrite length_app; cbn; lia).
    rewrite IH. by rewrite <- app_assoc.
Qed.

Lemma destroy_nodes_app front l mem :
  snd (destroy_nodes (front ++ l) mem (length front) (length l))
  = free_all (map node_data_copy l) mem.
Proof.
  revert front mem. induction l as [|x l IH]; intros front mem; [done|].
  cbn [length destroy_nodes map].
  rewrite lookup_total_app_r by lia. rewrite Nat.sub_diag.
  change ((x :: l) !!! 0%nat) with x.
  unfold free_all. cbn [fold_left]. fold (free_all (map node_data_copy l)).
  destruct (negb (node_data_copy x =? NULL)).
  - rewrite insert_app_r_alt by lia. rewrite Nat.sub_diag. cbn [insert list_insert].
    set (x' := mk_node (node_event x) NULL (node_used x)).
    replace (front ++ x' :: l) with ((front ++ [x']) ++ l) by (by rewrite <- app_assoc).
    replace (S (length front)) with (length (front ++ [x']))
      by (rewrite length_app; cbn; lia).
    apply IH.
  - replace (front ++ x :: l) with ((front ++ [x]) ++ l) by (by rewrite <- app_assoc).
    replace (S (length front)) with (length (front ++ [x]))
      by (rewrite length_app; cbn; lia).
    apply IH.
Qed.

Lemma free_all_app ps1 ps2 mem :
  free_all (ps1 ++ ps2) mem = free_all ps2 (free_all ps1 mem).
Proof. unfold free_all. by rewrite fold_left_app. Qed.

Lemma clear_queues_app front qs mem :
  Forall wf_queue qs →
  clear_queues (front ++ qs) mem (length front) (length qs)
  = (front ++ map (fun q => mk_queue (map clear_node (q_nodes q)) 0 0 0) qs,
     free_all (concat (map (fun q => map node_data_copy (q_nodes q)) qs)) mem).
Proof.
  intros Hwf. revert front mem. induction Hwf as [|q qs Hq _ IH]; intros front mem.
  - cbn. by rewrite app_nil_r.
  - cbn [length clear_queues map concat].
    rewrite lookup_total_app_r by lia. rewrite Nat.sub_diag.
    change ((q :: qs) !!! 0%nat) with q.
    destruct Hq as (Hlen & _). rewrite <- Hlen.
    pose proof (clear_nodes_app [] (q_nodes q) mem) as Hn. cbn [app length] in Hn.
    rewrite Hn.
    rewrite insert_app_r_alt by lia. rewrite Nat.sub_diag. cbn [insert list_insert].
    set (q' := mk_queue (map clear_node (q_nodes q)) 0 0 0).
    replace (front ++ q' :: qs) with ((front ++ [q']) ++ qs) by (by rewrite <- app_assoc).
    replace (S (length front)) with (length (front ++ [q']))
      by (rewrite length_app; cbn; lia).
    rewrite IH. rewrite <- app_assoc. by rewrite free_all_app.
Qed.

Lemma destroy_queues_app front qs mem :
  Forall wf_queue qs →
  snd (destroy_queues (front ++ qs) mem (length front) (length qs))
  = free_all (concat (map (fun q => map node_data_copy (q_nodes q)) qs)) mem.
Proof.
  intros Hwf. revert front mem. induction Hwf as [|q qs Hq _ IH]; intros front mem.
  - done.
  - cbn [length destroy_queues map concat].
    rewrite lookup_total_app_r by lia. rewrite Nat.sub_diag.
    change ((q :: qs) !!! 0%nat) with q.
    destruct Hq as (Hlen & _). rewrite <- Hlen.
    pose proof (destroy_nodes_app [] (q_nodes q) mem) as Hn. cbn [app length] in Hn.
    destruct (destroy_nodes (q_nodes q) mem 0 (length (q_nodes q))) as [nodes' mem'].
    cbn [snd] in Hn. subst mem'.
    rewrite insert_app_r_alt by lia. rewrite Nat.sub_diag. cbn [insert list_insert].
    set (q' := mk_queue nodes' (q_head q) (q_tail q) (q_count q)).
    replace (front ++ q' :: qs) with ((front ++ [q']) ++ qs) by (by rewrite <- app_assoc).
    replace (S (length front)) with (length (front ++ [q']))
      by (rewrite length_app; cbn; lia).
    rewrite IH. by rewrite free_all_app.
Qed.

(** What [em_clear_queue] does to the queues, the heap and the statistics. *)
Lemma em_clear_queue_spec (m : em_manager) (mem : gmap Z (list Z)) :
  wf_manager m →
  ∃ m', em_clear_queue (Some m) mem = (EM_OK, Some m', free_all (node_copies m) mem) ∧
    (∀ p : Z, free_all (node_copies m) mem !! p
              = if decide (p ≠ NULL ∧ p ∈ node_copies m) then None else mem !! p) ∧
    wf_manager m' ∧
    (∀ i, (i < N.to_nat EM_PRIORITY_COUNT)%nat →
          queue_contents (async_queues m' !!! i) = []) ∧
    Forall (fun p => p = NULL) (node_copies m') ∧
    em_get_queue_size (Some m') = 0 ∧
    async_queue_current (stats m') = 0 ∧
    event_subscribers m' = event_subscribers m ∧
    events_published (stats m') = events_published (stats m) ∧
    events_processed (stats m') = events_processed (stats m) ∧
    async_queue_max (stats m') = async_queue_max (stats m) ∧
    subscribers_total (stats m') = subscribers_total (stats m).
Proof.
  intros Hwf. pose proof Hwf as (Hl1 & Hs & Hlen & Hq & Hst).
  unfold em_clear_queue.
  pose proof (clear_queues_app [] (async_queues m) mem Hq) as Hloop.
  cbn [app length] in Hloop. rewrite Hlen in Hloop. rewrite Hloop.
  eexists. split; [reflexivity|].
  split; [intros p; apply lookup_free_all|].
  assert (Hqs : Forall (fun q => wf_queue q ∧ queue_contents q = [] ∧ q_count q = 0 ∧
                                 Forall (fun n => node_data_copy n = NULL) (q_nodes q))
                  (map (fun q => mk_queue (map clear_node (q_nodes q)) 0 0 0)
                       (async_queues m))).
  { apply Forall_map. eapply Forall_impl; [exact Hq|]. intros q (Hn & _).
    cbv beta. split; [|split; [|split]].
    - unfold wf_queue. cbn [q_nodes q_head q_tail q_count]. rewrite length_map.
      split; [exact Hn|]. unfold EM_ASYNC_QUEUE_SIZE. split; [lia|]. split; [lia|].
      reflexivity.
    - reflexivity.
    - reflexivity.
    - cbn [q_nodes]. apply Forall_map. apply Forall_true. intros n. reflexivity. }
  assert (Hlen' : length (map (fun q => mk_queue (map clear_node (q_nodes q)) 0 0 0)
                              (async_queues m)) = N.to_nat EM_PRIORITY_COUNT).
  { by rewrite length_map. }
  cbn [async_queues stats event_subscribers events_published events_processed
       async_queue_current async_queue_max subscribers_total].
  split; [|split; [|split; [|split; [|split; [|repeat split]]]]].
  - unfold wf_manager.
    cbn [async_queues stats event_subscribers]. split; [exact Hl1|].
    split; [exact Hs|]. split; [exact Hlen'|]. split.
    + eapply Forall_impl; [exact Hqs|]. by intros q (? & _).
    + destruct Hst as (? & ? & ? & ? & ?). unfold wf_stats, is_u32 in *.
      cbn [events_published events_processed async_queue_current async_queue_max
           subscribers_total].
      repeat split; try tauto; lia.
  - intros i Hi.
    apply (Forall_lookup_total_1 _ _ i) in Hqs as (_ & Hc & _); [exact Hc|].
    rewrite Hlen'. exact Hi.
  - unfold node_copies. cbn [async_queues]. apply Forall_concat, Forall_map.
    eapply Forall_impl; [exact Hqs|]. cbv beta.
    intros q (_ & _ & _ & Hn). apply Forall_map. exact Hn.
  - unfold em_get_queue_size. cbn [async_queues].
    change (N.to_nat EM_PRIORITY_COUNT) with 3%nat in *. cbn [sum_counts_int].
    pose proof (Forall_lookup_total_1 _ _ 0 Hqs) as (_ & _ & H0 & _);
      [rewrite Hlen'; lia|].
    pose proof (Forall_lookup_total_1 _ _ 1 Hqs) as (_ & _ & H1 & _);
      [rewrite Hlen'; lia|].
    pose proof (Forall_lookup_total_1 _ _ 2 Hqs) as (_ & _ & H2 & _);
      [rewrite Hlen'; lia|].
    rewrite H0, H1, H2. reflexivity.
  - reflexivity.
Qed.

(** X7: on a well-formed manager [em_clear_queue] returns [EM_OK], frees
    exactly the non-[NULL] [data_copy] pointers stored in the queue nodes
    (their blocks leave the heap, every other block stays), and leaves the
    manager well-formed with three empty queues, no stored copy pointer,
    queue size 0 and [async_queue_current] 0; the subscriber tables and the
    other statistics are untouched. *)
Theorem clear_queue_frees (m : em_manager) (mem : gmap Z (list Z)) :
  wf_manager m →
  ∃ m', em_clear_queue (Some m) mem = (EM_OK, Some m', free_all (node_copies m) mem) ∧
    (∀ p : Z, free_all (node_copies m) mem !! p
              = if decide (p ≠ NULL ∧ p ∈ node_copies m) then None else mem !! p) ∧
    wf_manager m' ∧
    (∀ i, (i < N.to_nat EM_PRIORITY_COUNT)%nat →
          queue_contents (async_queues m' !!! i) = []) ∧
    Forall (fun p => p = NULL) (node_copies m') ∧
    em_get_queue_size (Some m') = 0 ∧
    async_queue_current (stats m') = 0 ∧
    event_subscribers m' = event_subscribers m ∧
    events_published (stats m') = events_published (stats m) ∧
    events_processed (stats m') = events_processed (stats m) ∧
    async_queue_max (stats m') = async_queue_max (stats m) ∧
    subscribers_total (stats m') = subscribers_total (stats m).
Proof. apply em_clear_queue_spec. Qed.

Lemma clear_queue_frees_witness :
  ∃ m mem m',
    em_run quiet [OpPublishAsync 77 0 5 2 1; OpPublishAsync 0 1 0 0 0]
           (em_create true, {[ 5 := [1; 2; 3] ]}) = Some (Some m, mem) ∧
    em_clear_queue (Some m) mem = (EM_OK, Some m', {[ 5 := [1; 2; 3] ]}) ∧
    em_get_queue_size (Some m') = 0.
Proof.
  assert (Hw : ∃ m mem,
            em_run quiet [OpPublishAsync 77 0 5 2 1; OpPublishAsync 0 1 0 0 0]
                   (em_create true, {[ 5 := [1; 2; 3] ]}) = Some (Some m, mem) ∧
            wf_manager m ∧
            free_all (node_copies m) mem = {[ 5 := [1; 2; 3] ]}).
  { eexists _, _. split; [vm_compute; reflexivity|].
    split; [apply (bool_decide_unpack _); vm_compute; exact I|].
    vm_compute. reflexivity. }
  destruct Hw as (m & mem & Hw & Hwf & Hfree).
  destruct (clear_queue_frees m mem Hwf) as (m' & Hcall & _ & _ & _ & _ & Hsize & _).
  exists m, mem, m'. split; [exact Hw|]. split; [|exact Hsize].
  rewrite Hcall, Hfree. reflexivity.
Defined.

(** X8: [em_destroy] rejects a [NULL] handle; on a well-formed manager it
    returns [EM_OK] and leaves the heap exactly as [em_clear_queue] would:
    the non-[NULL] [data_copy] pointers stored in the queue nodes are freed,
    every other block stays. *)
Theorem destroy_frees_like_clear (m : em_manager) (mem : gmap Z (list Z)) :
  wf_manager m →
  em_destroy None mem = (EM_ERR_INVALID_PARAM, None, mem) ∧
  em_destroy (Some m) mem = (EM_OK, None, free_all (node_copies m) mem) ∧
  snd (em_destroy (Some m) mem) = snd (em_clear_queue (Some m) mem) ∧
  (∀ p : Z, snd (em_destroy (Some m) mem) !! p
            = if decide (p ≠ NULL ∧ p ∈ node_copies m) then None else mem !! p).
Proof.
  intros Hwf. pose proof Hwf as (_ & _ & Hlen & Hq & _).
  assert (Hd : em_destroy (Some m) mem = (EM_OK, None, free_all (node_copies m) mem)).
  { unfold em_destroy. cbn [set_running async_queues].
    pose proof (destroy_queues_app [] (async_queues m) mem Hq) as Hloop.
    cbn [app length] in Hloop. rewrite Hlen in Hloop.
    destruct (destroy_queues (async_queues m) mem 0 (N.to_nat EM_PRIORITY_COUNT))
      as [queues' mem'].
    cbn [snd] in Hloop. by subst mem'. }
  split; [done|]. split; [done|]. rewrite Hd. cbn [snd]. split.
  - destruct (em_clear_queue_spec m mem Hwf) as (m' & -> & _). done.
  - intros p. apply lookup_free_all.
Qed.

Lemma destroy_frees_like_clear_witness :
  ∃ m mem,
    em_run quiet [OpPublishAsync 77 0 5 2 1; OpPublishAsync 0 1 0 0 0]
           (em_create true, {[ 5 := [1; 2; 3] ]}) = Some (Some m, mem) ∧
    em_destroy (Some m) mem = (EM_OK, None, {[ 5 := [1; 2; 3] ]}).
Proof.
  assert (Hw : ∃ m mem,
            em_run quiet [OpPublishAsync 77 0 5 2 1; OpPublishAsync 0 1 0 0 0]
                   (em_create true, {[ 5 := [1; 2; 3] ]}) = Some (Some m, mem) ∧
            wf_manager m ∧
            free_all (node_copies m) mem = {[ 5 := [1; 2; 3] ]}).
  { eexists _, _. split; [vm_compute; reflexivity|].
    split; [apply (bool_decide_unpack _); vm_compute; exact I|].
    vm_compute. reflexivity. }
  destruct Hw as (m & mem & Hw & Hwf & Hfree).
  destruct (destroy_frees_like_clear m mem Hwf) as (_ & Hcall & _).
  exists m, mem. split; [exact Hw|]. rewrite Hcall, Hfree. reflexivity.
Defined.

(** ** Queue size and draining *)

Lemma em_get_queue_size_count_sum m : em_get_queue_size (Some m) = count_sum m.
Proof.
  unfold em_get_queue_size, count_sum.
  change (N.to_nat EM_PRIORITY_COUNT) with 3%nat.
  change (N.to_nat EM_PRIORITY_HIGH) with 0%nat.
  change (N.to_nat EM_PRIORITY_NORMAL) with 1%nat.
  change (N.to_nat EM_PRIORITY_LOW) with 2%nat.
  cbn [sum_counts_int]. lia.
Qed.

Lemma length_queue_contents q :
  0 ≤ q_count q → Z.of_nat (length (queue_contents q)) = q_count q.
Proof. intros Hq. unfold queue_contents. rewrite length_map, length_seq. lia. Qed.

(** X9: in every state a freshly created manager reaches, whatever its
    callbacks do through the API, [em_get_queue_size] is the number of
    queued events (the total length of the three queues), equals the
    statistic [async_queue_current], and lies between 0 and three times the
    ring capacity; for a [NULL] handle it is -1. *)
Theorem queue_size_is_gauge (cb : em_callbacks) (ops : list em_op)
    (m : em_manager) (mem : gmap Z (list Z)) :
  api_callbacks cb →
  em_run cb ops (em_create true, ∅) = Some (Some m, mem) →
  em_get_queue_size (Some m) = async_queue_current (stats m) ∧
  em_get_queue_size (Some m)
  = Z.of_nat (length (queue_contents (async_queues m !!! 0%nat)) +
              length (queue_contents (async_queues m !!! 1%nat)) +
              length (queue_contents (async_queues m !!! 2%nat))) ∧
  0 ≤ em_get_queue_size (Some m) ≤ 3 * EM_ASYNC_QUEUE_SIZE ∧
  em_get_queue_size None = -1.
Proof.
  intros Hcb Hrun.
  destruct (queue_stats_em_run cb ops m mem Hcb Hrun) as (Hwf & Hinv & _).
  rewrite em_get_queue_size_count_sum.
  pose proof (wf_lookup_queue m 0 Hwf ltac:(unfold EM_PRIORITY_COUNT; lia))
    as (_ & _ & H0 & _).
  pose proof (wf_lookup_queue m 1 Hwf ltac:(unfold EM_PRIORITY_COUNT; lia))
    as (_ & _ & H1 & _).
  pose proof (wf_lookup_queue m 2 Hwf ltac:(unfold EM_PRIORITY_COUNT; lia))
    as (_ & _ & H2 & _).
  split; [done|]. split; [|split; [|done]].
  - rewrite !Nat2Z.inj_add, !length_queue_contents by lia. done.
  - unfold count_sum.
    change (N.to_nat EM_PRIORITY_HIGH) with 0%nat.
    change (N.to_nat EM_PRIORITY_NORMAL) with 1%nat.
    change (N.to_nat EM_PRIORITY_LOW) with 2%nat. lia.
Qed.

Lemma queue_size_is_gauge_witness :
  ∃ m, em_run calling_back
              [OpSubscribe 5 100 0 1; OpPublishSync 5 0; OpPublishAsync 0 0 0 0 2;
               OpResetStats; OpPublishAsync 0 0 0 0 9]
              (em_create true, ∅) = Some (Some m, ∅) ∧
       em_get_queue_size (Some m) = 2 ∧ async_queue_current (stats m) = 2.
Proof.
  eexists. split; [vm_compute; reflexivity|].
  match goal with
  | |- em_get_queue_size (Some ?m) = _ ∧ _ =>
    destruct (queue_size_is_gauge calling_back
                [OpSubscribe 5 100 0 1; OpPublishSync 5 0; OpPublishAsync 0 0 0 0 2;
                 OpResetStats; OpPublishAsync 0 0 0 0 9] m ∅
                api_callbacks_calling_back) as (Heq & _)
  end.
  - vm_compute. reflexivity.
  - split; [|rewrite <- Heq]; vm_compute; reflexivity.
Defined.

Lemma count_sum_nonneg m :
  wf_manager m →
  0 ≤ count_sum m ≤ 3 * EM_ASYNC_QUEUE_SIZE ∧
  ∀ i, (i < N.to_nat EM_PRIORITY_COUNT)%nat →
       0 ≤ q_count (async_queues m !!! i) ≤ count_sum m.
Proof.
  intros Hwf.
  pose proof (wf_lookup_queue m 0 Hwf ltac:(unfold EM_PRIORITY_COUNT; lia))
    as (_ & _ & H0 & _).
  pose proof (wf_lookup_queue m 1 Hwf ltac:(unfold EM_PRIORITY_COUNT; lia))
    as (_ & _ & H1 & _).
  pose proof (wf_lookup_queue m 2 Hwf ltac:(unfold EM_PRIORITY_COUNT; lia))
    as (_ & _ & H2 & _).
  unfold count_sum.
  change (N.to_nat EM_PRIORITY_COUNT) with 3%nat.
  change (N.to_nat EM_PRIORITY_HIGH) with 0%nat.
  change (N.to_nat EM_PRIORITY_NORMAL) with 1%nat.
  change (N.to_nat EM_PRIORITY_LOW) with 2%nat.
  split; [lia|]. intros [|[|[|i]]] Hi; lia.
Qed.

(** One call of [em_process_one]: nothing is queued and nothing changes, or
    one event leaves the queues, the callbacks of its dispatch run from
    the manager [m1] with that event taken, and the copy is freed. *)
Lemma em_process_one_cases cb m mem :
  wf_manager m →
  (count_sum m = 0 ∧
   em_process_one cb (Some m) mem = (EM_ERR_QUEUE_EMPTY, Some m, mem, [])) ∨
  (0 < count_sum m ∧
   ∃ m1 data_copy calls,
     (let w := run_callbacks cb calls (Some m1, mem) in
      em_process_one cb (Some m) mem
      = (EM_OK, fst w,
         if negb (data_copy =? NULL) then free data_copy (snd w) else snd w,
         calls)) ∧
     wf_manager m1 ∧ count_sum m1 = count_sum m - 1 ∧
     async_queue_current (stats m1) = count_sum m - 1).
Proof.
  intros Hwf. pose proof (count_sum_nonneg m Hwf) as (Hsum & Hcounts).
  destruct (first_nonempty m (N.to_nat EM_PRIORITY_COUNT))
    as [Hall|(p & Hp & Hpos & Hfirst)].
  - left. split.
    + unfold count_sum.
      pose proof (Hall 0%nat ltac:(unfold EM_PRIORITY_COUNT; lia)).
      pose proof (Hall 1%nat ltac:(unfold EM_PRIORITY_COUNT; lia)).
      pose proof (Hall 2%nat ltac:(unfold EM_PRIORITY_COUNT; lia)).
      pose proof (Hcounts 0%nat ltac:(unfold EM_PRIORITY_COUNT; lia)).
      pose proof (Hcounts 1%nat ltac:(unfold EM_PRIORITY_COUNT; lia)).
      pose proof (Hcounts 2%nat ltac:(unfold EM_PRIORITY_COUNT; lia)).
      change (N.to_nat EM_PRIORITY_HIGH) with 0%nat.
      change (N.to_nat EM_PRIORITY_NORMAL) with 1%nat.
      change (N.to_nat EM_PRIORITY_LOW) with 2%nat. lia.
    + unfold em_process_one. rewrite process_scan_empty; [done|].
      intros q Hq. apply Hall. lia.
  - right. split; [specialize (Hcounts p Hp); lia|].
    pose proof (wf_lookup_queue m p Hwf Hp) as Hq.
    destruct (dequeue_event_ok _ Hq) as (q' & [event data_copy] & Hdeq & Hq' & _); [lia|].
    assert (Hcount : q_count q' = q_count (async_queues m !!! p) - 1).
    { unfold dequeue_event in Hdeq. case_match; by simplify_eq. }
    unfold em_process_one.
    rewrite (process_scan_first m 0 _ p q' (event, data_copy));
      [|lia|intros; apply Hfirst; lia|done|done].
    set (m1 := set_stats _ _).
    assert (Hwf1 : wf_manager m1).
    { apply wf_set_stats; [by apply wf_set_async_queue|].
      destruct Hwf as (_ & _ & _ & _ & (? & ? & ? & ? & ?)).
      unfold wf_stats; cbn -[queue_total]. split_and!; auto using is_u32_queue_total. }
    pose proof (wf_dispatch_prepare m1 (ev_id event) (ev_data event) Hwf1) as Hwf2.
    pose proof (queue_stats_dispatch_prepare m1 (ev_id event) (ev_data event))
      as (Hd & Hcur & _).
    rewrite dispatch_event_eq.
    destruct (dispatch_prepare m1 (ev_id event) (ev_data event)) as [m2 calls].
    cbn [fst snd] in *. exists m2, data_copy, calls. split; [reflexivity|].
    assert (Hsum1 : count_sum m1 = count_sum m - 1).
    { unfold m1. change (count_sum (set_stats ?a ?b)) with (count_sum a).
      rewrite count_sum_set_async_queue by done. lia. }
    split_and!; [done| |].
    + unfold count_sum in *. by rewrite Hd.
    + rewrite Hcur. unfold m1. cbn -[queue_total].
      rewrite queue_total_count_sum by (by apply wf_set_async_queue).
      rewrite count_sum_set_async_queue by done. lia.
Qed.

(** Callbacks that leave the queues as they are keep them so over a whole
    dispatch. *)
Lemma run_callbacks_keep_queues cb calls m mem :
  (∀ c m mem, wf_manager m →
     ∃ m', (cb c (Some m, mem)).1 = Some m' ∧ wf_manager m' ∧
           async_queues m' = async_queues m) →
  wf_manager m →
  ∃ m', (run_callbacks cb calls (Some m, mem)).1 = Some m' ∧ wf_manager m' ∧
        async_queues m' = async_queues m.
Proof.
  intros Hcb. revert m mem. induction calls as [|c calls IH]; intros m mem Hwf.
  - by exists m.
  - cbn. destruct (Hcb c m mem Hwf) as (m1 & Hm1 & Hwf1 & Hq1).
    destruct (cb c (Some m, mem)) as [h1 mem1]. cbn in Hm1. subst h1.
    destruct (IH m1 mem1 Hwf1) as (m' & Hm' & Hwf' & Hq').
    exists m'. split; [done|]. split; [done|]. by rewrite Hq'.
Qed.

Lemma process_all_loop_drains cb fuel m mem count calls :
  (∀ c m mem, wf_manager m →
     ∃ m', (cb c (Some m, mem)).1 = Some m' ∧ wf_manager m' ∧
           async_queues m' = async_queues m) →
  wf_manager m →
  if decide (Z.to_nat (count_sum m) < fuel)%nat then
    ∃ m' mem' calls',
      process_all_loop cb fuel (Some m) mem count calls
        = Some (count + count_sum m, Some m', mem', calls') ∧
      wf_manager m' ∧ count_sum m' = 0
  else process_all_loop cb fuel (Some m) mem count calls = None.
Proof.
  intros Hcb. revert m mem count calls.
  induction fuel as [|fuel IH]; intros m mem count calls Hwf.
  { rewrite decide_False by lia. done. }
  pose proof (count_sum_nonneg m Hwf) as (Hsum & _).
  cbn [process_all_loop].
  destruct (em_process_one_cases cb m mem Hwf)
    as [(Hzero & ->)|(Hpos & m1 & dc & calls1 & Hcall & Hwf1 & Hsum1 & _)].
  - rewrite decide_True by lia.
    exists m, mem, (calls ++ []). split; [|done]. rewrite Hzero. do 4 f_equal. lia.
  - cbv zeta in Hcall. rewrite Hcall.
    destruct (run_callbacks_keep_queues cb calls1 m1 mem Hcb Hwf1)
      as (m2 & Hm2 & Hwf2 & Hq2).
    destruct (run_callbacks cb calls1 (Some m1, mem)) as [h2 mem2].
    cbn [fst snd] in *. subst h2.
    assert (Hsum2 : count_sum m2 = count_sum m - 1).
    { unfold count_sum in *. by rewrite Hq2. }
    specialize (IH m2 (if negb (dc =? NULL) then free dc mem2 else mem2)
                  (count + 1) (calls ++ calls1) Hwf2).
    rewrite Hsum2 in IH.
    destruct (decide (Z.to_nat (count_sum m) < S fuel)%nat) as [Hlt|Hge].
    + rewrite decide_True in IH by lia.
      destruct IH as (m' & mem' & calls' & -> & Hwf' & Hzero).
      exists m', mem', calls'. split; [|done]. do 4 f_equal. lia.
    + rewrite decide_False in IH by lia. exact IH.
Qed.

(** X10: with callbacks that leave the queues as they are (and the manager
    well-formed), [em_process_all] on a well-formed manager ends after one
    call of [em_process_one] more than there are queued events: it is still
    running after fewer calls, and after that many it has returned
    the number of events that were queued, with the three queues empty (a
    further [em_process_one] returns [EM_ERR_QUEUE_EMPTY]). For a [NULL]
    handle it returns -1 at once. *)
Theorem process_all_drains (cb : em_callbacks) (fuel : nat) (m : em_manager)
    (mem : gmap Z (list Z)) :
  (∀ c m mem, wf_manager m →
     ∃ m', (cb c (Some m, mem)).1 = Some m' ∧ wf_manager m' ∧
           async_queues m' = async_queues m) →
  wf_manager m →
  em_process_all cb fuel None mem = Some (-1, None, mem, []) ∧
  ((fuel ≤ Z.to_nat (em_get_queue_size (Some m)))%nat →
   em_process_all cb fuel (Some m) mem = None) ∧
  ((Z.to_nat (em_get_queue_size (Some m)) < fuel)%nat →
   ∃ m' mem' calls,
     em_process_all cb fuel (Some m) mem
       = Some (em_get_queue_size (Some m), Some m', mem', calls) ∧
     wf_manager m' ∧
     em_get_queue_size (Some m') = 0 ∧
     (∀ i, (i < N.to_nat EM_PRIORITY_COUNT)%nat →
           queue_contents (async_queues m' !!! i) = []) ∧
     em_process_one cb (Some m') mem' = (EM_ERR_QUEUE_EMPTY, Some m', mem', [])).
Proof.
  intros Hcb Hwf. split; [done|].
  pose proof (process_all_loop_drains cb fuel m mem 0 [] Hcb Hwf) as Hloop.
  rewrite !em_get_queue_size_count_sum. unfold em_process_all. split.
  - intros Hle. by rewrite decide_False in Hloop by lia.
  - intros Hlt. rewrite decide_True in Hloop by lia.
    destruct Hloop as (m' & mem' & calls & Hloop & Hwf' & Hzero).
    exists m', mem', calls. rewrite Hloop.
    rewrite !em_get_queue_size_count_sum.
    split; [done|]. split; [done|]. split; [done|].
    pose proof (count_sum_nonneg m' Hwf') as (_ & Hcounts). split.
    + intros i Hi. specialize (Hcounts i Hi). unfold queue_contents.
      replace (q_count (async_queues m' !!! i)) with 0 by lia. done.
    + destruct (em_process_one_cases cb m' mem' Hwf') as [(_ & ->)|(Hpos & _)];
        [done|lia].
Qed.

Lemma process_all_drains_witness :
  ∃ m m' mem' calls,
    em_run quiet [OpPublishAsync 0 7 0 0 2; OpPublishAsync 0 8 0 0 1;
                  OpPublishAsync 0 9 0 0 1] (em_create true, ∅) = Some (Some m, ∅) ∧
    em_process_all quiet 3 (Some m) ∅ = None ∧
    em_process_all quiet 4 (Some m) ∅ = Some (3, Some m', mem', calls) ∧
    em_get_queue_size (Some m') = 0.
Proof.
  assert (Hw : ∃ m,
            em_run quiet [OpPublishAsync 0 7 0 0 2; OpPublishAsync 0 8 0 0 1;
                          OpPublishAsync 0 9 0 0 1] (em_create true, ∅)
              = Some (Some m, ∅) ∧
            wf_manager m ∧ em_get_queue_size (Some m) = 3).
  { eexists. split; [vm_compute; reflexivity|].
    split; [apply (bool_decide_unpack _); vm_compute; exact I|].
    vm_compute. reflexivity. }
  destruct Hw as (m & Hw & Hwf & Hsize).
  assert (Hquiet : ∀ c m mem, wf_manager m →
            ∃ m', (quiet c (Some m, mem)).1 = Some m' ∧ wf_manager m' ∧
                  async_queues m' = async_queues m).
  { intros c m0 mem0 Hwf0. by exists m0. }
  destruct (process_all_drains quiet 3 m ∅ Hquiet Hwf) as (_ & Hnone & _).
  destruct (process_all_drains quiet 4 m ∅ Hquiet Hwf)
    as (_ & _ & m' & mem' & calls & Hcall & _ & Hzero & _).
  { rewrite Hsize. vm_compute. lia. }
  exists m, m', mem', calls. split; [exact Hw|]. split.
  - apply Hnone. rewrite Hsize. vm_compute. lia.
  - split; [|exact Hzero]. rewrite Hcall, Hsize. reflexivity.
Defined.

(** ** Synchronous publish *)

Lemma dispatch_snapshot_perm m event_id :
  wf_manager m → (event_id < EM_MAX_EVENT_TYPES)%N →
  snd (dispatch_snapshot m event_id)
    ≡ₚ active_slots (event_subscribers m !!! N.to_nat event_id).
Proof.
  intros Hwf Hid. pose proof (wf_lookup_subscribers m event_id Hwf Hid) as Hlen.
  unfold dispatch_snapshot, active_slots. cbn [snd].
  set (tbl := event_subscribers m !!! N.to_nat event_id) in *.
  destruct (sorted tbl); cbn [negb].
  - rewrite <- Hlen. by rewrite copy_active_all.
  - rewrite <- Hlen, <- (length_sort_subscribers tbl), copy_active_all.
    by rewrite sort_subscribers_perm.
Qed.

(** The table a dispatch leaves: sorted if it was flagged unsorted. *)
Lemma sort_if_needed_idem tbl :
  let tbl1 := if negb (sorted tbl) then sort_subscribers tbl else tbl in
  (if negb (sorted tbl1) then sort_subscribers tbl1 else tbl1) = tbl1.
Proof.
  cbv zeta. destruct (sorted tbl) eqn:Hs; cbn [negb]; [by rewrite Hs|].
  destruct (sl_count tbl <=? 1) eqn:Hc.
  - assert (Hss : sort_subscribers tbl = tbl).
    { unfold sort_subscribers. by rewrite Hs, Hc. }
    rewrite !Hss, Hs. cbn [negb]. reflexivity.
  - assert (Hss : sorted (sort_subscribers tbl) = true).
    { unfold sort_subscribers. by rewrite Hs, Hc. }
    by rewrite Hss.
Qed.

(** X11: [em_publish_sync] rejects a [NULL] handle or an event id out of
    range without any change or call. Otherwise it returns [EM_OK] and the
    calls of the dispatch, and it leaves the manager and the heap as the
    callbacks leave them: they run in the order of the calls, from the
    heap of the call and from the manager [m1] in which [events_published]
    and [events_processed] have grown by one (modulo 2^32), the queues, the
    other statistics, the running flag and the other events are untouched,
    and the event's table keeps its count and its active slots up to order.
    With no active slot nothing is called and [m1] is what is left. *)
Theorem publish_sync_effect (cb : em_callbacks) (m : em_manager) (event_id : N)
    (data : Z) (mem : gmap Z (list Z)) :
  wf_manager m →
  em_publish_sync cb None event_id data mem = (EM_ERR_INVALID_PARAM, None, mem, []) ∧
  ((EM_MAX_EVENT_TYPES ≤ event_id)%N →
   em_publish_sync cb (Some m) event_id data mem
     = (EM_ERR_INVALID_PARAM, Some m, mem, [])) ∧
  ((event_id < EM_MAX_EVENT_TYPES)%N →
   ∃ m1,
     let calls := snd (dispatch_prepare m event_id data) in
     let w := run_callbacks cb calls (Some m1, mem) in
     em_publish_sync cb (Some m) event_id data mem = (EM_OK, fst w, snd w, calls) ∧
     events_published (stats m1) = u32 (events_published (stats m) + 1) ∧
     events_processed (stats m1) = u32 (events_processed (stats m) + 1) ∧
     async_queue_current (stats m1) = async_queue_current (stats m) ∧
     async_queue_max (stats m1) = async_queue_max (stats m) ∧
     subscribers_total (stats m1) = subscribers_total (stats m) ∧
     async_queues m1 = async_queues m ∧ running m1 = running m ∧
     (∀ e, e ≠ N.to_nat event_id →
           event_subscribers m1 !!! e = event_subscribers m !!! e) ∧
     let tbl := event_subscribers m !!! N.to_nat event_id in
     let tbl' := event_subscribers m1 !!! N.to_nat event_id in
     sl_count tbl' = sl_count tbl ∧ active_slots tbl' ≡ₚ active_slots tbl ∧
     (active_slots tbl = [] →
      em_publish_sync cb (Some m) event_id data mem = (EM_OK, Some m1, mem, []))).
Proof.
  intros Hwf. split; [done|]. split.
  - intros Hid. unfold em_publish_sync. apply N.leb_le in Hid. by rewrite Hid.
  - intros Hid. pose proof Hwf as (Hlen64 & _).
    pose proof (wf_lookup_subscribers m event_id Hwf Hid) as Hlen.
    unfold em_publish_sync. rewrite dispatch_event_eq. unfold dispatch_prepare.
    destruct (N.leb_spec EM_MAX_EVENT_TYPES event_id) as [|_]; [lia|].
    cbn [dispatch_snapshot set_stats event_subscribers stats set_event_subscribers
         events_published events_processed async_queue_current async_queue_max
         subscribers_total async_queues running fst snd].
    set (tbl := event_subscribers m !!! N.to_nat event_id) in *.
    eexists. cbv zeta. split; [reflexivity|].
    cbn [set_stats event_subscribers stats set_event_subscribers
         events_published events_processed async_queue_current async_queue_max
         subscribers_total async_queues running].
    rewrite list_lookup_total_insert_eq by lia.
    split; [done|]. split; [done|]. split; [done|]. split; [done|].
    split; [done|]. split; [done|]. split; [done|]. split.
    { intros e He. by rewrite list_lookup_total_insert_ne. }
    split; [|split].
    + destruct (sorted tbl); cbn [negb]; [done|].
      unfold sort_subscribers. by case_match.
    + unfold active_slots. destruct (sorted tbl); cbn [negb]; [done|].
      by rewrite sort_subscribers_perm.
    + intros Hnone.
      pose proof (dispatch_snapshot_perm m event_id Hwf Hid) as Hperm.
      fold tbl in Hperm. rewrite Hnone in Hperm. apply Permutation_nil_r in Hperm.
      unfold dispatch_snapshot in Hperm. cbn [snd] in Hperm. fold tbl in Hperm.
      rewrite Hperm. reflexivity.
Qed.

Lemma publish_sync_effect_witness :
  ∃ m m1 m',
    em_run quiet [OpSubscribe 0 100 5 EM_PRIORITY_LOW;
                  OpSubscribe 0 200 6 EM_PRIORITY_HIGH] (em_create true, ∅)
      = Some (Some m, ∅) ∧
    run_callbacks calling_back [mk_call 200 0 42 6; mk_call 100 0 42 5] (Some m1, ∅)
      = (Some m', ∅) ∧
    em_publish_sync calling_back (Some m) 0 42 ∅
      = (EM_OK, Some m', ∅, [mk_call 200 0 42 6; mk_call 100 0 42 5]) ∧
    events_published (stats m1) = 1 ∧ events_processed (stats m1) = 1 ∧
    events_published (stats m') = 0 ∧ em_get_queue_size (Some m') = 1.
Proof.
  assert (Hm : ∃ m m',
            em_run quiet [OpSubscribe 0 100 5 EM_PRIORITY_LOW;
                          OpSubscribe 0 200 6 EM_PRIORITY_HIGH] (em_create true, ∅)
              = Some (Some m, ∅) ∧ wf_manager m ∧
            snd (dispatch_prepare m 0 42)
              = [mk_call 200 0 42 6; mk_call 100 0 42 5] ∧
            events_published (stats m) = 0 ∧ events_processed (stats m) = 0 ∧
            em_publish_sync calling_back (Some m) 0 42 ∅
              = (EM_OK, Some m', ∅, [mk_call 200 0 42 6; mk_call 100 0 42 5]) ∧
            events_published (stats m') = 0 ∧ em_get_queue_size (Some m') = 1).
  { eexists _, _. split; [vm_compute; reflexivity|].
    split; [apply (bool_decide_unpack _); vm_compute; exact I|].
    split; [vm_compute; reflexivity|]. split; [vm_compute; reflexivity|].
    split; [vm_compute; reflexivity|]. split; [vm_compute; reflexivity|].
    split; vm_compute; reflexivity. }
  destruct Hm as (m & m' & Hrun & Hwf & Hcalls & Hpub & Hproc & Hafter & Hpub' & Hsize').
  destruct (publish_sync_effect calling_back m 0 42 ∅ Hwf) as (_ & _ & Hok).
  destruct (Hok eq_refl) as (m1 & Hcall & Hpub1 & Hproc1 & _).
  cbv zeta in Hcall. rewrite Hcalls, Hafter in Hcall.
  exists m, m1, m'. split; [exact Hrun|]. split.
  { pose proof (f_equal (fun r => r.1.1.2) Hcall) as H1.
    pose proof (f_equal (fun r => r.1.2) Hcall) as H2. cbn [fst snd] in H1, H2.
    rewrite (surjective_pairing (run_callbacks _ _ _)). by rewrite <- H1, <- H2. }
  split; [exact Hafter|]. rewrite Hpub1, Hproc1, Hpub, Hproc.
  split; [reflexivity|]. split; [reflexivity|]. split; [exact Hpub'|exact Hsize'].
Defined.

(** Callbacks that leave the subscriber tables as they are keep them so
    over a whole dispatch. *)
Lemma run_callbacks_keep_tables cb calls m mem :
  (∀ c m mem, ∃ m', (cb c (Some m, mem)).1 = Some m' ∧
                    event_subscribers m' = event_subscribers m) →
  ∃ m', (run_callbacks cb calls (Some m, mem)).1 = Some m' ∧
        event_subscribers m' = event_subscribers m.
Proof.
  intros Hcb. revert m mem. induction calls as [|c calls IH]; intros m mem.
  - by exists m.
  - cbn. destruct (Hcb c m mem) as (m1 & Hm1 & Ht1).
    destruct (cb c (Some m, mem)) as [h1 mem1]. cbn in Hm1. subst h1.
    destruct (IH m1 mem1) as (m' & Hm' & Ht').
    exists m'. split; [done|]. by rewrite Ht'.
Qed.

(** A synchronous publish in terms of the event's table. *)
Lemma em_publish_sync_tables cb m event_id data mem :
  wf_manager m → (event_id < EM_MAX_EVENT_TYPES)%N →
  let tbl := event_subscribers m !!! N.to_nat event_id in
  let tbl1 := if negb (sorted tbl) then sort_subscribers tbl else tbl in
  let calls :=
    invoke event_id data
      (copy_active (subscribers tbl1) 0 (Z.to_nat EM_MAX_SUBSCRIBERS)) in
  ∃ m1,
    em_publish_sync cb (Some m) event_id data mem
    = (EM_OK, (run_callbacks cb calls (Some m1, mem)).1,
       (run_callbacks cb calls (Some m1, mem)).2, calls) ∧
    event_subscribers m1 = <[N.to_nat event_id := tbl1]> (event_subscribers m).
Proof.
  intros Hwf Hid. cbv zeta.
  unfold em_publish_sync. rewrite dispatch_event_eq. unfold dispatch_prepare.
  destruct (N.leb_spec EM_MAX_EVENT_TYPES event_id) as [|_]; [lia|].
  cbn [dispatch_snapshot set_stats event_subscribers stats set_event_subscribers
       fst snd].
  eexists. split; [reflexivity|]. reflexivity.
Qed.

(** X12: when the callbacks leave the subscriber tables as they are, a
    second [em_publish_sync] of the same event right after the first makes
    the same calls in the same order and leaves the subscriber tables as
    the first left them: the sort is not redone. *)
Theorem publish_sync_repeat (cb : em_callbacks) (m : em_manager) (event_id : N)
    (data : Z) (mem : gmap Z (list Z)) :
  (∀ c m mem, ∃ m', (cb c (Some m, mem)).1 = Some m' ∧
                    event_subscribers m' = event_subscribers m) →
  wf_manager m → (event_id < EM_MAX_EVENT_TYPES)%N →
  ∃ m1 mem1 m2 mem2 calls,
    em_publish_sync cb (Some m) event_id data mem = (EM_OK, Some m1, mem1, calls) ∧
    em_publish_sync cb (Some m1) event_id data mem1 = (EM_OK, Some m2, mem2, calls) ∧
    event_subscribers m2 = event_subscribers m1.
Proof.
  intros Hcb Hwf Hid. pose proof Hwf as (Hlen64 & _).
  destruct (em_publish_sync_tables cb m event_id data mem Hwf Hid) as (l1 & Hc1 & Ht1).
  cbv zeta in Hc1, Ht1.
  set (tbl := event_subscribers m !!! N.to_nat event_id) in *.
  set (tbl1 := if negb (sorted tbl) then sort_subscribers tbl else tbl) in *.
  set (calls := invoke event_id data _) in *.
  destruct (run_callbacks_keep_tables cb calls l1 mem Hcb) as (m1 & Hm1 & Hk1).
  destruct (run_callbacks cb calls (Some l1, mem)) as [h1 mem1].
  cbn [fst snd] in *. subst h1.
  assert (Htbl1 : event_subscribers m1 !!! N.to_nat event_id = tbl1).
  { rewrite Hk1, Ht1. apply list_lookup_total_insert_eq. lia. }
  assert (Hwf1 : ∃ l2,
            em_publish_sync cb (Some m1) event_id data mem1
            = (EM_OK, (run_callbacks cb calls (Some l2, mem1)).1,
               (run_callbacks cb calls (Some l2, mem1)).2, calls) ∧
            event_subscribers l2 = event_subscribers m1).
  { unfold em_publish_sync. rewrite dispatch_event_eq. unfold dispatch_prepare.
    destruct (N.leb_spec EM_MAX_EVENT_TYPES event_id) as [|_]; [lia|].
    cbn [dispatch_snapshot set_stats event_subscribers stats set_event_subscribers
         fst snd].
    rewrite Htbl1.
    pose proof (sort_if_needed_idem tbl) as Hidem. cbv zeta in Hidem.
    fold tbl1 in Hidem. rewrite Hidem.
    eexists. split; [reflexivity|].
    cbn [event_subscribers set_stats set_event_subscribers].
    rewrite Hk1, Ht1. by rewrite list_insert_insert_eq. }
  destruct Hwf1 as (l2 & Hc2 & Ht2).
  destruct (run_callbacks_keep_tables cb calls l2 mem1 Hcb) as (m2 & Hm2 & Hk2).
  destruct (run_callbacks cb calls (Some l2, mem1)) as [h2 mem2].
  cbn [fst snd] in *. subst h2.
  exists m1, mem1, m2, mem2, calls. split; [done|]. split; [done|].
  by rewrite Hk2, Ht2.
Qed.

Lemma em_publish_sync_quiet_heap h event_id data mem :
  (em_publish_sync quiet h event_id data mem).1.2 = mem.
Proof.
  destruct h as [m|]; [|done]. unfold em_publish_sync. case_match; [done|].
  by rewrite dispatch_event_quiet.
Qed.

Lemma publish_sync_repeat_witness :
  ∃ m m1 m2 calls,
    em_run quiet [OpSubscribe 0 100 5 EM_PRIORITY_LOW;
            OpSubscribe 0 200 6 EM_PRIORITY_HIGH] (em_create true, ∅) = Some (Some m, ∅) ∧
    em_publish_sync quiet (Some m) 0 42 ∅ = (EM_OK, Some m1, ∅, calls) ∧
    em_publish_sync quiet (Some m1) 0 42 ∅ = (EM_OK, Some m2, ∅, calls).
Proof.
  assert (Hm : ∃ m, em_run quiet [OpSubscribe 0 100 5 EM_PRIORITY_LOW;
                            OpSubscribe 0 200 6 EM_PRIORITY_HIGH] (em_create true, ∅)
                      = Some (Some m, ∅) ∧ wf_manager m).
  { eexists. split; [vm_compute; reflexivity|].
    apply (bool_decide_unpack _); vm_compute; exact I. }
  destruct Hm as (m & Hrun & Hwf).
  destruct (publish_sync_repeat quiet m 0 42 ∅) as
    (m1 & mem1 & m2 & mem2 & calls & H1 & H2 & _); [|exact Hwf|reflexivity|].
  { intros c m0 mem0. by exists m0. }
  pose proof (em_publish_sync_quiet_heap (Some m) 0 42 ∅) as Hmem1.
  rewrite H1 in Hmem1. cbn [fst snd] in Hmem1. subst mem1.
  pose proof (em_publish_sync_quiet_heap (Some m1) 0 42 ∅) as Hmem2.
  rewrite H2 in Hmem2. cbn [fst snd] in Hmem2. subst mem2.
  exists m, m1, m2, calls. split; [exact Hrun|]. split; [exact H1|exact H2].
Defined.

(** ** Asynchronous publish, delivery and release *)

(** What a successful [em_publish_async] does. *)
Lemma em_publish_async_ok (malloc_ret : Z) (m : em_manager) (event_id : N)
    (data : Z) (data_size priority : N) (mem : gmap Z (list Z)) :
  wf_manager m →
  (event_id < EM_MAX_EVENT_TYPES)%N → (priority < EM_PRIORITY_COUNT)%N →
  q_count (async_queues m !!! N.to_nat priority) < EM_ASYNC_QUEUE_SIZE →
  let copying := negb (data =? NULL) && (0 <? data_size)%N in
  (copying = true → malloc_ret ≠ NULL ∧ malloc_ret ≠ data) →
  let data_copy := if copying then malloc_ret else NULL in
  let event :=
    mk_event event_id (if copying then malloc_ret else data) data_size priority
             EM_MODE_ASYNC in
  ∃ m',
    em_publish_async malloc_ret (Some m) event_id data data_size priority mem
    = (EM_OK, Some m',
       if copying
       then <[malloc_ret := take (N.to_nat data_size) (default [] (mem !! data))]> mem
       else mem) ∧
    wf_manager m' ∧
    queue_contents (async_queues m' !!! N.to_nat priority)
    = queue_contents (async_queues m !!! N.to_nat priority) ++ [(event, data_copy)] ∧
    (∀ i, i ≠ N.to_nat priority → async_queues m' !!! i = async_queues m !!! i) ∧
    events_published (stats m') = u32 (events_published (stats m) + 1) ∧
    async_queue_current (stats m') = count_sum m + 1 ∧
    count_sum m' = count_sum m + 1 ∧
    async_queue_max (stats m') = Z.max (async_queue_max (stats m)) (count_sum m + 1) ∧
    events_processed (stats m') = events_processed (stats m) ∧
    subscribers_total (stats m') = subscribers_total (stats m) ∧
    event_subscribers m' = event_subscribers m.
Proof.
  intros Hwf Hid Hp Hroom copying Hmalloc data_copy event.
  pose proof Hwf as (_ & _ & Hlen3 & _ & Hst).
  assert (Hev : event = mk_event event_id
                          (if negb (data_copy =? NULL) then data_copy else data)
                          data_size priority EM_MODE_ASYNC).
  { unfold event, data_copy. destruct copying; [|done].
    destruct (Hmalloc eq_refl) as (Hr & _).
    by destruct (Z.eqb_spec malloc_ret NULL). }
  assert (Hcall : ∀ mem',
    publish_async_enqueue m event_id data data_size priority data_copy mem'
    = em_publish_async malloc_ret (Some m) event_id data data_size priority mem →
    ∃ m', em_publish_async malloc_ret (Some m) event_id data data_size priority mem
          = (EM_OK, Some m', mem') ∧
      wf_manager m' ∧
      queue_contents (async_queues m' !!! N.to_nat priority)
      = queue_contents (async_queues m !!! N.to_nat priority) ++ [(event, data_copy)] ∧
      (∀ i, i ≠ N.to_nat priority → async_queues m' !!! i = async_queues m !!! i) ∧
      events_published (stats m') = u32 (events_published (stats m) + 1) ∧
      async_queue_current (stats m') = count_sum m + 1 ∧
      count_sum m' = count_sum m + 1 ∧
      async_queue_max (stats m') = Z.max (async_queue_max (stats m)) (count_sum m + 1) ∧
      events_processed (stats m') = events_processed (stats m) ∧
      subscribers_total (stats m') = subscribers_total (stats m) ∧
      event_subscribers m' = event_subscribers m).
  { intros mem' Heq. rewrite <- Heq.
    destruct (publish_async_enqueue_ok m event_id data data_size priority data_copy
                mem' Hwf Hp Hroom) as (q' & _ & Hq' & Hcont & Hcount & ->).
    eexists. split; [reflexivity|].
    pose proof (count_sum_nonneg m Hwf) as (Hsum & _).
    cbn [set_stats set_async_queue async_queues stats event_subscribers
         events_published events_processed async_queue_current async_queue_max
         subscribers_total].
    rewrite list_lookup_total_insert_eq by lia.
    split; [|split; [by rewrite Hcont, Hev|split; [|repeat split]]].
    - apply wf_set_stats; [by apply wf_set_async_queue|].
      destruct Hst as (? & ? & ? & ? & ?). unfold wf_stats, is_u32 in *.
      cbn [events_published events_processed async_queue_current async_queue_max
           subscribers_total].
      unfold EM_ASYNC_QUEUE_SIZE in *.
      split; [apply u32_is_u32|]. repeat split; try tauto; lia.
    - intros i Hi. by rewrite list_lookup_total_insert_ne.
    - change (count_sum (set_stats ?a ?b)) with (count_sum a).
      rewrite count_sum_set_async_queue by (done || lia). lia. }
  unfold em_publish_async in *.
  destruct (N.leb_spec EM_MAX_EVENT_TYPES event_id) as [|_]; [lia|].
  destruct (N.leb_spec EM_PRIORITY_COUNT priority) as [|_]; [lia|].
  fold copying in Hcall |- *. unfold data_copy in *. destruct copying.
  - destruct (Hmalloc eq_refl) as (Hr & Hne). unfold malloc in *.
    destruct (Z.eqb_spec malloc_ret NULL) as [|_]; [done|].
    destruct (Z.eqb_spec malloc_ret NULL) as [|_]; [done|].
    apply Hcall. f_equal. unfold memcpy.
    rewrite lookup_insert_eq, lookup_insert_ne by done. cbn [from_option id].
    rewrite drop_replicate, Nat.sub_diag. cbn [replicate]. rewrite app_nil_r.
    by rewrite insert_insert_eq.
  - by apply Hcall.
Qed.


(** X13: with valid arguments and room in the queue of the priority,
    [em_publish_async] returns [EM_OK] and appends one descriptor behind the
    queued ones of that priority, the other queues being untouched;
    [events_published] grows by one, [async_queue_current] becomes the
    number of queued events and [async_queue_max] the larger of its old
    value and that number. When a copy is taken (non-[NULL] payload,
    positive length, [malloc] returning a block other than the payload's),
    the descriptor and the node point to the new block, which holds the
    first [data_size] bytes of the payload; otherwise the payload pointer is
    queued as it is, with no owned copy, and the heap is untouched. *)
Theorem publish_async_success (malloc_ret : Z) (m : em_manager) (event_id : N)
    (data : Z) (data_size priority : N) (mem : gmap Z (list Z)) :
  wf_manager m →
  (event_id < EM_MAX_EVENT_TYPES)%N → (priority < EM_PRIORITY_COUNT)%N →
  q_count (async_queues m !!! N.to_nat priority) < EM_ASYNC_QUEUE_SIZE →
  let copying := negb (data =? NULL) && (0 <? data_size)%N in
  (copying = true → malloc_ret ≠ NULL ∧ malloc_ret ≠ data) →
  let data_copy := if copying then malloc_ret else NULL in
  let event :=
    mk_event event_id (if copying then malloc_ret else data) data_size priority
             EM_MODE_ASYNC in
  ∃ m',
    em_publish_async malloc_ret (Some m) event_id data data_size priority mem
    = (EM_OK, Some m',
       if copying
       then <[malloc_ret := take (N.to_nat data_size) (default [] (mem !! data))]> mem
       else mem) ∧
    wf_manager m' ∧
    queue_contents (async_queues m' !!! N.to_nat priority)
    = queue_contents (async_queues m !!! N.to_nat priority) ++ [(event, data_copy)] ∧
    (∀ i, i ≠ N.to_nat priority → async_queues m' !!! i = async_queues m !!! i) ∧
    events_published (stats m') = u32 (events_published (stats m) + 1) ∧
    async_queue_current (stats m') = count_sum m + 1 ∧
    count_sum m' = count_sum m + 1 ∧
    async_queue_max (stats m') = Z.max (async_queue_max (stats m)) (count_sum m + 1) ∧
    events_processed (stats m') = events_processed (stats m) ∧
    subscribers_total (stats m') = subscribers_total (stats m) ∧
    event_subscribers m' = event_subscribers m.
Proof. apply em_publish_async_ok. Qed.

Lemma publish_async_success_witness :
  ∃ m', em_publish_async 77 (em_create true) 3 5 2 1 {[ 5 := [11; 22; 33] ]}
          = (EM_OK, Some m', {[ 5 := [11; 22; 33]; 77 := [11; 22] ]}) ∧
        queue_contents (async_queues m' !!! 1%nat)
          = [(mk_event 3 77 2 1 EM_MODE_ASYNC, 77)].
Proof.
  assert (Hc : ∃ m, em_create true = Some m ∧ wf_manager m ∧
                    q_count (async_queues m !!! N.to_nat 1) < EM_ASYNC_QUEUE_SIZE ∧
                    queue_contents (async_queues m !!! N.to_nat 1) = []).
  { eexists. split; [reflexivity|]. split; [|split; vm_compute; reflexivity].
    apply (bool_decide_unpack _). vm_compute. exact I. }
  destruct Hc as (m & -> & Hwf & Hroom & Hempty).
  destruct (publish_async_success 77 m 3 5 2 1 {[ 5 := [11; 22; 33] ]} Hwf
              eq_refl eq_refl Hroom) as (m' & Hcall & _ & Hcont & _).
  - intros _. split; discriminate.
  - exists m'. split.
    + rewrite Hcall. f_equal.
    + rewrite Hempty in Hcont. exact Hcont.
Defined.

Lemma dispatch_prepare_calls_ext m m' event_id data :
  event_subscribers m' = event_subscribers m →
  snd (dispatch_prepare m' event_id data) = snd (dispatch_prepare m event_id data).
Proof.
  intros Heq. unfold dispatch_prepare. case_match; [done|].
  unfold dispatch_snapshot. cbn [snd]. by rewrite Heq.
Qed.

(** X14: publish, then process. On a well-formed manager with empty
    queues, an asynchronous publish that takes a copy (non-[NULL] payload,
    positive length, [malloc] returning a block that was not live and is not
    the payload's) puts the payload's first [data_size] bytes in the new
    block, and freeing the copy in the heap of the publish gives back the
    heap from before the publish. Whatever the heap has become since, as
    long as the call is the next [em_process_one], it returns [EM_OK] and
    calls the subscribers of the event with the address of the copy; the
    callbacks start from a manager with empty queues and from the heap as
    it is, the copy not yet freed, and the block is freed in the heap they
    leave. *)
Theorem async_payload_roundtrip (cb : em_callbacks) (malloc_ret : Z)
    (m : em_manager) (event_id : N) (data : Z) (data_size priority : N)
    (mem : gmap Z (list Z)) :
  wf_manager m → count_sum m = 0 →
  (event_id < EM_MAX_EVENT_TYPES)%N → (priority < EM_PRIORITY_COUNT)%N →
  data ≠ NULL → (0 < data_size)%N →
  malloc_ret ≠ NULL → malloc_ret ≠ data → mem !! malloc_ret = None →
  ∃ m1 mem1,
    em_publish_async malloc_ret (Some m) event_id data data_size priority mem
      = (EM_OK, Some m1, mem1) ∧
    mem1 !! malloc_ret = Some (take (N.to_nat data_size) (default [] (mem !! data))) ∧
    free malloc_ret mem1 = mem ∧
    ∀ mem2, ∃ m2,
      let calls := snd (dispatch_prepare m event_id malloc_ret) in
      let w := run_callbacks cb calls (Some m2, mem2) in
      em_process_one cb (Some m1) mem2
        = (EM_OK, fst w, free malloc_ret (snd w), calls) ∧
      count_sum m2 = 0.
Proof.
  intros Hwf Hzero Hid Hp Hdata Hsize Hr Hne Hfresh.
  pose proof (count_sum_nonneg m Hwf) as (_ & Hcounts).
  assert (Hempty : ∀ i, (i < N.to_nat EM_PRIORITY_COUNT)%nat →
                        q_count (async_queues m !!! i) = 0).
  { intros i Hi. specialize (Hcounts i Hi). lia. }
  assert (Hcopying : negb (data =? NULL) && (0 <? data_size)%N = true).
  { apply andb_true_iff. split.
    - apply negb_true_iff. by apply Z.eqb_neq.
    - by apply N.ltb_lt. }
  destruct (em_publish_async_ok malloc_ret m event_id data data_size priority mem
              Hwf Hid Hp) as (m1 & Hcall & Hwf1 & Hcont & Hothers & _ & _ & Hsum1 & _
                              & _ & _ & Hsubs).
  { rewrite Hempty by lia. unfold EM_ASYNC_QUEUE_SIZE. lia. }
  { intros _. done. }
  rewrite Hcopying in Hcall, Hcont.
  eexists _, _. split; [exact Hcall|]. split; [apply lookup_insert_eq|]. split.
  { unfold free. rewrite delete_insert_eq. by apply delete_id. }
  intros mem2.
  set (p := N.to_nat priority) in *.
  assert (Hp' : (p < N.to_nat EM_PRIORITY_COUNT)%nat) by (unfold p; lia).
  pose proof (wf_lookup_queue m1 p Hwf1 Hp') as Hq1.
  pose proof (count_sum_nonneg m1 Hwf1) as (_ & Hcounts1).
  assert (Hcount1 : q_count (async_queues m1 !!! p) = 1).
  { pose proof (length_queue_contents (async_queues m1 !!! p)) as Hl.
    rewrite Hcont in Hl. unfold queue_contents in Hl at 1.
    rewrite (Hempty p Hp') in Hl. specialize (Hcounts1 p Hp').
    specialize (Hl ltac:(lia)). change (Z.to_nat 0) with 0%nat in Hl.
    cbn [seq map app length] in Hl. lia. }
  destruct (dequeue_event_ok _ Hq1) as (q' & [ev dc] & Hdeq & Hq' & Hcont'); [lia|].
  rewrite Hcont in Hcont'. unfold queue_contents in Hcont' at 1.
  rewrite (Hempty p Hp') in Hcont'. cbn [Z.to_nat seq map app] in Hcont'.
  injection Hcont' as <- <- Hq'empty.
  unfold em_process_one.
  rewrite (process_scan_first m1 0 _ p q'
             (mk_event event_id malloc_ret data_size priority EM_MODE_ASYNC, malloc_ret));
    [| lia | | lia | exact Hdeq].
  2:{ intros p' Hp'lt. rewrite Hothers by lia. rewrite Hempty by lia. lia. }
  set (m1' := set_stats _ _).
  pose proof (dispatch_prepare_calls_ext m m1' event_id malloc_ret) as Hcalls.
  pose proof (queue_stats_dispatch_prepare m1' event_id malloc_ret) as (Hd & _).
  cbn [ev_id ev_data]. rewrite dispatch_event_eq. cbv zeta.
  rewrite <- Hcalls by (unfold m1'; cbn; exact Hsubs).
  destruct (dispatch_prepare m1' event_id malloc_ret) as [m2 calls].
  cbn [fst snd] in *. exists m2.
  destruct (Z.eqb_spec malloc_ret NULL) as [|_]; [done|]. cbn [negb].
  split; [done|].
  unfold count_sum at 1. rewrite Hd. fold (count_sum m1').
  unfold m1'. change (count_sum (set_stats ?a ?b)) with (count_sum a).
  rewrite count_sum_set_async_queue by done.
  assert (q_count q' = 0).
  { unfold dequeue_event in Hdeq. case_match; [done|]. injection Hdeq as <- _ _.
    cbn. lia. }
  lia.
Qed.

Lemma async_payload_roundtrip_witness :
  ∃ m m1 m2,
    em_run quiet [OpSubscribe 3 100 9 1] (em_create true, ∅) = Some (Some m, ∅) ∧
    em_publish_async 77 (Some m) 3 5 2 1 {[ 5 := [11; 22; 33] ]}
      = (EM_OK, Some m1, {[ 5 := [11; 22; 33]; 77 := [11; 22] ]}) ∧
    em_process_one quiet (Some m1) {[ 5 := [99; 99; 99]; 77 := [11; 22] ]}
      = (EM_OK, Some m2, {[ 5 := [99; 99; 99] ]}, [mk_call 100 3 77 9]).
Proof.
  assert (Hm : ∃ m, em_run quiet [OpSubscribe 3 100 9 1] (em_create true, ∅) = Some (Some m, ∅) ∧
                    wf_manager m ∧ count_sum m = 0 ∧
                    snd (dispatch_prepare m 3 77) = [mk_call 100 3 77 9]).
  { eexists. split; [vm_compute; reflexivity|].
    split; [apply (bool_decide_unpack _); vm_compute; exact I|].
    split; vm_compute; reflexivity. }
  destruct Hm as (m & Hrun & Hwf & Hzero & Hcalls).
  destruct (async_payload_roundtrip quiet 77 m 3 5 2 1 {[ 5 := [11; 22; 33] ]} Hwf Hzero)
    as (m1 & mem1 & Hpub & Hcopy & Hfree & Hproc); try reflexivity; try discriminate.
  destruct (Hproc {[ 5 := [99; 99; 99]; 77 := [11; 22] ]}) as (m2 & Hcall & _).
  rewrite run_callbacks_quiet in Hcall. cbn [fst snd] in Hcall.
  exists m, m1, m2. split; [exact Hrun|]. split.
  - rewrite Hpub. f_equal. apply map_eq. intros i.
    destruct (decide (i = 77)) as [->|Hi].
    + rewrite Hcopy. reflexivity.
    + transitivity (free 77 mem1 !! i).
      { unfold free. by rewrite lookup_delete_ne. }
      rewrite Hfree.
      destruct (decide (i = 5)) as [->|Hi5]; [reflexivity|].
      rewrite lookup_insert_ne by done. by rewrite !lookup_singleton_ne.
  - rewrite Hcall, Hcalls. f_equal.
Defined.

(** X15: a call that fails changes nothing. Whatever the handle ([NULL] or
    a well-formed manager) and the arguments, when [em_subscribe],
    [em_unsubscribe], [em_unsubscribe_all], [em_publish_sync] or
    [em_process_one] returns a code other than [EM_OK], the manager behind
    the handle is the one from before the call, no callback has run,
    whatever the callbacks are, and the heap is untouched; for
    [em_process_one] on a manager the only such code is
    [EM_ERR_QUEUE_EMPTY], returned exactly when nothing is queued. *)
Theorem failed_call_no_effect (cb : em_callbacks) (h : em_handle_t)
    (mem : gmap Z (list Z)) :
  (∀ m, h = Some m → wf_manager m) →
  (∀ e c ud p, fst (em_subscribe h e c ud p) ≠ EM_OK →
     snd (em_subscribe h e c ud p) = h) ∧
  (∀ e c, fst (em_unsubscribe h e c) ≠ EM_OK →
     snd (em_unsubscribe h e c) = h) ∧
  (∀ e, fst (em_unsubscribe_all h e) ≠ EM_OK →
     snd (em_unsubscribe_all h e) = h) ∧
  (∀ e d, fst (fst (fst (em_publish_sync cb h e d mem))) ≠ EM_OK →
     ∃ r, em_publish_sync cb h e d mem = (r, h, mem, [])) ∧
  (fst (fst (fst (em_process_one cb h mem))) ≠ EM_OK →
     ∃ r, em_process_one cb h mem = (r, h, mem, []) ∧
          ∀ m, h = Some m → r = EM_ERR_QUEUE_EMPTY ∧ count_sum m = 0).
Proof.
  intros Hwf. destruct h as [m|].
  2:{ split; [done|]. split; [done|]. split; [done|]. split.
      - intros. by eexists.
      - intros _. eexists. split; [done|]. intros ? [=]. }
  specialize (Hwf m eq_refl).
  split.
  { intros e c ud p. unfold em_subscribe. repeat case_match; cbn; done. }
  split.
  { intros e c. unfold em_unsubscribe. repeat case_match; cbn; done. }
  split.
  { intros e. unfold em_unsubscribe_all. repeat case_match; cbn; done. }
  split.
  { intros e d. unfold em_publish_sync. case_match; [intros _; by eexists|].
    rewrite dispatch_event_eq. cbn. done. }
  destruct (em_process_one_cases cb m mem Hwf)
    as [(Hzero & ->)|(_ & m1 & dc & calls & Hcall & _)]; cbn [fst].
  - intros _. eexists. split; [done|]. by intros ? [= <-].
  - cbv zeta in Hcall. rewrite Hcall. cbn [fst]. done.
Qed.

Lemma failed_call_no_effect_witness :
  ∃ m,
    em_run quiet [OpSubscribe 3 100 9 1] (em_create true, ∅) = Some (Some m, ∅) ∧
    snd (em_subscribe (Some m) 64 200 0 1) = Some m ∧
    snd (em_unsubscribe (Some m) 3 200) = Some m ∧
    em_publish_sync calling_back (Some m) 64 5 ∅
      = (EM_ERR_INVALID_PARAM, Some m, ∅, []) ∧
    em_process_one calling_back (Some m) ∅ = (EM_ERR_QUEUE_EMPTY, Some m, ∅, []).
Proof.
  assert (Hm : ∃ m, em_run quiet [OpSubscribe 3 100 9 1] (em_create true, ∅) = Some (Some m, ∅) ∧
                    wf_manager m).
  { eexists. split; [vm_compute; reflexivity|].
    apply (bool_decide_unpack _); vm_compute; exact I. }
  destruct Hm as (m & Hrun & Hwf).
  destruct (failed_call_no_effect calling_back (Some m) ∅)
    as (Hsub & Hunsub & _ & Hpub & Hproc).
  { by intros ? [= <-]. }
  exists m. split; [exact Hrun|]. split.
  { apply Hsub. discriminate. }
  split.
  { apply Hunsub. clear -Hrun. injection Hrun as <-. vm_compute. discriminate. }
  split.
  { destruct (Hpub 64%N 5) as (r & Hr); [discriminate|]. rewrite Hr.
    assert (r = fst (fst (fst (em_publish_sync calling_back (Some m) 64 5 ∅)))) as ->
      by (by rewrite Hr).
    reflexivity. }
  destruct Hproc as (r & Hr & Hq).
  { clear -Hrun. injection Hrun as <-. vm_compute. discriminate. }
  rewrite Hr. by destruct (Hq m eq_refl) as (-> & _).
Defined.

(** X16: [em_error_string] names each error code: two codes of [em_error_t]
    with the same text are the same code, and an integer gets the text
    [Unknown error] exactly when it is not the value of a code, that is
    when it is positive or below [-9]. *)
Theorem error_string_identifies_code :
  (∀ e1 e2 : em_error_t,
     em_error_string (em_error_code e1) = em_error_string (em_error_code e2) →
     e1 = e2) ∧
  (∀ z : Z, em_error_string z = "Unknown error"%string ↔ (z < -9 ∨ 0 < z)).
Proof.
  split.
  - intros [] []; cbn; intros H; first [reflexivity | discriminate H].
  - intros z. split.
    + intros H. destruct (decide (z < -9 ∨ 0 < z)) as [|Hn]; [done|]. exfalso.
      assert (z = 0 ∨ z = -1 ∨ z = -2 ∨ z = -3 ∨ z = -4 ∨ z = -5 ∨ z = -6 ∨
              z = -7 ∨ z = -8 ∨ z = -9) as Hz by lia.
      destruct Hz as [->|[->|[->|[->|[->|[->|[->|[->|[->| ->]]]]]]]]];
        discriminate H.
    + intros [Hz|Hz].
      * destruct z as [|p|p]; [lia|lia|].
        do 4 (destruct p as [p|p|]; try lia; try reflexivity).
      * destruct z as [|p|p]; [lia|reflexivity|lia].
Qed.


(** ** The queued descriptors *)

Lemma queued_inv_frame m m' :
  async_queues m' = async_queues m → queued_inv m → queued_inv m'.
Proof. unfold queued_inv. by intros ->. Qed.

Lemma queued_inv_publish_async_enqueue m event_id data data_size priority
    data_copy mem m' :
  wf_manager m → (event_id < EM_MAX_EVENT_TYPES)%N →
  (priority < EM_PRIORITY_COUNT)%N →
  (data_copy ≠ NULL → (0 < data_size)%N) → queued_inv m →
  snd (fst (publish_async_enqueue m event_id data data_size priority data_copy mem))
    = Some m' →
  queued_inv m'.
Proof.
  intros Hwf He Hp Hdc Hinv.
  destruct (Z.lt_ge_cases (q_count (async_queues m !!! N.to_nat priority))
              EM_ASYNC_QUEUE_SIZE) as [Hroom|Hfull].
  - destruct (publish_async_enqueue_ok m event_id data data_size priority data_copy
                mem Hwf Hp Hroom) as (q' & _ & _ & Hcont & _ & ->).
    cbn [fst snd]. intros [= <-] i Hi.
    cbn [async_queues set_stats set_async_queue].
    destruct (decide (i = N.to_nat priority)) as [->|Hne].
    + rewrite list_lookup_total_insert_eq
        by (destruct Hwf as (_ & _ & -> & _); done).
      rewrite Hcont. apply Forall_app. split; [by apply Hinv|].
      apply Forall_singleton. unfold queued_ok. cbn [fst snd ev_id ev_priority
        ev_mode ev_data ev_data_size].
      split; [done|]. split; [done|]. split; [done|]. intros Hnz.
      destruct (Z.eqb_spec data_copy NULL); [done|]. cbn [negb]. auto.
    + rewrite list_lookup_total_insert_ne by done. by apply Hinv.
  - intros Heq.
    destruct (publish_async_enqueue m event_id data data_size priority data_copy mem)
      as [[r h'] mem'] eqn:Hcall.
    destruct (publish_async_enqueue_failure _ _ _ _ _ _ _ _ _ _ Hcall)
      as [(_ & ?)|(_ & _ & -> & _)]; [lia|].
    cbn in Heq. by simplify_eq.
Qed.

Lemma queued_inv_em_publish_async malloc_ret m event_id data data_size priority
    mem m' :
  wf_manager m → queued_inv m →
  snd (fst (em_publish_async malloc_ret (Some m) event_id data data_size priority mem))
    = Some m' →
  queued_inv m'.
Proof.
  intros Hwf Hinv. unfold em_publish_async.
  case_match eqn:He; [cbn; intros; by simplify_eq|]. apply N.leb_gt in He.
  case_match eqn:Hp; [cbn; intros; by simplify_eq|]. apply N.leb_gt in Hp.
  case_match eqn:Hc.
  - destruct (malloc _ _ _) as [dc mem1].
    case_match eqn:Hnull; [cbn; intros; by simplify_eq|].
    apply queued_inv_publish_async_enqueue; try done.
    intros _. apply andb_true_iff in Hc as [_ Hc]. by apply N.ltb_lt.
  - apply queued_inv_publish_async_enqueue; done.
Qed.

(** [em_process_one] with something queued, on a manager whose queued
    descriptors are those [em_publish_async] builds: the event taken has a
    valid id, so it is counted as processed before its callbacks run. *)
Lemma em_process_one_queued cb m mem :
  wf_manager m → queued_inv m → 0 < count_sum m →
  ∃ m1 data_copy calls,
    (let w := run_callbacks cb calls (Some m1, mem) in
     em_process_one cb (Some m) mem
     = (EM_OK, fst w,
        if negb (data_copy =? NULL) then free data_copy (snd w) else snd w,
        calls)) ∧
    wf_manager m1 ∧ queued_inv m1 ∧ count_sum m1 = count_sum m - 1 ∧
    events_processed (stats m1) = u32 (events_processed (stats m) + 1) ∧
    events_published (stats m1) = events_published (stats m) ∧
    async_queue_max (stats m1) = async_queue_max (stats m) ∧
    subscribers_total (stats m1) = subscribers_total (stats m).
Proof.
  intros Hwf Hinv Hpos.
  destruct (first_nonempty m (N.to_nat EM_PRIORITY_COUNT))
    as [Hall|(p & Hp & Hposp & Hfirst)].
  { exfalso.
    destruct (em_process_one_cases cb m mem Hwf)
      as [(? & _)|(_ & ? & ? & ? & Hcall & _)]; [lia|].
    cbv zeta in Hcall. unfold em_process_one in Hcall.
    rewrite process_scan_empty in Hcall; [done|]. intros q Hq. apply Hall. lia. }
  pose proof (wf_lookup_queue m p Hwf Hp) as Hq.
  destruct (dequeue_event_ok _ Hq) as (q' & [ev dc] & Hdeq & Hq' & Hcont); [lia|].
  pose proof (Hinv p Hp) as Hok. rewrite Hcont in Hok.
  apply Forall_cons in Hok as [(Hid & _) Hrest]. cbn [fst] in Hid.
  assert (Hcount : q_count q' = q_count (async_queues m !!! p) - 1).
  { unfold dequeue_event in Hdeq. case_match; by simplify_eq. }
  unfold em_process_one.
  rewrite (process_scan_first m 0 _ p q' (ev, dc));
    [|lia|intros; apply Hfirst; lia|done|done].
  set (m0 := set_stats _ _).
  assert (Hwf0 : wf_manager m0).
  { apply wf_set_stats; [by apply wf_set_async_queue|].
    destruct Hwf as (_ & _ & _ & _ & (? & ? & ? & ? & ?)).
    unfold wf_stats; cbn -[queue_total]. split_and!; auto using is_u32_queue_total. }
  pose proof (wf_dispatch_prepare m0 (ev_id ev) (ev_data ev) Hwf0) as Hwf1.
  pose proof (queue_stats_dispatch_prepare m0 (ev_id ev) (ev_data ev)) as (Hd & _).
  rewrite dispatch_event_eq.
  exists (fst (dispatch_prepare m0 (ev_id ev) (ev_data ev))), dc,
         (snd (dispatch_prepare m0 (ev_id ev) (ev_data ev))).
  split; [reflexivity|]. split; [done|].
  assert (Hq1 : async_queues (dispatch_prepare m0 (ev_id ev) (ev_data ev)).1
                = <[p := q']> (async_queues m)) by (by rewrite Hd).
  split; [|split].
  - intros i Hi. rewrite Hq1.
    destruct (decide (i = p)) as [->|Hne].
    + rewrite list_lookup_total_insert_eq by (destruct Hwf as (_ & _ & -> & _); done).
      done.
    + rewrite list_lookup_total_insert_ne by done. by apply Hinv.
  - unfold count_sum at 1. rewrite Hd. fold (count_sum m0).
    unfold m0. change (count_sum (set_stats ?a ?b)) with (count_sum a).
    rewrite count_sum_set_async_queue by done. lia.
  - unfold dispatch_prepare.
    destruct (N.leb_spec EM_MAX_EVENT_TYPES (ev_id ev)) as [|_]; [lia|].
    unfold dispatch_snapshot. cbn. done.
Qed.

Lemma queued_inv_em_process_one m mem m' :
  wf_manager m → queued_inv m →
  (em_process_one quiet (Some m) mem).1.1.2 = Some m' → queued_inv m'.
Proof.
  intros Hwf Hinv.
  destruct (em_process_one_cases quiet m mem Hwf) as [(_ & ->)|(Hpos & _)].
  - cbn. intros; by simplify_eq.
  - destruct (em_process_one_queued quiet m mem Hwf Hinv Hpos)
      as (m1 & dc & calls & Hcall & _ & Hinv1 & _).
    cbv zeta in Hcall. rewrite run_callbacks_quiet in Hcall. rewrite Hcall.
    cbn. intros; by simplify_eq.
Qed.

Lemma queued_inv_em_clear_queue m mem m' :
  wf_manager m →
  snd (fst (em_clear_queue (Some m) mem)) = Some m' → queued_inv m'.
Proof.
  intros (_ & _ & Hlen & Hq & _). unfold em_clear_queue.
  destruct (clear_queues_spec (async_queues m) mem 0 (N.to_nat EM_PRIORITY_COUNT) Hq)
    as (_ & _ & Hcounts).
  destruct (clear_queues _ _ _ _) as [queues' mem']. cbn [fst snd] in *.
  intros [= <-] i Hi. cbn [async_queues]. unfold queue_contents.
  rewrite Hcounts. rewrite decide_True by lia. cbn. done.
Qed.

Lemma queued_inv_em_step h mem o w' :
  (∀ fuel, o ≠ OpProcessAll fuel) →
  (∃ m, h = Some m ∧ wf_manager m ∧ queued_inv m) →
  em_step quiet (h, mem) o = Some w' →
  ∃ m', w'.1 = Some m' ∧ wf_manager m' ∧ queued_inv m'.
Proof.
  intros Hpa (m & -> & Hwf & Hinv) Hstep.
  destruct (wf_em_step (Some m) mem o w' Hpa) as (m' & Hm' & Hwf');
    [by exists m|done|].
  exists m'. split; [done|]. split; [done|].
  destruct w' as [h' mem']. cbn in Hm'. subst h'.
  unfold em_step in Hstep. destruct o; cbv beta iota in Hstep.
  - apply (inj Some) in Hstep. apply pair_equal_spec in Hstep as [Hs _].
    apply queue_stats_em_subscribe in Hs as (Hq & _). by eapply queued_inv_frame.
  - apply (inj Some) in Hstep. apply pair_equal_spec in Hstep as [Hs _].
    apply queue_stats_em_unsubscribe in Hs as (Hq & _). by eapply queued_inv_frame.
  - apply (inj Some) in Hstep. apply pair_equal_spec in Hstep as [Hs _].
    apply queue_stats_em_unsubscribe_all in Hs as (Hq & _). by eapply queued_inv_frame.
  - pose proof (queue_stats_em_publish_sync m event_id data mem m') as Hs.
    destruct (em_publish_sync _ _ _ _ _) as [[[r h'] mem1] calls].
    apply (inj Some) in Hstep. apply pair_equal_spec in Hstep as [-> _].
    destruct (Hs eq_refl) as (Hq & _). by eapply queued_inv_frame.
  - pose proof (queued_inv_em_publish_async malloc_ret m event_id data data_size
                  priority mem m' Hwf Hinv) as H.
    destruct (em_publish_async _ _ _ _ _ _ _) as [[r h'] mem1].
    apply (inj Some) in Hstep. apply pair_equal_spec in Hstep as [-> _]. by apply H.
  - pose proof (queued_inv_em_process_one m mem m' Hwf Hinv) as H.
    destruct (em_process_one _ _ _) as [[[r h'] mem1] calls].
    apply (inj Some) in Hstep. apply pair_equal_spec in Hstep as [-> _]. by apply H.
  - by destruct (Hpa fuel).
  - apply (inj Some) in Hstep. apply pair_equal_spec in Hstep as [Hs _]. cbn in Hs.
    apply (inj Some) in Hs as <-. done.
  - apply (inj Some) in Hstep. apply pair_equal_spec in Hstep as [Hs _]. cbn in Hs.
    apply (inj Some) in Hs as <-. done.
  - pose proof (queued_inv_em_clear_queue m mem m' Hwf) as H.
    destruct (em_clear_queue _ _) as [[r h'] mem1].
    apply (inj Some) in Hstep. apply pair_equal_spec in Hstep as [-> _]. by apply H.
Qed.

Lemma queued_inv_em_run cb ops m mem :
  api_callbacks cb →
  em_run cb ops (em_create true, ∅) = Some (Some m, mem) →
  wf_manager m ∧ queued_inv m.
Proof.
  intros Hcb Hrun.
  set (J := fun h : em_handle_t => ∃ m, h = Some m ∧ wf_manager m ∧ queued_inv m).
  assert (J (Some m)) as (m' & [= <-] & ?); [|done].
  apply (em_run_inv J queued_inv_em_step cb ops (em_create true, ∅) (Some m, mem) Hcb);
    [|done].
  destruct wf_em_create as (m0 & Hm0 & Hwf0). exists m0.
  split; [done|]. split; [done|]. cbn in Hm0. apply (inj Some) in Hm0. subst m0.
  intros p Hp. change (N.to_nat EM_PRIORITY_COUNT) with 3%nat in Hp.
  destruct p as [|[|[|p]]]; [by vm_compute..|lia].
Qed.

(** X17: in every state a freshly created manager reaches, whatever its
    callbacks do through the API, each queued descriptor is one
    [em_publish_async] built: its event id is below [EM_MAX_EVENT_TYPES],
    its priority is that of the queue it sits in, its mode is
    [EM_MODE_ASYNC], and when its node owns a copy the data pointer of the
    event is the address of that copy and the recorded length is
    positive. *)
Theorem queued_events_valid (cb : em_callbacks) (ops : list em_op)
    (m : em_manager) (mem : gmap Z (list Z)) :
  api_callbacks cb →
  em_run cb ops (em_create true, ∅) = Some (Some m, mem) →
  ∀ p event data_copy,
    (p < N.to_nat EM_PRIORITY_COUNT)%nat →
    (event, data_copy) ∈ queue_contents (async_queues m !!! p) →
    queued_ok p (event, data_copy).
Proof.
  intros Hcb Hrun p event data_copy Hp Hin.
  destruct (queued_inv_em_run cb ops m mem Hcb Hrun) as (_ & Hinv).
  specialize (Hinv p Hp). rewrite Forall_forall in Hinv. by apply Hinv.
Qed.

Lemma queued_events_valid_witness :
  ∃ m mem,
    em_run calling_back
           [OpSubscribe 6 100 0 1; OpPublishAsync 77 3 5 2 1; OpPublishSync 6 0]
           (em_create true, ∅) = Some (Some m, mem) ∧
    queue_contents (async_queues m !!! 1%nat)
    = [(mk_event 3 77 2 1 EM_MODE_ASYNC, 77); (mk_event 6 0 0 1 EM_MODE_ASYNC, 0)] ∧
    queued_ok 1 (mk_event 6 0 0 1 EM_MODE_ASYNC, 0).
Proof.
  assert (Hm : ∃ m mem,
             em_run calling_back
                    [OpSubscribe 6 100 0 1; OpPublishAsync 77 3 5 2 1; OpPublishSync 6 0]
                    (em_create true, ∅) = Some (Some m, mem) ∧
             queue_contents (async_queues m !!! 1%nat)
             = [(mk_event 3 77 2 1 EM_MODE_ASYNC, 77);
                (mk_event 6 0 0 1 EM_MODE_ASYNC, 0)]).
  { eexists _, _. split; vm_compute; reflexivity. }
  destruct Hm as (m & mem & Hrun & Hcont).
  exists m, mem. split; [exact Hrun|]. split; [exact Hcont|].
  apply (queued_events_valid calling_back _ m mem api_callbacks_calling_back Hrun 1%nat).
  - unfold EM_PRIORITY_COUNT. lia.
  - rewrite Hcont. apply list_elem_of_further, list_elem_of_here.
Defined.


